(** * Kurento health monitor: a model of [server.js]

    The monitor is a single-threaded Node.js program.  Every callback the
    event loop runs (a timer firing, a connection callback, a client event,
    a settled promise together with its continuation) is one atomic turn that
    mutates the [Monitor] singleton and the host objects it shares with its
    closures.  The model below keeps that shape: host objects live in a heap
    and are referred to by reference, the handlers of the class are written
    in a state-and-exception monad, and the environment (the Kurento client
    library, the timers, the websocket probe, the webhook endpoint) drives
    the machine through events. *)

From stdpp Require Import gmap strings list fin_maps.
From Stdlib Require Import Ascii Bool Arith Lia.

Open Scope string_scope.
Open Scope list_scope.

(** ** JavaScript completions and the handler monad *)

Inductive exn :=
| ReferenceError (x : string)      (* an identifier that no scope binds *)
| TypeError (what : string)
| RequestError (n : nat).          (* thrown by [https.request], n-th call *)

Inductive completion (A : Type) :=
| Normal (a : A)
| Throw (e : exn).
Arguments Normal {A} a.
Arguments Throw {A} e.

Module Heap.

(** *** Objects *)

(** The object a successful startup connect builds ([Monitor.connect]),
    with the properties the handlers add to it later.  A property that is
    still [undefined] reads as [false] (flags, all tested for truthiness
    only) or as [None]. *)
Record host := Host {
  id : string;
  url : string;
  ip : string;
  client : nat;
  failureNotified : bool;
  healthcheckFailureNotified : bool;
  healthcheckerInterval : option nat;
  audio : option nat;
  video : option nat;
}.

(** An element of [tentativeHosts]: a configured descriptor spread into a
    fresh object with [retries: 0]. *)
Record tentative := Tentative {
  th_url : string;
  th_ip : string;
  retries : nat;
  startupFailureNotified : bool;
}.

Definition set_client (c : nat) (h : host) : host :=
  Host (id h) (url h) (ip h) c (failureNotified h)
       (healthcheckFailureNotified h) (healthcheckerInterval h) (audio h) (video h).

Definition set_failureNotified (b : bool) (h : host) : host :=
  Host (id h) (url h) (ip h) (client h) b
       (healthcheckFailureNotified h) (healthcheckerInterval h) (audio h) (video h).

Definition set_healthcheckFailureNotified (b : bool) (h : host) : host :=
  Host (id h) (url h) (ip h) (client h) (failureNotified h)
       b (healthcheckerInterval h) (audio h) (video h).

Definition set_healthcheckerInterval (t : nat) (h : host) : host :=
  Host (id h) (url h) (ip h) (client h) (failureNotified h)
       (healthcheckFailureNotified h) (Some t) (audio h) (video h).

(** [host.audio = 0; host.video = 0] *)
Definition reset_media (h : host) : host :=
  Host (id h) (url h) (ip h) (client h) (failureNotified h)
       (healthcheckFailureNotified h) (healthcheckerInterval h) (Some 0) (Some 0).

Definition set_retries (n : nat) (t : tentative) : tentative :=
  Tentative (th_url t) (th_ip t) n (startupFailureNotified t).

Definition set_startupFailureNotified (b : bool) (t : tentative) : tentative :=
  Tentative (th_url t) (th_ip t) (retries t) b.

End Heap.
Export Heap.

(** ** Template literals and identifier resolution

    The alert texts are template literals.  Their substitutions are
    identifiers or member expressions, resolved in the scope of the function
    that contains the literal: its own bindings first, then the bindings of
    the module.  Resolving an identifier that no scope binds throws a
    [ReferenceError]. *)
Module Js.

#[warnings="-register-all"]
Inductive jsval :=
| VUndefined
| VString (s : string)
| VObject (props : list (string * jsval)).

Definition scope := list (string * jsval).

Fixpoint assoc {A} (x : string) (l : list (string * A)) : option A :=
  match l with
  | [] => None
  | (y, v) :: l' => if String.eqb x y then Some v else assoc x l'
  end.

Definition ToString (v : jsval) : string :=
  match v with
  | VUndefined => "undefined"
  | VString s => s
  | VObject _ => "[object Object]"
  end.

Inductive expr :=
| Id (x : string)            (* x *)
| Dot (x p : string).        (* x.p *)

Definition resolve (sc : scope) (x : string) : completion jsval :=
  match assoc x sc with
  | Some v => Normal v
  | None => Throw (ReferenceError x)
  end.

Definition member (v : jsval) (p : string) : completion jsval :=
  match v with
  | VObject props => Normal (default VUndefined (assoc p props))
  | VString _ => Normal VUndefined
  | VUndefined => Throw (TypeError p)
  end.

Definition eval (sc : scope) (e : expr) : completion jsval :=
  match e with
  | Id x => resolve sc x
  | Dot x p => match resolve sc x with
               | Normal v => member v p
               | Throw e => Throw e
               end
  end.

Inductive quasi :=
| Str (s : string)
| Sub (e : expr).            (* ${e} *)

(** Substitutions are evaluated left to right; the first one that throws
    ends the evaluation. *)
Fixpoint template (sc : scope) (q : list quasi) : completion string :=
  match q with
  | [] => Normal ""
  | Str s :: q' =>
      match template sc q' with
      | Normal rest => Normal (s ++ rest)%string
      | Throw e => Throw e
      end
  | Sub e :: q' =>
      match eval sc e with
      | Normal v =>
          match template sc q' with
          | Normal rest => Normal (ToString v ++ rest)%string
          | Throw e' => Throw e'
          end
      | Throw e' => Throw e'
      end
  end.

End Js.
Export Js.

(** ** The alert vocabulary *)

Inductive hook_event :=
| STARTUP_CONNECT_FAILURE
| STARTUP_CONNECT_SUCCESS
| MEDIA_SERVER_OFFLINE
| MEDIA_SERVER_ONLINE
| WS_CONN_UNHEALTHY
| WS_CONN_HEALTHY.

Definition event_name (ev : hook_event) : string :=
  match ev with
  | STARTUP_CONNECT_FAILURE => "STARTUP_CONNECT_FAILURE"
  | STARTUP_CONNECT_SUCCESS => "STARTUP_CONNECT_SUCCESS"
  | MEDIA_SERVER_OFFLINE => "MEDIA_SERVER_OFFLINE"
  | MEDIA_SERVER_ONLINE => "MEDIA_SERVER_ONLINE"
  | WS_CONN_UNHEALTHY => "WS_CONN_UNHEALTHY"
  | WS_CONN_HEALTHY => "WS_CONN_HEALTHY"
  end.

#[global] Instance hook_event_eq_dec : EqDecision hook_event.
Proof. solve_decision. Defined.

(** ** The supervisor's state *)

(** A connect-versus-failover race issued by [Monitor.connectToHost]
    (startup, for the tentative host [i] with the [url] and [ip] passed to
    it) or by a tick of the reconnection interval (for the host object [r]
    and the [id] its closure captured). *)
Inductive attempt_kind :=
| Startup (i : nat) (u p : string)
| Reconnect (r : nat) (hid : string).

(** [Promise.race([connect, failOver])]: the race is settled as soon as one
    of its two inputs has settled. *)
Record attempt := Attempt {
  kind : attempt_kind;
  connect_fired : bool;       (* the mediaServerClient callback ran *)
  failOver_fired : bool;      (* the failover timeout ran *)
}.

Definition race_settled (a : attempt) : bool :=
  connect_fired a || failOver_fired a.

Record monitor := Monitor {
  hosts : list nat;                        (* this.hosts: references to host objects *)
  _reconnectionRoutine : gmap string nat;  (* this._reconnectionRoutine: id -> timer *)
  heap : list host;                        (* the host objects, by reference *)
  tentativeHosts : list tentative;
  intervals : gmap nat (nat * string);     (* live reconnection intervals and what they captured *)
  timeouts : list nat;                     (* pending setTimeout(() => tryToConnect(host)) *)
  attempts : list attempt;
  listeners : list (nat * nat);            (* (client, host): 'disconnect' and 'reconnected' listeners *)
  next_timer : nat;
  hook_calls : nat;                        (* calls of emitHookWarning so far *)
  outbox : list (hook_event * string);     (* alert requests handed to https, oldest first *)
}.

Definition with_hosts (f : list nat → list nat) (s : monitor) : monitor :=
  Monitor (f (hosts s)) (_reconnectionRoutine s) (heap s) (tentativeHosts s)
          (intervals s) (timeouts s) (attempts s) (listeners s) (next_timer s)
          (hook_calls s) (outbox s).
Definition with_routine (f : gmap string nat → gmap string nat) (s : monitor) : monitor :=
  Monitor (hosts s) (f (_reconnectionRoutine s)) (heap s) (tentativeHosts s)
          (intervals s) (timeouts s) (attempts s) (listeners s) (next_timer s)
          (hook_calls s) (outbox s).
Definition with_heap (f : list host → list host) (s : monitor) : monitor :=
  Monitor (hosts s) (_reconnectionRoutine s) (f (heap s)) (tentativeHosts s)
          (intervals s) (timeouts s) (attempts s) (listeners s) (next_timer s)
          (hook_calls s) (outbox s).
Definition with_tentativeHosts (f : list tentative → list tentative) (s : monitor) : monitor :=
  Monitor (hosts s) (_reconnectionRoutine s) (heap s) (f (tentativeHosts s))
          (intervals s) (timeouts s) (attempts s) (listeners s) (next_timer s)
          (hook_calls s) (outbox s).
Definition with_intervals (f : gmap nat (nat * string) → gmap nat (nat * string)) (s : monitor) : monitor :=
  Monitor (hosts s) (_reconnectionRoutine s) (heap s) (tentativeHosts s)
          (f (intervals s)) (timeouts s) (attempts s) (listeners s) (next_timer s)
          (hook_calls s) (outbox s).
Definition with_timeouts (f : list nat → list nat) (s : monitor) : monitor :=
  Monitor (hosts s) (_reconnectionRoutine s) (heap s) (tentativeHosts s)
          (intervals s) (f (timeouts s)) (attempts s) (listeners s) (next_timer s)
          (hook_calls s) (outbox s).
Definition with_attempts (f : list attempt → list attempt) (s : monitor) : monitor :=
  Monitor (hosts s) (_reconnectionRoutine s) (heap s) (tentativeHosts s)
          (intervals s) (timeouts s) (f (attempts s)) (listeners s) (next_timer s)
          (hook_calls s) (outbox s).
Definition with_listeners (f : list (nat * nat) → list (nat * nat)) (s : monitor) : monitor :=
  Monitor (hosts s) (_reconnectionRoutine s) (heap s) (tentativeHosts s)
          (intervals s) (timeouts s) (attempts s) (f (listeners s)) (next_timer s)
          (hook_calls s) (outbox s).
Definition with_next_timer (f : nat → nat) (s : monitor) : monitor :=
  Monitor (hosts s) (_reconnectionRoutine s) (heap s) (tentativeHosts s)
          (intervals s) (timeouts s) (attempts s) (listeners s) (f (next_timer s))
          (hook_calls s) (outbox s).
Definition with_hook_calls (f : nat → nat) (s : monitor) : monitor :=
  Monitor (hosts s) (_reconnectionRoutine s) (heap s) (tentativeHosts s)
          (intervals s) (timeouts s) (attempts s) (listeners s) (next_timer s)
          (f (hook_calls s)) (outbox s).
Definition with_outbox (f : list (hook_event * string) → list (hook_event * string)) (s : monitor) : monitor :=
  Monitor (hosts s) (_reconnectionRoutine s) (heap s) (tentativeHosts s)
          (intervals s) (timeouts s) (attempts s) (listeners s) (next_timer s)
          (hook_calls s) (f (outbox s)).

(** Handlers run to completion on the state; what they mutated before a
    [throw] stays mutated. *)
Definition M (A : Type) : Type := monitor → completion A * monitor.

#[global] Instance M_ret : MRet M := λ A a s, (Normal a, s).
#[global] Instance M_bind : MBind M := λ A B k m s,
  match m s with
  | (Normal a, s') => k a s'
  | (Throw e, s') => (Throw e, s')
  end.

Definition lift {A} (c : completion A) : M A := λ s, (c, s).
Definition gets {A} (f : monitor → A) : M A := λ s, (Normal (f s), s).
Definition modify (f : monitor → monitor) : M unit := λ s, (Normal tt, f s).

(** [try { body } catch (e) { handler e }] *)
Definition try_catch {A} (body : M A) (handler : exn → M A) : M A := λ s,
  match body s with
  | (Normal a, s') => (Normal a, s')
  | (Throw e, s') => handler e s'
  end.

Definition skip : M unit := mret tt.

(** ** The [Monitor] class *)

(** Configuration read when the module loads, and the webhook endpoint:
    [request n] tells whether the [n]-th call of [https.request(...).end(...)]
    returns ([true]) or throws synchronously ([false]), as it does for
    instance when [webhookURL] is not an [https:] URL. *)
Record environment := Environment {
  HOST_NAME : string;
  NOF_STARTUP_CONNECTION_RETRIES : option nat;   (* None: Infinity *)
  ENABLE_HEALTHCHECK : bool;
  KMS_ARRAY : list (string * string);            (* { url, ip } *)
  request : nat → bool;
}.

(** ** The events of the loop

    One event is one turn of the loop.  The library calls the completion
    callback of a connect at most once, a timeout fires once, an interval
    ticks while it is live, and a client event reaches the listeners that
    were attached to that client. *)

Inductive conn_result :=
| ConnErr
| ConnOk (c : nat) (token : string).   (* the client, and what greatRandomToken(12) returns *)

Inductive event :=
| ConnectCallback (a : nat) (res : conn_result)
| FailOver (a : nat)
| RetryTimeout (i : nat)
| Disconnect (c r : nat)
| Reconnected (c r : nat) (sameSession : bool)
| IntervalTick (t : nat)
| ProbeSettled (r : nat) (ok : bool).

(** ** probeConnectionHealth

    One probe is one promise around one websocket.  The closure variable
    [ws] holds the socket until [destroyWs] closes it and sets the variable
    to [null]; ['open'], ['close'] and ['error'] are listened to once, the
    ['message'] listener is added when the socket opens and is never
    removed.  The socket is created with [handshakeTimeout], the timer of
    the library: a handshake that is not over after that long ends with an
    ['error'].  The function sets no timer of its own. *)

Module Probe.

Definition KMS_FAILOVER_TIMEOUT_MS : N := 15000%N.

#[warnings="-register-all"]
Inductive json :=
| JNull
| JBool (b : bool)
| JNum (n : Z)
| JStr (s : string)
| JObj (fields : list (string * json)).

(** [id === ping.id && result && result.value === 'pong'], on the
    properties [id] and [result] of a parsed message; [ping.id] is 1. *)
Definition is_pong (pong : json) : bool :=
  match pong with
  | JObj fields =>
      match assoc "id" fields, assoc "result" fields with
      | Some (JNum 1), Some (JObj result) =>
          match assoc "value" result with
          | Some (JStr v) => String.eqb v "pong"
          | _ => false
          end
      | _, _ => false
      end
  | _ => false
  end.

Inductive ws_event :=
| WsOpen
| WsMessage (data : option json)     (* None: JSON.parse throws on it *)
| WsClose
| WsError
| Elapse (ms : N).

Inductive promise_state := Pending | Resolved | Rejected.

Record probe := Probe {
  ws_null : bool;              (* ws = null *)
  close_calls : nat;           (* calls of ws.close() *)
  open_listener : bool;
  close_listener : bool;
  error_listener : bool;
  message_listener : bool;
  pings_sent : nat;
  handshake_over : bool;       (* the library: opened, failed or closed *)
  clock : N;                   (* milliseconds since the probe started *)
  promise : promise_state;
  uncaught : nat;              (* exceptions thrown out of a listener *)
}.

(** [new Promise(...)]: the executor has run. *)
Definition start : probe :=
  Probe false 0 true true true false 0 false 0%N Pending 0.

Definition settle (o : promise_state) (p : probe) : probe :=
  Probe (ws_null p) (close_calls p) (open_listener p) (close_listener p)
        (error_listener p) (message_listener p) (pings_sent p) (handshake_over p)
        (clock p) (match promise p with Pending => o | settled => settled end)
        (uncaught p).

Definition removeWsListeners (p : probe) : probe :=
  Probe (ws_null p) (close_calls p) false false false (message_listener p)
        (pings_sent p) (handshake_over p) (clock p) (promise p) (uncaught p).

Definition destroyWs (p : probe) : probe :=
  Probe true (S (close_calls p)) (open_listener p) (close_listener p)
        (error_listener p) (message_listener p) (pings_sent p) (handshake_over p)
        (clock p) (promise p) (uncaught p).

Definition throws (p : probe) : probe :=
  Probe (ws_null p) (close_calls p) (open_listener p) (close_listener p)
        (error_listener p) (message_listener p) (pings_sent p) (handshake_over p)
        (clock p) (promise p) (S (uncaught p)).

Definition handshake_done (p : probe) : probe :=
  Probe (ws_null p) (close_calls p) (open_listener p) (close_listener p)
        (error_listener p) (message_listener p) (pings_sent p) true
        (clock p) (promise p) (uncaught p).

Definition advance (ms : N) (p : probe) : probe :=
  Probe (ws_null p) (close_calls p) (open_listener p) (close_listener p)
        (error_listener p) (message_listener p) (pings_sent p) (handshake_over p)
        (clock p + ms)%N (promise p) (uncaught p).

(** [onOpen], registered with [once]: adds the message listener and sends
    the ping. *)
Definition onOpen (p : probe) : probe :=
  Probe (ws_null p) (close_calls p) false (close_listener p)
        (error_listener p) true (S (pings_sent p)) (handshake_over p)
        (clock p) (promise p) (uncaught p).

(** [onClose] and [onError] have the same body up to what they log and
    reject with. *)
Definition onClose (p : probe) : probe :=
  settle Rejected (destroyWs (removeWsListeners p)).

Definition onError (p : probe) : probe :=
  settle Rejected (destroyWs (removeWsListeners p)).

(** The ['message'] listener.  [ws.removeAllListeners] throws when [ws]
    is already [null]. *)
Definition onMessage (data : option json) (p : probe) : probe :=
  match data with
  | None => throws p                                   (* JSON.parse *)
  | Some JNull => throws p                             (* destructuring null *)
  | Some pong =>
      if is_pong pong
      then if ws_null p then throws p
           else settle Resolved (destroyWs (removeWsListeners p))
      else p
  end.

Definition step (e : ws_event) (p : probe) : probe :=
  match e with
  | WsOpen =>
      let p := handshake_done p in
      if open_listener p then onOpen p else p
  | WsMessage data => if message_listener p then onMessage data p else p
  | WsClose =>
      let p := handshake_done p in
      if close_listener p then onClose p else p
  | WsError =>
      let p := handshake_done p in
      if error_listener p then onError p else p
  | Elapse ms =>
      let p := advance ms p in
      if negb (handshake_over p) && N.leb KMS_FAILOVER_TIMEOUT_MS (clock p)
      then let p := handshake_done p in
           if error_listener p then onError p else p
      else p
  end.

Definition probeConnectionHealth (es : list ws_event) : probe :=
  fold_left (λ p e, step e p) es start.

Definition settled (p : probe) : bool :=
  match promise p with Pending => false | _ => true end.

Definition elapsed (es : list ws_event) : N :=
  fold_right (λ e n, match e with Elapse ms => (ms + n)%N | _ => n end) 0%N es.

(** What holds of a probe at every moment. *)
Definition consistent (p : probe) : Prop :=
  match promise p with
  | Pending =>
      ws_null p = false ∧ close_calls p = 0
      ∧ close_listener p = true ∧ error_listener p = true
      ∧ open_listener p = negb (message_listener p)
      ∧ (message_listener p = true → handshake_over p = true)
  | _ =>
      ws_null p = true ∧ close_calls p = 1
      ∧ close_listener p = false ∧ error_listener p = false
      ∧ open_listener p = false
  end.

(** A probe whose socket opened and whose peer then stays silent, or
    answers with anything but the pong, is still pending with its socket
    open however long it has waited. *)
Definition silent_peer : list ws_event :=
  [ WsOpen;
    Elapse KMS_FAILOVER_TIMEOUT_MS;
    WsMessage (Some (JObj [("id", JNum 2); ("result", JObj [("value", JStr "pong")])]));
    Elapse 3600000 ].

End Probe.

(** ** greatRandomToken

    [Math.random()] yields a binary64 number in [0, 1): a dyadic rational
    [num / 2^expo] with [num < 2^expo].  For the [base] 32 of the one call
    the product [Math.random() * base] is exact, and [| 0] truncates it. *)

Module Token.

Record unit_double := UnitDouble { num : N; expo : N }.

Definition in_unit_interval (x : unit_double) : Prop := (num x < 2 ^ expo x)%N.

(** [Math.random() * base | 0], for a [base] that is a power of two: the
    code rounds the product to a binary64 before it truncates, which
    changes nothing there. *)
Definition scaled (x : unit_double) (base : N) : N := (num x * base / 2 ^ expo x)%N.

Definition digits : list ascii :=
  String.list_ascii_of_string "0123456789abcdefghijklmnopqrstuvwxyz".

Definition digit (d : N) : ascii := nth (N.to_nat d) digits "0"%char.

(** [Number.prototype.toString(radix)] on a non-negative integer, most
    significant digit first. *)
Fixpoint to_radix (fuel : nat) (radix n : N) (acc : string) : string :=
  let acc' := String (digit (n mod radix)) acc in
  match fuel with
  | 0 => acc'
  | S fuel' => if (n / radix =? 0)%N then acc' else to_radix fuel' radix (n / radix) acc'
  end.

(** [None]: [toString] throws a RangeError for a radix outside 2..36. *)
Definition toString (radix n : N) : option string :=
  if (2 <=? radix)%N && (radix <=? 36)%N
  then Some (to_radix (N.to_nat n) radix n "")
  else None.

(** The loop of [greatRandomToken(size, base)], with the [i]-th call of
    [Math.random()] answering [random i]. *)
Fixpoint loop (random : nat → unit_double) (base : N) (i size : nat) (token : string)
    : option string :=
  match size with
  | 0 => Some token
  | S size' =>
      let r := scaled (random i) base in
      match toString base r with
      | Some d => loop random base (S i) size' (token ++ d)%string
      | None => None
      end
  end.

Definition greatRandomToken (random : nat → unit_double) (size : nat) (base : N)
    : option string :=
  loop random base 0 size "".

End Token.

(** ** The FreeSWITCH wrapper: a model of [esl.js]

    [server.js] requires [esl.js] when it loads and, with
    [freeswitch.enabled], builds one [EslWrapper] around its own
    [emitHookWarning] and starts it.  The wrapper keeps one [Connection] of
    the [modesl] library at a time; the library calls back into it (ready,
    authentication, subscription, events, errors), and two intervals tick:
    the reconnection routine and the health check. *)

Module Esl.

(** *** Loading the module *)

(** [config.has(key)] and, once it holds, [config.get(key)]. *)
Definition has (config : list (string * jsval)) (key : string) : bool :=
  match assoc key config with
  | Some VUndefined | None => false
  | Some _ => true
  end.

Definition get (config : list (string * jsval)) (key : string) : jsval :=
  default VUndefined (assoc key config).

(** The bindings of the module: its declarations, the parameters of Node's
    module wrapper and the globals.  It requires [modesl], [config] and
    [ws]; nothing binds [os], [ESL_IP], [ESL_PORT] or [ESL_PASS]. *)
Definition module_scope : scope :=
  [ ("Connection", VObject []); ("Logger", VObject []); ("config", VObject []);
    ("RECONNECTION_TIMER", VObject []); ("HOST_NAME", VObject []);
    ("LOG_PREFIX", VObject []); ("ESL_EVENTS", VObject []);
    ("CONNECTION_HEALTH_CHECK_INTERVAL", VObject []);
    ("FS_FAILOVER_TIMEOUT_MS", VObject []); ("WebSocket", VObject []);
    ("EslWrapper", VObject []);
    ("exports", VObject []); ("require", VObject []); ("module", VObject []);
    ("__filename", VObject []); ("__dirname", VObject []);
    ("console", VObject []); ("process", VObject []); ("global", VObject []) ].

Record constants := Constants {
  HOST_NAME : jsval;
  CONNECTION_HEALTH_CHECK_INTERVAL : jsval;
}.

(** The top level of the module up to [class EslWrapper]:
    [config.has('hostAddress') ? config.get('hostAddress') : os.hostname()],
    then the health check interval.  [hostname] is what [os.hostname()]
    would return. *)
Definition load (config : list (string * jsval)) (hostname : string) : completion constants :=
  match
    (if has config "hostAddress"
     then Normal (get config "hostAddress")
     else match resolve module_scope "os" with
          | Normal _ => Normal (VString hostname)
          | Throw e => Throw e
          end)
  with
  | Normal h =>
      Normal (Constants h
                (if has config "connHealthCheckInterval"
                 then get config "connHealthCheckInterval"
                 else VString "30000"))
  | Throw e => Throw e
  end.

(** *** The constructor *)

(** Truthiness of the values a configuration holds. *)
Definition truthy (v : jsval) : bool :=
  match v with
  | VUndefined => false
  | VString s => negb (String.eqb s "")
  | VObject _ => true
  end.

Record clientOptions := ClientOptions {
  host : jsval;
  port : jsval;
  auth : jsval;
  sipWssUrl : jsval;
}.

(** [(this.params && this.params.key) ? this.params.key : fallback] *)
Definition option_or (params : jsval) (key : string) (fallback : completion jsval)
    : completion jsval :=
  if truthy params
  then match member params key with
       | Normal v => if truthy v then Normal v else fallback
       | Throw e => Throw e
       end
  else fallback.

(** [params] gives a truthy [key]. *)
Definition given (params : jsval) (key : string) : bool :=
  truthy params
  && match member params key with
     | Normal v => truthy v
     | Throw _ => false
     end.

(** [this._clientOptions = { host: ..., port: ..., auth: ..., sipWssUrl: ... }]:
    the fallbacks of the first three are identifiers, the fallback of the
    fourth is [undefined]. *)
Definition build_clientOptions (params : jsval) : completion clientOptions :=
  match option_or params "host" (resolve module_scope "ESL_IP") with
  | Throw e => Throw e
  | Normal h =>
      match option_or params "port" (resolve module_scope "ESL_PORT") with
      | Throw e => Throw e
      | Normal p =>
          match option_or params "auth" (resolve module_scope "ESL_PASS") with
          | Throw e => Throw e
          | Normal a =>
              match option_or params "sipWssUrl" (Normal VUndefined) with
              | Throw e => Throw e
              | Normal u => Normal (ClientOptions h p a u)
              end
          end
      end
  end.

(** *** The wrapper and the library objects *)

(** A [Connection] of the library, by what can still call back. *)
Record connection := Connection {
  ended : bool;                 (* end() was called on it *)
  ready_pending : bool;         (* the ready callback passed to the constructor *)
  auth_pending : nat;           (* callbacks passed to auth() *)
  subscribe_pending : nat;      (* callbacks passed to subscribe() *)
  error_listeners : nat;        (* on('error', ...) *)
  notice_listeners : nat;       (* on(ESL_EVENTS.DISCONNECT_NOTICE, ...) *)
  end_listeners : nat;          (* on(ESL_EVENTS.END, ...) *)
}.

Record wrapper := Wrapper {
  _clientOptions : clientOptions;
  connected : bool;
  failureNotified : bool;
  _client : option nat;                  (* null, or a Connection *)
  _reconnectionRoutine : option nat;     (* undefined or null, or an interval *)
  healthcheckerInterval : option nat;
  healthcheckFailureNotified : bool;
  connections : list connection;         (* every Connection built so far *)
  constructions : nat;                   (* calls of [new Connection] so far *)
  live : list nat;                       (* live reconnection intervals *)
  next_interval : nat;
  hook_log : list (hook_event * string * bool);
    (* calls of this.emitHookWarning, oldest first, and whether they returned *)
}.

Definition with_connected (b : bool) (w : wrapper) : wrapper :=
  Wrapper (_clientOptions w) b (failureNotified w) (_client w) (_reconnectionRoutine w)
          (healthcheckerInterval w) (healthcheckFailureNotified w) (connections w)
          (constructions w) (live w) (next_interval w) (hook_log w).
Definition with_failureNotified (b : bool) (w : wrapper) : wrapper :=
  Wrapper (_clientOptions w) (connected w) b (_client w) (_reconnectionRoutine w)
          (healthcheckerInterval w) (healthcheckFailureNotified w) (connections w)
          (constructions w) (live w) (next_interval w) (hook_log w).
Definition with_client (c : option nat) (w : wrapper) : wrapper :=
  Wrapper (_clientOptions w) (connected w) (failureNotified w) c (_reconnectionRoutine w)
          (healthcheckerInterval w) (healthcheckFailureNotified w) (connections w)
          (constructions w) (live w) (next_interval w) (hook_log w).
Definition with_routine (t : option nat) (w : wrapper) : wrapper :=
  Wrapper (_clientOptions w) (connected w) (failureNotified w) (_client w) t
          (healthcheckerInterval w) (healthcheckFailureNotified w) (connections w)
          (constructions w) (live w) (next_interval w) (hook_log w).
Definition with_healthcheckerInterval (t : option nat) (w : wrapper) : wrapper :=
  Wrapper (_clientOptions w) (connected w) (failureNotified w) (_client w)
          (_reconnectionRoutine w) t (healthcheckFailureNotified w) (connections w)
          (constructions w) (live w) (next_interval w) (hook_log w).
Definition with_healthcheckFailureNotified (b : bool) (w : wrapper) : wrapper :=
  Wrapper (_clientOptions w) (connected w) (failureNotified w) (_client w)
          (_reconnectionRoutine w) (healthcheckerInterval w) b (connections w)
          (constructions w) (live w) (next_interval w) (hook_log w).
Definition with_connections (f : list connection → list connection) (w : wrapper) : wrapper :=
  Wrapper (_clientOptions w) (connected w) (failureNotified w) (_client w)
          (_reconnectionRoutine w) (healthcheckerInterval w) (healthcheckFailureNotified w)
          (f (connections w)) (constructions w) (live w) (next_interval w) (hook_log w).
Definition with_constructions (f : nat → nat) (w : wrapper) : wrapper :=
  Wrapper (_clientOptions w) (connected w) (failureNotified w) (_client w)
          (_reconnectionRoutine w) (healthcheckerInterval w) (healthcheckFailureNotified w)
          (connections w) (f (constructions w)) (live w) (next_interval w) (hook_log w).
Definition with_live (f : list nat → list nat) (w : wrapper) : wrapper :=
  Wrapper (_clientOptions w) (connected w) (failureNotified w) (_client w)
          (_reconnectionRoutine w) (healthcheckerInterval w) (healthcheckFailureNotified w)
          (connections w) (constructions w) (f (live w)) (next_interval w) (hook_log w).
Definition with_next_interval (f : nat → nat) (w : wrapper) : wrapper :=
  Wrapper (_clientOptions w) (connected w) (failureNotified w) (_client w)
          (_reconnectionRoutine w) (healthcheckerInterval w) (healthcheckFailureNotified w)
          (connections w) (constructions w) (live w) (f (next_interval w)) (hook_log w).
Definition with_hook_log (f : list (hook_event * string * bool) → list (hook_event * string * bool))
    (w : wrapper) : wrapper :=
  Wrapper (_clientOptions w) (connected w) (failureNotified w) (_client w)
          (_reconnectionRoutine w) (healthcheckerInterval w) (healthcheckFailureNotified w)
          (connections w) (constructions w) (live w) (next_interval w) (f (hook_log w)).

(** [new EslWrapper(params, emitHookWarning)] *)
Definition new_EslWrapper (params : jsval) : completion wrapper :=
  match build_clientOptions params with
  | Normal o => Normal (Wrapper o false false None None None false [] 0 [] 0 [])
  | Throw e => Throw e
  end.

(** The methods run on the wrapper and on the state of the monitor, which
    the callback [emitHookWarning] reaches. *)
Definition E (A : Type) : Type := wrapper * monitor → completion A * (wrapper * monitor).

#[export] Instance E_ret : MRet E := λ A a st, (Normal a, st).
#[export] Instance E_bind : MBind E := λ A B k m st,
  match m st with
  | (Normal a, st') => k a st'
  | (Throw e, st') => (Throw e, st')
  end.

Definition this {A} (f : wrapper → A) : E A := λ st, (Normal (f st.1), st).
Definition update (f : wrapper → wrapper) : E unit := λ st, (Normal tt, (f st.1, st.2)).
Definition throw {A} (e : exn) : E A := λ st, (Throw e, st).
Definition done : E unit := mret tt.

Definition try_catch {A} (body : E A) (handler : exn → E A) : E A := λ st,
  match body st with
  | (Normal a, st') => (Normal a, st')
  | (Throw e, st') => handler e st'
  end.

Fixpoint times (n : nat) (m : E unit) : E unit :=
  match n with
  | 0 => done
  | S n' => m;; times n' m
  end.

Inductive event :=
| Ready (c : nat)
| AuthResult (c : nat) (error : bool)
| ErrorEvent (c : nat)
| Subscribed (c : nat)
| DisconnectNotice (c : nat)
| End (c : nat)
| ReconnectionTick (t : nat)
| HealthSettled (ok : bool).

Section Wrapper.

(** What the module and the constructor were given, and the library:
    [throws n] tells whether the [n]-th [new Connection(...)] throws, as
    it does for a port that is out of range. *)
Variable HOST_NAME : string.
Variable emitHookWarning : hook_event → string → M unit.
Variable throws : nat → bool.

(** [this.emitHookWarning(text)] *)
Definition call_hook (ev : hook_event) (text : string) : E unit := λ st,
  match emitHookWarning ev text st.2 with
  | (Normal a, s') => (Normal a, (with_hook_log (λ l, l ++ [(ev, text, true)]) st.1, s'))
  | (Throw e, s') => (Throw e, (with_hook_log (λ l, l ++ [(ev, text, false)]) st.1, s'))
  end.

(** [`${HOST_NAME} triggered EVENT for FreeSWITCH at ${host}:${port}`] *)
Definition connection_text (ev : hook_event) (o : clientOptions) : string :=
  (HOST_NAME ++ " triggered " ++ event_name ev ++ " for FreeSWITCH at "
   ++ ToString (host o) ++ ":" ++ ToString (port o) ++ "")%string.

(** [`${HOST_NAME} triggered WS_CONN_HEALTHY for FreeSWITCH ${sipWssUrl}`] and
    [`${HOST_NAME} triggered WS_CONN_UNHEALTHY | ERROR 1002 for FreeSWITCH ${sipWssUrl}`] *)
Definition health_text (ev : hook_event) (o : clientOptions) : string :=
  match ev with
  | WS_CONN_UNHEALTHY =>
      (HOST_NAME ++ " triggered " ++ "WS_CONN_UNHEALTHY | ERROR 1002 for FreeSWITCH "
       ++ ToString (sipWssUrl o) ++ "")%string
  | _ =>
      (HOST_NAME ++ " triggered " ++ event_name ev ++ " for FreeSWITCH "
       ++ ToString (sipWssUrl o) ++ "")%string
  end.

(** [this._client.method(...)]: a [TypeError] when [this._client] is [null]. *)
Definition on_client (f : connection → connection) : E unit :=
  c ← this _client;
  match c with
  | Some c => update (with_connections (alter f c))
  | None => throw (TypeError "_client")
  end.

Definition add_auth (k : connection) : connection :=
  Connection (ended k) (ready_pending k) (S (auth_pending k)) (subscribe_pending k)
             (error_listeners k) (notice_listeners k) (end_listeners k).
Definition add_subscribe (k : connection) : connection :=
  Connection (ended k) (ready_pending k) (auth_pending k) (S (subscribe_pending k))
             (error_listeners k) (notice_listeners k) (end_listeners k).
Definition add_error_listener (k : connection) : connection :=
  Connection (ended k) (ready_pending k) (auth_pending k) (subscribe_pending k)
             (S (error_listeners k)) (notice_listeners k) (end_listeners k).
Definition add_notice_listener (k : connection) : connection :=
  Connection (ended k) (ready_pending k) (auth_pending k) (subscribe_pending k)
             (error_listeners k) (S (notice_listeners k)) (end_listeners k).
Definition add_end_listener (k : connection) : connection :=
  Connection (ended k) (ready_pending k) (auth_pending k) (subscribe_pending k)
             (error_listeners k) (notice_listeners k) (S (end_listeners k)).
Definition end_connection (k : connection) : connection :=
  Connection true (ready_pending k) (auth_pending k) (subscribe_pending k)
             (error_listeners k) (notice_listeners k) (end_listeners k).
Definition ready_fired (k : connection) : connection :=
  Connection (ended k) false (auth_pending k) (subscribe_pending k)
             (error_listeners k) (notice_listeners k) (end_listeners k).
Definition auth_answered (k : connection) : connection :=
  Connection (ended k) (ready_pending k) (pred (auth_pending k)) (subscribe_pending k)
             (error_listeners k) (notice_listeners k) (end_listeners k).
Definition subscribe_answered (k : connection) : connection :=
  Connection (ended k) (ready_pending k) (auth_pending k) (pred (subscribe_pending k))
             (error_listeners k) (notice_listeners k) (end_listeners k).

(** [_connect]: the constructor is given [this._onConnected] as the ready
    callback; [this._client] is assigned only when it returned. *)
Definition _connect : E unit :=
  n ← this constructions;
  update (with_constructions S);;
  if throws n
  then throw (TypeError "Connection")
  else
    c ← this (λ w, length (connections w));
    update (with_connections (λ l, l ++ [Connection false true 0 0 0 0 0]));;
    update (with_client (Some c));;
    on_client add_auth.

Definition _monitorESLClientConnectionErrors : E unit :=
  on_client add_error_listener.

(** [stop] is [async]: it runs to its end at once and what it throws
    rejects the promise it returns, so its caller gets no exception. *)
Definition stop : E unit :=
  c ← this _client;
  match c with
  | Some c =>
      update (with_connections (alter end_connection c));;
      update (with_client None)
  | None => done
  end.

Definition healthcheck : E unit :=
  o ← this _clientOptions;
  i ← this healthcheckerInterval;
  match i with
  | Some _ => done
  | None =>
      if negb (truthy (sipWssUrl o)) then done
      else
        t ← this next_interval;
        update (with_next_interval S);;
        update (with_healthcheckerInterval (Some t))
  end.

Definition start : E unit :=
  try_catch
    (_connect;;
     _monitorESLClientConnectionErrors;;
     healthcheck)
    (λ _, done).                                          (* Logger.error *)

Definition _onConnected : E unit :=
  r ← this _reconnectionRoutine;
  match r with
  | Some t =>
      update (with_live (filter (λ t', t' ≠ t)));;
      update (with_routine None)
  | None => done
  end;;
  on_client add_subscribe.

Definition _onDisconnection : E unit :=
  r ← this _reconnectionRoutine;
  match r with
  | Some _ => done
  | None =>
      notified ← this failureNotified;
      (if negb notified
       then
         o ← this _clientOptions;
         try_catch (call_hook MEDIA_SERVER_OFFLINE (connection_text MEDIA_SERVER_OFFLINE o))
                   (λ _, done);;
         update (with_failureNotified true)
       else done);;
      t ← this next_interval;
      update (with_next_interval S);;
      update (with_live (λ l, l ++ [t]));;
      update (with_routine (Some t))
  end.

Definition _onSubscribed : E unit :=
  on_client add_notice_listener;;
  on_client add_end_listener;;
  update (with_connected true);;
  notified ← this failureNotified;
  if (notified : bool)
  then
    o ← this _clientOptions;
    call_hook MEDIA_SERVER_ONLINE (connection_text MEDIA_SERVER_ONLINE o);;
    update (with_failureNotified false)
  else done.

(** A tick of the reconnection routine. *)
Definition reconnect : E unit :=
  try_catch
    (stop;;
     _connect;;
     _monitorESLClientConnectionErrors)
    (λ _, stop).

(** The [catch] block of a tick of the health check. *)
Definition probe_catch : E unit :=
  notified ← this healthcheckFailureNotified;
  if negb notified
  then
    o ← this _clientOptions;
    call_hook WS_CONN_UNHEALTHY (health_text WS_CONN_UNHEALTHY o);;
    update (with_healthcheckFailureNotified true)
  else done.

(** What a tick of the health check does once
    [this.probeConnectionHealth(sipWssUrl)] has settled. *)
Definition probe_settled (ok : bool) : E unit :=
  if ok
  then
    try_catch
      (notified ← this healthcheckFailureNotified;
       if (notified : bool)
       then
         update (with_healthcheckFailureNotified false);;
         o ← this _clientOptions;
         call_hook WS_CONN_HEALTHY (health_text WS_CONN_HEALTHY o)
       else done)
      (λ _, probe_catch)
  else probe_catch.

(** An event reaches the wrapper through the callbacks and listeners that
    were handed to the library, and through the intervals that are live. *)
Definition enabled (e : event) (w : wrapper) : bool :=
  match e with
  | Ready c =>
      match connections w !! c with Some k => ready_pending k | None => false end
  | AuthResult c _ =>
      match connections w !! c with Some k => Nat.ltb 0 (auth_pending k) | None => false end
  | Subscribed c =>
      match connections w !! c with
      | Some k => Nat.ltb 0 (subscribe_pending k)
      | None => false
      end
  | ErrorEvent c | DisconnectNotice c | End c =>
      bool_decide (is_Some (connections w !! c))
  | ReconnectionTick t => bool_decide (t ∈ live w)
  | HealthSettled _ => bool_decide (is_Some (healthcheckerInterval w))
  end.

Definition listeners_of (f : connection → nat) (c : nat) : E nat :=
  this (λ w, from_option f 0 (connections w !! c)).

Definition fire (e : event) : E unit :=
  match e with
  | Ready c =>
      update (with_connections (alter ready_fired c));;
      _onConnected
  | AuthResult c error =>
      update (with_connections (alter auth_answered c));;
      if error then _onDisconnection else done
  | ErrorEvent c =>
      n ← listeners_of error_listeners c;
      times n _onDisconnection
  | Subscribed c =>
      update (with_connections (alter subscribe_answered c));;
      _onSubscribed
  | DisconnectNotice c =>
      n ← listeners_of notice_listeners c;
      times n _onDisconnection
  | End c =>
      n ← listeners_of end_listeners c;
      times n _onDisconnection
  | ReconnectionTick _ => reconnect
  | HealthSettled ok => probe_settled ok
  end.

Definition step (e : event) (st : wrapper * monitor) : wrapper * monitor :=
  if enabled e st.1 then (fire e st).2 else st.

Definition run (es : list event) (st : wrapper * monitor) : wrapper * monitor :=
  fold_left (λ st e, step e st) es st.

(** [this.esl = new EslWrapper(ESL_PARAMS, this.emitHookWarning); this.esl.start()] *)
Definition monitorFreeSWITCH (params : jsval) (s : monitor)
    : completion unit * option (wrapper * monitor) :=
  match new_EslWrapper params with
  | Normal w => let '(c, st) := start (w, s) in (c, Some st)
  | Throw e => (Throw e, None)
  end.

End Wrapper.

(** *** What the theorems are stated with *)

(** A method keeps [I] when the wrapper it leaves behind, by returning or
    by throwing, satisfies [I] again. *)
Definition keeps {A} (I : wrapper → Prop) (m : E A) : Prop :=
  ∀ st, I st.1 → I (m st).2.1.

(** The calls of the hook with the alert [ev], and those that returned. *)
Definition calls (ev : hook_event) (l : list (hook_event * string * bool)) : nat :=
  length (List.filter (λ x, bool_decide (x.1.1 = ev)) l).

Definition sent (ev : hook_event) (l : list (hook_event * string * bool)) : nat :=
  length (List.filter (λ x, bool_decide (x.1.1 = ev) && x.2) l).

(** The live reconnection intervals are the one [this._reconnectionRoutine]
    holds. *)
Definition one_routine (w : wrapper) : Prop :=
  live w = option_list (_reconnectionRoutine w).

(** The OFFLINE calls are the ONLINE alerts that went out, and one more
    while [failureNotified] is set; the same for the UNHEALTHY alerts that
    went out and the HEALTHY calls, with [healthcheckFailureNotified]. *)
Definition in_step (w : wrapper) : Prop :=
  calls MEDIA_SERVER_OFFLINE (hook_log w)
  = sent MEDIA_SERVER_ONLINE (hook_log w) + (if failureNotified w then 1 else 0)
  ∧ sent WS_CONN_UNHEALTHY (hook_log w)
    = calls WS_CONN_HEALTHY (hook_log w) + (if healthcheckFailureNotified w then 1 else 0).

(** [a] and [b] take turns in every prefix of the log, [a] first. *)
Definition take_turns (a b : list (hook_event * string * bool) → nat)
    (l : list (hook_event * string * bool)) : Prop :=
  ∀ m, (b (take m l) ≤ a (take m l))%nat ∧ (a (take m l) ≤ S (b (take m l)))%nat.

Definition alternating (w : wrapper) : Prop :=
  in_step w
  ∧ take_turns (calls MEDIA_SERVER_OFFLINE) (sent MEDIA_SERVER_ONLINE) (hook_log w)
  ∧ take_turns (sent WS_CONN_UNHEALTHY) (calls WS_CONN_HEALTHY) (hook_log w).

(** No health check: no interval, the flag clear, no call about it. *)
Definition no_healthcheck (w : wrapper) : Prop :=
  healthcheckerInterval w = None ∧ healthcheckFailureNotified w = false
  ∧ calls WS_CONN_UNHEALTHY (hook_log w) = 0 ∧ calls WS_CONN_HEALTHY (hook_log w) = 0.

(** *** probeConnectionHealth

    The probe of the wrapper is the probe of the monitor with another
    [onOpen]: it resolves as soon as the socket opens.  [Probe.step] is
    followed with [Esl.onOpen] in the place of [Probe.onOpen]. *)

Definition FS_FAILOVER_TIMEOUT_MS : N := 15000%N.

Definition onOpen (p : Probe.probe) : Probe.probe :=
  Probe.settle Probe.Resolved (Probe.destroyWs (Probe.removeWsListeners p)).

Definition ws_step (e : Probe.ws_event) (p : Probe.probe) : Probe.probe :=
  match e with
  | Probe.WsOpen =>
      let p := Probe.handshake_done p in
      if Probe.open_listener p then onOpen p else p
  | Probe.WsMessage _ => p                      (* no ['message'] listener *)
  | Probe.WsClose =>
      let p := Probe.handshake_done p in
      if Probe.close_listener p then Probe.onClose p else p
  | Probe.WsError =>
      let p := Probe.handshake_done p in
      if Probe.error_listener p then Probe.onError p else p
  | Probe.Elapse ms =>
      let p := Probe.advance ms p in
      if negb (Probe.handshake_over p) && N.leb FS_FAILOVER_TIMEOUT_MS (Probe.clock p)
      then let p := Probe.handshake_done p in
           if Probe.error_listener p then Probe.onError p else p
      else p
  end.

Definition probeConnectionHealth (es : list Probe.ws_event) : Probe.probe :=
  fold_left (λ p e, ws_step e p) es Probe.start.

(** What holds of a probe of the wrapper at every moment: while it is
    pending the handshake is not over and the timer of the library has not
    run out. *)
Definition probe_ok (p : Probe.probe) : Prop :=
  match Probe.promise p with
  | Probe.Pending =>
      Probe.ws_null p = false ∧ Probe.close_calls p = 0
      ∧ Probe.open_listener p = true ∧ Probe.close_listener p = true
      ∧ Probe.error_listener p = true
      ∧ Probe.handshake_over p = false
      ∧ (Probe.clock p < FS_FAILOVER_TIMEOUT_MS)%N
  | _ =>
      Probe.ws_null p = true ∧ Probe.close_calls p = 1
      ∧ Probe.open_listener p = false ∧ Probe.close_listener p = false
      ∧ Probe.error_listener p = false
  end.


End Esl.

(** ** The runs the examples use *)

Module Scenario.

(** One Kurento host, two startup retries, the health probe enabled, an
    endpoint that accepts every request. *)
Definition sample : environment :=
  Environment "monitor-1" (Some 2) true [("ws://kms-1:8888/kurento", "10.0.0.5")] (λ _, true).

(** The same with an endpoint whose requests throw, for instance a
    [webhookURL] that starts with [http:]. *)
Definition sample_no_endpoint : environment :=
  Environment "monitor-1" (Some 2) true [("ws://kms-1:8888/kurento", "10.0.0.5")] (λ _, false).

(** The same host configured twice. *)
Definition sample_twice : environment :=
  Environment "monitor-1" (Some 2) true
    [("ws://kms-1:8888/kurento", "10.0.0.5"); ("ws://kms-1:8888/kurento", "10.0.0.5")]
    (λ _, true).

(** Two different hosts. *)
Definition sample_pair : environment :=
  Environment "monitor-1" (Some 2) true
    [("ws://kms-1:8888/kurento", "10.0.0.5"); ("ws://kms-2:8888/kurento", "10.0.0.6")]
    (λ _, true).

(** The host connects at startup with client 7, then its client emits
    ['disconnect']. *)
Definition connected : list event := [ ConnectCallback 0 (ConnOk 7 "0a1b2c3d4e5f") ].
Definition disconnected : list event := connected ++ [ Disconnect 7 0 ].

Definition the_host (c : nat) (notified : bool) (media : option nat) : host :=
  Host "0a1b2c3d4e5f" "ws://kms-1:8888/kurento" "10.0.0.5" c notified false (Some 0) media media.

(** Both configured entries connect, with two clients and two tokens. *)
Definition both_connect : list event :=
  [ ConnectCallback 0 (ConnOk 7 "0a1b2c3d4e5f"); ConnectCallback 1 (ConnOk 8 "v9u8t7s6r5q4") ].

(** The disconnected host, a tick of its interval, the failover timeout of that race. *)
Definition timed_out : list event := disconnected ++ [ IntervalTick 1; FailOver 1 ].

(** The host connects, its client reports a reconnection that is not the
    same session, a tick of the reconnection interval starts a connect and
    the connect succeeds: the alerts are OFFLINE then ONLINE, the registry
    holds the host once, and no reconnection interval is left. *)
Definition lost_and_found : list event :=
  connected ++ [ Reconnected 7 0 false; IntervalTick 1; ConnectCallback 1 (ConnOk 9 "") ].

(** The host of [sample_no_endpoint] after its first connect has failed and
    both halves of the race have fired: one retry counted, the flag clear,
    the hook called once, no alert, no timer. *)
Definition startup_stopped : monitor :=
  Monitor [] ∅ [] [Tentative "ws://kms-1:8888/kurento" "10.0.0.5" 1 false] ∅ []
    [Attempt (Startup 0 "ws://kms-1:8888/kurento" "10.0.0.5") true true] [] 0 1 [].

(** The host connects, then three probes in a row fail. *)
Definition failing_probes : list event := connected ++ repeat (ProbeSettled 0 false) 3.

(** [sample] with the health check disabled. *)
Definition sample_no_healthcheck : environment :=
  Environment "monitor-1" (Some 2) false [("ws://kms-1:8888/kurento", "10.0.0.5")] (λ _, true).

(** The host is lost and a tick of its reconnection interval has started a
    connect. *)
Definition reconnecting : list event :=
  connected ++ [ Reconnected 7 0 false; IntervalTick 1 ].

(** [Math.random()] answering 0.5 every time. *)
Definition one_half : nat → Token.unit_double := λ _, Token.UnitDouble 1 1.

(** The parameters of the wrapper as [server.js] defaults them, without
    and with a [sipWssUrl], and a library whose constructor never throws. *)
Definition esl_params : jsval :=
  VObject [ ("host", VString "127.0.0.1"); ("port", VString "8021");
            ("auth", VString "ClueCon"); ("sipWssUrl", VUndefined) ].

Definition esl_params_wss : jsval :=
  VObject [ ("host", VString "127.0.0.1"); ("port", VString "8021");
            ("auth", VString "ClueCon"); ("sipWssUrl", VString "wss://fs-1:7443") ].

Definition never_throws : nat → bool := λ _, false.

(** The wrappers that the constructor builds from these parameters. *)
Definition wrapper_plain : Esl.wrapper :=
  Esl.Wrapper
    (Esl.ClientOptions (VString "127.0.0.1") (VString "8021") (VString "ClueCon") VUndefined)
    false false None None None false [] 0 [] 0 [].

Definition wrapper_wss : Esl.wrapper :=
  Esl.Wrapper
    (Esl.ClientOptions (VString "127.0.0.1") (VString "8021") (VString "ClueCon")
       (VString "wss://fs-1:7443"))
    false false None None None false [] 0 [] 0 [].

(** The first connection becomes ready and is subscribed to, then ends. *)
Definition dropped : list Esl.event := [ Esl.Ready 0; Esl.Subscribed 0; Esl.End 0 ].

(** Then a tick of the reconnection routine opens a second connection,
    which becomes ready and is subscribed to. *)
Definition outage : list Esl.event :=
  dropped ++ [ Esl.ReconnectionTick 0; Esl.Ready 1; Esl.Subscribed 1 ].

(** The health check of the wrapper fails twice, then succeeds. *)
Definition unhealthy_then_healthy : list Esl.event :=
  [ Esl.HealthSettled false; Esl.HealthSettled false; Esl.HealthSettled true ].

End Scenario.

(** ** The [Monitor] class and its event loop *)

Section Monitor.

Variable env : environment.

(** The bindings of the module: its [const] and [let] declarations, the
    class, and the parameters of Node's module wrapper.  Only [HOST_NAME] is
    a string; the others are objects or functions.  No binding is called
    [ip]. *)
Definition module_scope : scope :=
  [ ("config", VObject []); ("mediaServerClient", VObject []);
    ("Logger", VObject []); ("http", VObject []); ("url", VObject []);
    ("os", VObject []); ("EslWrapper", VObject []); ("WebSocket", VObject []);
    ("KMS_ARRAY", VObject []); ("KMS_FAIL_AFTER", VObject []);
    ("NOF_STARTUP_CONNECTION_RETRIES", VObject []);
    ("HOST_RETRY_TIMER", VObject []); ("KMS_FAILOVER_TIMEOUT_MS", VObject []);
    ("WEBHOOK_URL", VObject []); ("HOST_NAME", VString (HOST_NAME env));
    ("CONNECTION_HEALTH_CHECK_INTERVAL", VObject []);
    ("ENABLE_HEALTHCHECK", VObject []); ("MONITOR_FS", VObject []);
    ("ESL_PARAMS", VObject []); ("instance", VObject []);
    ("Monitor", VObject []); ("monitor", VObject []);
    ("exports", VObject []); ("require", VObject []); ("module", VObject []);
    ("__filename", VObject []); ("__dirname", VObject []);
    ("console", VObject []); ("process", VObject []); ("global", VObject []) ].

Definition host_obj (h : host) : jsval :=
  VObject [ ("id", VString (id h)); ("url", VString (url h)); ("ip", VString (ip h)) ].

Definition tentative_obj (t : tentative) : jsval :=
  VObject [ ("url", VString (th_url t)); ("ip", VString (th_ip t)) ].

(** [`${HOST_NAME} triggered EVENT for Kurento ${u} ${i}`] *)
Definition hook_text (locals : scope) (ev : hook_event) (u i : expr) : completion string :=
  template (locals ++ module_scope)
    [ Sub (Id "HOST_NAME"); Str " triggered "; Str (event_name ev);
      Str " for Kurento "; Sub u; Str " "; Sub i ].

(** What the literal yields when its substitutions resolve to [u] and [i]. *)
Definition alert_text (ev : hook_event) (u i : string) : string :=
  (HOST_NAME env ++ " triggered " ++ event_name ev ++ " for Kurento " ++ u ++ " " ++ i ++ "")%string.

(** *** emitHookWarning

    Builds the request options, logs, and hands the body to [https.request].
    There is no [try] in it and no ['error'] listener on the request.  The
    event name next to the text records which literal the text came from. *)
Definition emitHookWarning (ev : hook_event) (text : string) : M unit := λ s,
  let n := hook_calls s in
  let s1 := with_hook_calls S s in
  if request env n
  then (Normal tt, with_outbox (λ o, o ++ [(ev, text)]) s1)
  else (Throw (RequestError n), s1).

(** *** Host objects *)

Definition read (r : nat) : M host := λ s,
  match heap s !! r with
  | Some h => (Normal h, s)
  | None => (Throw (TypeError "host"), s)      (* no such reference is ever built *)
  end.

Definition update_host (r : nat) (f : host → host) : M unit :=
  modify (with_heap (alter f r)).

Definition alloc (h : host) : M nat := λ s,
  (Normal (length (heap s)), with_heap (λ hp, hp ++ [h]) s).

Definition read_tentative (i : nat) : M tentative := λ s,
  match tentativeHosts s !! i with
  | Some t => (Normal t, s)
  | None => (Throw (TypeError "tentative"), s)
  end.

Definition update_tentative (i : nat) (f : tentative → tentative) : M unit :=
  modify (with_tentativeHosts (alter f i)).

(** *** removeHost, addHost, _hostStarted *)

(** [this.hosts = this.hosts.filter(host => host.id !== hostId)] *)
Definition removeHost (hostId : string) : M unit :=
  modify (λ s, with_hosts (filter (λ r, id <$> heap s !! r ≠ Some hostId)) s).

(** [host] is [None] for a falsy argument, which is only logged. *)
Definition addHost (host : option nat) : M unit :=
  match host with
  | Some r =>
      h ← read r;
      removeHost (id h);;
      modify (with_hosts (λ l, l ++ [r]))
  | None => skip
  end.

(** [this.hosts.some(h => h.url == url && h.ip == ip)] *)
Definition _hostStarted (u p : string) : M bool :=
  gets (λ s, existsb (λ r, match heap s !! r with
                           | Some h => String.eqb (url h) u && String.eqb (ip h) p
                           | None => false
                           end) (hosts s)).

(** *** _monitorConnectionState

    Subscribes to the two events of the client the host object holds at
    the time of the call. *)
Definition _monitorConnectionState (r : nat) : M unit :=
  try_catch
    (h ← read r;
     modify (with_listeners (λ l, l ++ [(client h, r)])))
    (λ _, skip).

(** *** _reconnectToServer

    [setInterval] is called only when [this._reconnectionRoutine[id]] is
    [null] or [undefined]; the interval's closure keeps [host] and [id].
    The lookup in the map is the lookup in the plain object for the ids the
    program creates, the tokens of [greatRandomToken(12)]: twelve characters
    of [0-9a-v], none of them a key of [Object.prototype]. *)
Definition _reconnectToServer (r : nat) : M unit :=
  h ← read r;
  routine ← gets _reconnectionRoutine;
  match routine !! id h with
  | None =>
      t ← gets next_timer;
      modify (with_next_timer S);;
      modify (with_intervals (<[t := (r, id h)]>));;
      modify (with_routine (<[id h := t]>))
  | Some _ => skip
  end.

(** *** _onDisconnection *)
Definition _onDisconnection (r : nat) : M unit :=
  try_catch
    (h ← read r;
     let locals := [ ("host", host_obj h); ("id", VString (id h));
                     ("url", VString (url h)); ("ip", VString (ip h)) ] in
     removeHost (id h);;
     h' ← read r;
     (if negb (failureNotified h')
      then
        try_catch
          (text ← lift (hook_text locals MEDIA_SERVER_OFFLINE (Id "url") (Id "ip"));
           emitHookWarning MEDIA_SERVER_OFFLINE text)
          (λ _, skip);;
        update_host r (set_failureNotified true)
      else skip);;
     update_host r reset_media;;
     _reconnectToServer r)
    (λ _, skip).

(** *** _onReconnection

    The function binds [sameSession] and [host] and nothing else: the [url]
    of its literal is the module's [url], and [ip] is bound nowhere. *)
Definition _onReconnection (sameSession : bool) (r : nat) : M unit :=
  if negb sameSession
  then _onDisconnection r
  else
    h ← read r;
    let locals := [ ("sameSession", VObject []); ("host", host_obj h) ] in
    if failureNotified h
    then
      text ← lift (hook_text locals MEDIA_SERVER_ONLINE (Id "url") (Id "ip"));
      emitHookWarning MEDIA_SERVER_ONLINE text;;
      update_host r (set_failureNotified false)
    else skip.

(** *** The reconnection interval *)

Definition new_attempt (k : attempt_kind) : M unit :=
  modify (with_attempts (λ l, l ++ [Attempt k false false])).

(** [clearInterval(this._reconnectionRoutine[id]); delete this._reconnectionRoutine[id]] *)
Definition clear_routine (hid : string) : M unit :=
  routine ← gets _reconnectionRoutine;
  match routine !! hid with
  | Some t => modify (with_intervals (delete t))
  | None => skip
  end;;
  modify (with_routine (delete hid)).

(** The [.then(h => ...)] of a tick's race, with its [.catch]; [h] is the
    [host] of the closure, since the connect promise resolves with it. *)
Definition reconnect_then (r : nat) (hid : string) : M unit :=
  try_catch
    (_monitorConnectionState r;;
     clear_routine hid;;
     addHost (Some r);;
     h ← read r;
     let locals := [ ("h", host_obj h); ("host", host_obj h);
                     ("id", VString hid); ("url", VString (url h)) ] in
     if failureNotified h
     then
       text ← lift (hook_text locals MEDIA_SERVER_ONLINE (Dot "h" "url") (Dot "h" "ip"));
       emitHookWarning MEDIA_SERVER_ONLINE text;;
       update_host r (set_failureNotified false)
     else skip)
    (λ _, skip).

(** *** healthcheck *)
Definition healthcheck (r : nat) : M unit :=
  h ← read r;
  match healthcheckerInterval h with
  | Some _ => skip
  | None =>
      t ← gets next_timer;
      modify (with_next_timer S);;
      update_host r (set_healthcheckerInterval t)
  end.

(** The [catch] block of a tick of the health interval. *)
Definition probe_catch (r : nat) : M unit :=
  h ← read r;
  let locals := [ ("host", host_obj h); ("url", VString (url h)); ("ip", VString (ip h)) ] in
  if negb (healthcheckFailureNotified h)
  then
    text ← lift (hook_text locals WS_CONN_UNHEALTHY (Dot "host" "url") (Dot "host" "ip"));
    emitHookWarning WS_CONN_UNHEALTHY text;;
    update_host r (set_healthcheckFailureNotified true)
  else skip.

(** What a tick does once [Monitor.probeConnectionHealth(url)] has settled:
    the rest of the [try] block when it resolved, the [catch] block when it
    rejected or when the [try] block threw. *)
Definition probe_settled (r : nat) (ok : bool) : M unit :=
  if ok
  then
    try_catch
      (h ← read r;
       let locals := [ ("host", host_obj h); ("url", VString (url h)); ("ip", VString (ip h)) ] in
       if healthcheckFailureNotified h
       then
         update_host r (set_healthcheckFailureNotified false);;
         text ← lift (hook_text locals WS_CONN_HEALTHY (Id "url") (Id "ip"));
         emitHookWarning WS_CONN_HEALTHY text
       else skip)
      (λ _, probe_catch r)
  else probe_catch r.

(** *** startHosts and tryToConnect *)

(** [retries < NOF_STARTUP_CONNECTION_RETRIES] *)
Definition below_bound (n : nat) : bool :=
  match NOF_STARTUP_CONNECTION_RETRIES env with
  | None => true
  | Some m => Nat.ltb n m
  end.

(** [tryToConnect(host)] up to its [await]: the guards, and the race that
    [Monitor.connectToHost(url, ip)] starts. *)
Definition tryToConnect (i : nat) : M unit :=
  t ← read_tentative i;
  if below_bound (retries t)
  then
    started ← _hostStarted (th_url t) (th_ip t);
    if negb started
    then new_attempt (Startup i (th_url t) (th_ip t))
    else skip
  else skip.                                             (* Logger.error *)

(** The [catch] block of [tryToConnect]. *)
Definition startup_catch (i : nat) : M unit :=
  t ← read_tentative i;
  update_tentative i (set_retries (S (retries t)));;
  t' ← read_tentative i;
  let locals := [ ("host", tentative_obj t'); ("url", VString (th_url t'));
                  ("ip", VString (th_ip t')) ] in
  (if negb (startupFailureNotified t')
   then
     text ← lift (hook_text locals STARTUP_CONNECT_FAILURE (Dot "host" "url") (Dot "host" "ip"));
     emitHookWarning STARTUP_CONNECT_FAILURE text;;
     update_tentative i (set_startupFailureNotified true)
   else skip);;
  modify (with_timeouts (λ l, l ++ [i])).

(** The rest of the [try] block once the race resolved with [newHost]. *)
Definition startup_try (i : nat) (newHost : host) : M unit :=
  try_catch
    (r ← alloc newHost;
     _monitorConnectionState r;;
     addHost (Some r);;
     t ← read_tentative i;
     let locals := [ ("host", tentative_obj t); ("url", VString (th_url t));
                     ("ip", VString (th_ip t)) ] in
     (if startupFailureNotified t
      then
        update_tentative i (set_startupFailureNotified false);;
        text ← lift (hook_text locals STARTUP_CONNECT_SUCCESS (Dot "host" "url") (Dot "host" "ip"));
        emitHookWarning STARTUP_CONNECT_SUCCESS text
      else skip);;
     if ENABLE_HEALTHCHECK env then healthcheck r else skip)
    (λ _, startup_catch i).

Fixpoint forEach (f : nat → M unit) (l : list nat) : M unit :=
  match l with
  | [] => skip
  | i :: l' => try_catch (f i) (λ _, skip);; forEach f l'
  end.

Definition constructed : monitor :=
  Monitor [] ∅ [] ((λ th, Tentative th.1 th.2 0 false) <$> KMS_ARRAY env)
          ∅ [] [] [] 0 0 [].

(** [new Monitor()] followed by [monitor.startHosts()]. *)
Definition startHosts : monitor :=
  (forEach tryToConnect (seq 0 (length (KMS_ARRAY env))) constructed).2.

Definition connect_done (a : attempt) : attempt :=
  Attempt (kind a) true (failOver_fired a).

Definition failOver_done (a : attempt) : attempt :=
  Attempt (kind a) (connect_fired a) true.

(** The callback handed to [mediaServerClient], then, when it is the first
    of the race to settle, the continuation of the race.  In the reconnection
    interval the callback assigns [host.client] before it resolves; at
    startup ([Monitor.connect]) it builds a fresh object, which nothing can
    reach once the race is lost. *)
Definition connect_callback (a : nat) (att : attempt) (res : conn_result) : M unit :=
  modify (with_attempts (alter connect_done a));;
  match kind att, res with
  | Reconnect r hid, ConnOk c _ =>
      update_host r (set_client c);;
      if race_settled att then skip else reconnect_then r hid
  | Reconnect r hid, ConnErr => skip                      (* .catch: Logger.info *)
  | Startup i u p, ConnOk c token =>
      if race_settled att then skip
      else startup_try i (Host token u p c false false None None None)
  | Startup i u p, ConnErr =>
      if race_settled att then skip else startup_catch i
  end.

(** [setTimeout(reject, KMS_FAILOVER_TIMEOUT_MS, 'connectionTimeout')] *)
Definition failOver (a : nat) (att : attempt) : M unit :=
  modify (with_attempts (alter failOver_done a));;
  if race_settled att then skip
  else match kind att with
       | Reconnect _ _ => skip                            (* .catch: Logger.info *)
       | Startup i _ _ => startup_catch i
       end.

Fixpoint remove_first (i : nat) (l : list nat) : list nat :=
  match l with
  | [] => []
  | j :: l' => if Nat.eqb i j then l' else j :: remove_first i l'
  end.

(** [greatRandomToken(12)]: twelve digits of base 32. *)
Definition base32_digit (c : ascii) : bool :=
  let n := nat_of_ascii c in
  (Nat.leb 48 n && Nat.leb n 57) || (Nat.leb 97 n && Nat.leb n 118).

Fixpoint all_chars (p : ascii → bool) (s : string) : bool :=
  match s with
  | EmptyString => true
  | String c s' => p c && all_chars p s'
  end.

Definition is_token (s : string) : bool :=
  Nat.eqb (String.length s) 12 && all_chars base32_digit s.

Definition enabled (e : event) (s : monitor) : bool :=
  match e with
  | ConnectCallback a res =>
      match attempts s !! a with
      | Some att =>
          negb (connect_fired att)
          && match kind att, res with
             | Startup _ _ _, ConnOk _ token => is_token token
             | _, _ => true
             end
      | None => false
      end
  | FailOver a =>
      match attempts s !! a with
      | Some att => negb (failOver_fired att)
      | None => false
      end
  | RetryTimeout i => bool_decide (i ∈ timeouts s)
  | Disconnect c r => bool_decide ((c, r) ∈ listeners s)
  | Reconnected c r _ => bool_decide ((c, r) ∈ listeners s)
  | IntervalTick t => bool_decide (is_Some (intervals s !! t))
  | ProbeSettled r _ =>
      match heap s !! r with
      | Some h => bool_decide (is_Some (healthcheckerInterval h))
      | None => false
      end
  end.

Definition fire (e : event) : M unit :=
  match e with
  | ConnectCallback a res =>
      atts ← gets attempts;
      match atts !! a with
      | Some att => connect_callback a att res
      | None => skip
      end
  | FailOver a =>
      atts ← gets attempts;
      match atts !! a with
      | Some att => failOver a att
      | None => skip
      end
  | RetryTimeout i =>
      modify (with_timeouts (remove_first i));;
      tryToConnect i
  | Disconnect _ r => _onDisconnection r
  | Reconnected _ r sameSession => _onReconnection sameSession r
  | IntervalTick t =>
      ivs ← gets intervals;
      match ivs !! t with
      | Some (r, hid) => new_attempt (Reconnect r hid)
      | None => skip
      end
  | ProbeSettled r ok => probe_settled r ok
  end.

(** An exception that escapes a turn is reported by Node and changes
    nothing more; an event that cannot occur in a state is no step. *)
Definition step (e : event) (s : monitor) : monitor :=
  if enabled e s then (fire e s).2 else s.

Definition run (es : list event) (s : monitor) : monitor :=
  fold_left (λ s e, step e s) es s.

(** Every event of [es] can occur when its turn comes. *)
Fixpoint feasible (es : list event) (s : monitor) : bool :=
  match es with
  | [] => true
  | e :: es' => enabled e s && feasible es' (step e s)
  end.

(** The alert requests issued between two states of a run. *)
Definition emitted (s s' : monitor) : list (hook_event * string) :=
  drop (length (outbox s)) (outbox s').

(** ** What the theorems are stated with *)

(** A handler preserves [I] when every state it can leave behind, by
    returning or by throwing, satisfies [I] again. *)
Definition preserves {A} (I : monitor → Prop) (m : M A) : Prop :=
  ∀ s, I s → I (m s).2.

(** ** The registry *)

(** The entries of [this.hosts]. *)
Definition registry (s : monitor) : list host :=
  omap (λ r, heap s !! r) (hosts s).

Definition id_at (s : monitor) (r : nat) : option string := id <$> heap s !! r.

(** Every element of [this.hosts] is a host object, and no two of them
    carry the same [id]. *)
Definition registry_ok (s : monitor) : Prop :=
  Forall (λ r, r < length (heap s)) (hosts s) ∧ NoDup (id_at s <$> hosts s).

(** ** Reconnection timers *)

(** Every live reconnection interval is the one recorded in
    [this._reconnectionRoutine] under the id it captured, and that id is the
    id of the host object it captured. *)
Definition timers_ok (s : monitor) : Prop :=
  ∀ t r hid, intervals s !! t = Some (r, hid) →
    _reconnectionRoutine s !! hid = Some t ∧ id_at s r = Some hid.

(** ** The [failureNotified] flag and the OFFLINE / ONLINE alerts *)

Definition flag (s : monitor) (r : nat) : bool :=
  match heap s !! r with
  | Some h => failureNotified h
  | None => false
  end.

Definition is_media (ev : hook_event) : bool :=
  match ev with
  | MEDIA_SERVER_OFFLINE | MEDIA_SERVER_ONLINE => true
  | _ => false
  end.

Definition media_of (out : list (hook_event * string)) : list hook_event :=
  List.filter is_media (fst <$> out).

(** The OFFLINE and ONLINE alerts issued between two states, in order. *)
Definition media_alerts (s s' : monitor) : list hook_event :=
  media_of (emitted s s').

(** [silent s s']: from [s] to [s'] no OFFLINE or ONLINE alert was issued
    and no [failureNotified] flag changed. *)
Definition silent (s s' : monitor) : Prop :=
  (∀ r, flag s' r = flag s r) ∧
  ∃ out, outbox s' = outbox s ++ out ∧ media_of out = [].

(** [edge r s s']: from [s] to [s'] only the flag of host [r] may have
    changed, and the OFFLINE and ONLINE alerts issued are none, or one
    OFFLINE as the flag went from false to true, or one ONLINE as it went
    from true to false.  Without an alert the flag is not cleared. *)
Definition edge (r : nat) (s s' : monitor) : Prop :=
  (∀ r', r' ≠ r → flag s' r' = flag s r') ∧
  ∃ out, outbox s' = outbox s ++ out ∧
    ( (media_of out = [] ∧ (flag s r = true → flag s' r = true))
    ∨ (media_of out = [MEDIA_SERVER_OFFLINE] ∧ flag s r = false ∧ flag s' r = true)
    ∨ (media_of out = [MEDIA_SERVER_ONLINE] ∧ flag s r = true ∧ flag s' r = false) ).

(** The host whose OFFLINE or ONLINE alert a turn can issue: the host a
    client event is delivered for, or the host of the reconnection attempt
    whose connect callback runs. *)
Definition media_subject (s : monitor) (e : event) : option nat :=
  match e with
  | Disconnect _ r => Some r
  | Reconnected _ r _ => Some r
  | ConnectCallback a _ =>
      match attempts s !! a with
      | Some att => match kind att with
                    | Reconnect r _ => Some r
                    | Startup _ _ _ => None
                    end
      | None => None
      end
  | _ => None
  end.

(** The OFFLINE and ONLINE alerts a run issues for host [r], in order. *)
Fixpoint history (r : nat) (es : list event) (s : monitor) : list hook_event :=
  match es with
  | [] => []
  | e :: es' =>
      (if bool_decide (media_subject s e = Some r)
       then media_alerts s (step e s) else [])
      ++ history r es' (step e s)
  end.

Definition starts_offline (l : list hook_event) : bool :=
  match l with
  | MEDIA_SERVER_OFFLINE :: _ => true
  | _ => false
  end.

(** No OFFLINE is directly followed by another OFFLINE. *)
Fixpoint no_repeated_offline (l : list hook_event) : bool :=
  match l with
  | [] => true
  | ev :: l' =>
      negb (starts_offline [ev] && starts_offline l') && no_repeated_offline l'
  end.

(** ** Startup against a connect collaborator that always fails *)

(** No connect succeeds: every connect callback carries an error. *)
Definition connect_fails (e : event) : bool :=
  match e with
  | ConnectCallback _ (ConnOk _ _) => false
  | _ => true
  end.

Definition the_alert (u p : string) : hook_event * string :=
  (STARTUP_CONNECT_FAILURE, alert_text STARTUP_CONNECT_FAILURE u p).

(** The states of the startup of the one host, by the number of races
    started and settled; the two flags of a settled race are any two of
    which one is set. *)
Inductive startup_phase (u p : string) : nat → monitor → Prop :=
| first_race :
    startup_phase u p 0
      (Monitor [] ∅ [] [Tentative u p 0 false] ∅ [] [Attempt (Startup 0 u p) false false] [] 0 0 [])
| first_failed cf ff :
    cf || ff = true →
    startup_phase u p 1
      (Monitor [] ∅ [] [Tentative u p 1 true] ∅ [0] [Attempt (Startup 0 u p) cf ff] [] 0 1 [the_alert u p])
| second_race cf ff :
    cf || ff = true →
    startup_phase u p 2
      (Monitor [] ∅ [] [Tentative u p 1 true] ∅ []
         [Attempt (Startup 0 u p) cf ff; Attempt (Startup 0 u p) false false] [] 0 1 [the_alert u p])
| second_failed cf ff cf' ff' :
    cf || ff = true → cf' || ff' = true →
    startup_phase u p 3
      (Monitor [] ∅ [] [Tentative u p 2 true] ∅ [0]
         [Attempt (Startup 0 u p) cf ff; Attempt (Startup 0 u p) cf' ff'] [] 0 1 [the_alert u p])
| given_up cf ff cf' ff' :
    cf || ff = true → cf' || ff' = true →
    startup_phase u p 4
      (Monitor [] ∅ [] [Tentative u p 2 true] ∅ []
         [Attempt (Startup 0 u p) cf ff; Attempt (Startup 0 u p) cf' ff'] [] 0 1 [the_alert u p]).

Definition retries_of (s : monitor) : option nat :=
  retries <$> tentativeHosts s !! 0.

Definition retries_in_phase (k : nat) : nat :=
  match k with
  | 0 => 0
  | 1 | 2 => 1
  | _ => 2
  end.

(** The run of the scenario: the connect fails, the retry timer fires, the
    connect fails again, the retry timer fires again. *)
Definition failing_run : list event :=
  [ ConnectCallback 0 ConnErr; RetryTimeout 0; ConnectCallback 1 ConnErr; RetryTimeout 0 ].

(** ** The pairs of the registry *)

(** The (url, address) of a host object. *)
Definition pair_of (h : host) : string * string := (url h, ip h).

(** The pair a race still holds: a startup race that is not settled holds
    the pair it connects to. *)
Definition claim_of_attempt (a : attempt) : option (string * string) :=
  match kind a with
  | Startup _ u p => if race_settled a then None else Some (u, p)
  | Reconnect _ _ => None
  end.

(** Who may still bring a pair into the registry, or has: the startup races
    that are not settled, the pending retries, the host objects. *)
Definition claims (s : monitor) : list (string * string) :=
  omap claim_of_attempt (attempts s)
  ++ omap (λ i, KMS_ARRAY env !! i) (timeouts s)
  ++ (pair_of <$> heap s).

(** The holders hold pairwise distinct pairs; the tentative hosts are the
    configured descriptors, and a startup race connects to the descriptor of
    its tentative host. *)
Definition descriptors_ok (s : monitor) : Prop :=
  NoDup (claims s)
  ∧ (λ t, (th_url t, th_ip t)) <$> tentativeHosts s = KMS_ARRAY env
  ∧ (∀ a i u p cf ff, attempts s !! a = Some (Attempt (Startup i u p) cf ff) →
       KMS_ARRAY env !! i = Some (u, p)).

(** [holding q s]: [s] would be fine with one more holder of [q]. *)
Definition holding (q : option (string * string)) (s : monitor) : Prop :=
  NoDup (option_list q ++ claims s)
  ∧ (λ t, (th_url t, th_ip t)) <$> tentativeHosts s = KMS_ARRAY env
  ∧ (∀ a i u p cf ff, attempts s !! a = Some (Attempt (Startup i u p) cf ff) →
       KMS_ARRAY env !! i = Some (u, p)).

(** A handler started in a state of [P] leaves a state of [Q], whether it
    returns or throws. *)
Definition hoare {A} (P Q : monitor → Prop) (m : M A) : Prop :=
  ∀ s, P s → Q (m s).2.

(** After the first [k] calls of the [forEach]: only races are there, for
    descriptors before the [k]-th. *)
Definition started_below (k : nat) (s : monitor) : Prop :=
  descriptors_ok s ∧ timeouts s = [] ∧ heap s = [] ∧
  ∀ q, q ∈ omap claim_of_attempt (attempts s) → ∃ j, j < k ∧ KMS_ARRAY env !! j = Some q.

(** ** The health interval *)

Definition is_ws (ev : hook_event) : bool :=
  match ev with
  | WS_CONN_UNHEALTHY | WS_CONN_HEALTHY => true
  | _ => false
  end.

(** No host object has a health interval, and no alert of the health check
    was issued. *)
Definition no_healthcheck (s : monitor) : Prop :=
  Forall (λ h, healthcheckerInterval h = None) (heap s)
  ∧ Forall (λ x, is_ws x.1 = false) (outbox s).

(** The host object [r] has the health interval [t]. *)
Definition health_interval (r t : nat) (s : monitor) : Prop :=
  ∃ h, heap s !! r = Some h ∧ healthcheckerInterval h = Some t.

(** ** The startup budget *)

Definition count {A} (p : A → bool) (l : list A) : nat := length (List.filter p l).

Definition startup_of (i : nat) (a : attempt) : bool :=
  match kind a with
  | Startup j _ _ => Nat.eqb j i
  | Reconnect _ _ => false
  end.

(** The connects [tryToConnect] has started for the [i]-th tentative host,
    those of them whose race is not settled, the retry timers pending for
    it, and its [retries]. *)
Definition connects (i : nat) (s : monitor) : nat :=
  count (startup_of i) (attempts s).

Definition racing (i : nat) (s : monitor) : nat :=
  count (λ a, startup_of i a && negb (race_settled a)) (attempts s).

Definition waiting (i : nat) (s : monitor) : nat :=
  count (Nat.eqb i) (timeouts s).

Definition retries_at (i : nat) (s : monitor) : nat :=
  default 0 ((retries <$> tentativeHosts s) !! i).

(** With [kurentoStartupRetries] = [n]: one race or one retry timer at a
    time, and each connect is paid for by a retry. *)
Definition within_budget (n i : nat) (s : monitor) : Prop :=
  (racing i s + waiting i s ≤ 1)%nat
  ∧ (racing i s = 1 → retries_at i s < n ∧ (connects i s ≤ S (retries_at i s))%nat)
  ∧ (waiting i s = 1 → (connects i s ≤ retries_at i s)%nat)
  ∧ (retries_at i s ≤ n)%nat ∧ (connects i s ≤ n)%nat.

(** The race of the [i]-th tentative host has just been settled. *)
Definition race_over (n i : nat) (s : monitor) : Prop :=
  racing i s = 0 ∧ waiting i s = 0
  ∧ retries_at i s < n ∧ (connects i s ≤ S (retries_at i s))%nat.

(** The retry timer of the [i]-th tentative host has just fired, or
    [startHosts] is about to call [tryToConnect] for it. *)
Definition retry_due (n i : nat) (s : monitor) : Prop :=
  racing i s = 0 ∧ waiting i s = 0
  ∧ (retries_at i s ≤ n)%nat ∧ (connects i s ≤ retries_at i s)%nat.

(** ** Alerts that come in pairs *)

(** Reading the alerts oldest first: an [o] opens, a [c] closes the oldest
    [o] that is still open, and a [c] with no open [o] is an error. *)
Definition scan (o c : hook_event * string) (acc : option nat)
    (x : hook_event * string) : option nat :=
  match acc with
  | None => None
  | Some k =>
      if bool_decide (x = o) then Some (S k)
      else if bool_decide (x = c)
           then match k with 0 => None | S k' => Some k' end
           else Some k
  end.

(** The number of [o] still open at the end, if no [c] came too early. *)
Definition unmatched (o c : hook_event * string) (l : list (hook_event * string)) : option nat :=
  fold_left (scan o c) l (Some 0).

Definition occurrences (x : hook_event * string) (l : list (hook_event * string)) : nat :=
  count (λ y, bool_decide (y = x)) l.

(** What an alert text says after [for Kurento]. *)
Definition subject (u p : string) : string := (u ++ " " ++ p ++ "")%string.

Definition about (u p u' p' : string) : bool :=
  bool_decide (subject u' p' = subject u p).

(** [o] and [c] are balanced against the flags that [pending] counts: no
    [c] came too early, and every flag that is set has its [o] still open. *)
Definition balanced (o c : hook_event * string) (pending : monitor → nat)
    (s : monitor) : Prop :=
  ∃ k, unmatched o c (outbox s) = Some k ∧ (pending s ≤ k)%nat.

(** The tentative hosts about [u p] whose [startupFailureNotified] is set,
    and the host objects about [u p] whose [healthcheckFailureNotified],
    or whose [failureNotified], is set. *)
Definition startup_flagged (u p : string) (s : monitor) : nat :=
  count (λ t, startupFailureNotified t && about u p (th_url t) (th_ip t)) (tentativeHosts s).

Definition unhealthy_flagged (u p : string) (s : monitor) : nat :=
  count (λ h, healthcheckFailureNotified h && about u p (url h) (ip h)) (heap s).

Definition offline_flagged (u p : string) (s : monitor) : nat :=
  count (λ h, failureNotified h && about u p (url h) (ip h)) (heap s).

(** ** The text of the alerts *)

(** The alert is the documented text, about a configured descriptor. *)
Definition documented (x : hook_event * string) : Prop :=
  ∃ u p, (u, p) ∈ KMS_ARRAY env ∧ x.2 = alert_text x.1 u p.

(** The pair a startup race connects to. *)
Definition startup_pair (a : attempt) : option (string * string) :=
  match kind a with
  | Startup _ u p => Some (u, p)
  | Reconnect _ _ => None
  end.

Definition configured (l : list (string * string)) : Prop :=
  Forall (λ q, q ∈ KMS_ARRAY env) l.

(** Every alert issued so far is documented, and every host object,
    tentative host and startup race is about a configured descriptor. *)
Definition well_formed (s : monitor) : Prop :=
  Forall documented (outbox s)
  ∧ configured (pair_of <$> heap s)
  ∧ configured ((λ t, (th_url t, th_ip t)) <$> tentativeHosts s)
  ∧ configured (omap startup_pair (attempts s)).

(** ** The wrapper beside the monitor *)

(** [monitor.startHosts()], then the wrapper [w] is started, then the events
    [es] of the wrapper run; its hook is [emitHookWarning]. *)
Definition wrapper_run (throws : nat → bool) (w : Esl.wrapper) (es : list Esl.event)
    : Esl.wrapper * monitor :=
  Esl.run (HOST_NAME env) emitHookWarning throws es (Esl.start throws (w, startHosts)).2.

(** * Theorems *)

(** ** Handlers and invariants *)

Lemma preserves_ret {A} I (a : A) : preserves I (mret a).
Proof. intros s H. exact H. Qed.

Lemma preserves_bind {A B} I (m : M A) (k : A → M B) :
  preserves I m → (∀ a, preserves I (k a)) → preserves I (m ≫= k).
Proof.
  intros Hm Hk s H. unfold mbind, M_bind.
  specialize (Hm s H). destruct (m s) as [[a|e] s']; simpl in *.
  - by apply Hk.
  - done.
Qed.

Lemma preserves_try_catch {A} I (m : M A) (k : exn → M A) :
  preserves I m → (∀ e, preserves I (k e)) → preserves I (try_catch m k).
Proof.
  intros Hm Hk s H. unfold try_catch.
  specialize (Hm s H). destruct (m s) as [[a|e] s']; simpl in *.
  - done.
  - by apply Hk.
Qed.

Lemma preserves_lift {A} I (c : completion A) : preserves I (lift c).
Proof. intros s H. exact H. Qed.

Lemma preserves_gets {A} I (f : monitor → A) : preserves I (gets f).
Proof. intros s H. exact H. Qed.

Lemma preserves_read I r : preserves I (read r).
Proof. intros s H. unfold read. by destruct (heap s !! r). Qed.

Lemma preserves_read_tentative I i : preserves I (read_tentative i).
Proof. intros s H. unfold read_tentative. by destruct (tentativeHosts s !! i). Qed.

Lemma preserves_modify I (f : monitor → monitor) :
  (∀ s, I s → I (f s)) → preserves I (modify f).
Proof. intros Hf s H. by apply Hf. Qed.

Lemma preserves_emitHookWarning I ev text :
  (∀ s g, I s → I (with_hook_calls g s)) →
  (∀ s f, I s → I (with_outbox f s)) →
  preserves I (emitHookWarning ev text).
Proof.
  intros Hc Ho s H. unfold emitHookWarning.
  destruct (request env (hook_calls s)); simpl; auto.
Qed.

Lemma preserves_alloc I h :
  (∀ s, I s → I (with_heap (λ hp, hp ++ [h]) s)) → preserves I (alloc h).
Proof. intros Hf s H. by apply Hf. Qed.

Ltac head_of t :=
  match t with
  | ?f _ => head_of f
  | _ => t
  end.

(** Walks through a handler: [prim] closes the goals about the operations
    an invariant depends on, the rest is structure; a handler that [prim]
    does not know is unfolded. *)
Ltac pres_with prim :=
  repeat first
    [ progress cbv zeta
    | solve [prim]
    | match goal with
      | |- preserves _ (_ ≫= _) => apply preserves_bind; [|intros ?]
      | |- preserves _ (try_catch _ _) => apply preserves_try_catch; [|intros ?]
      | |- preserves _ (mret _) => apply preserves_ret
      | |- preserves _ skip => apply preserves_ret
      | |- preserves _ (lift _) => apply preserves_lift
      | |- preserves _ (gets _) => apply preserves_gets
      | |- preserves _ (read _) => apply preserves_read
      | |- preserves _ (read_tentative _) => apply preserves_read_tentative
      | |- preserves _ (if ?b then _ else _) => destruct b
      | |- preserves _ (match ?x with _ => _ end) => destruct x
      | |- preserves _ ?m => let h := head_of m in progress unfold h
      end ].

(** ** The registry keeps its ids distinct *)

Lemma registry_ok_frame s s' :
  hosts s' = hosts s → heap s' = heap s → registry_ok s → registry_ok s'.
Proof.
  unfold registry_ok, id_at. intros -> ->. done.
Qed.

Lemma registry_ok_alter s r f :
  (∀ h, id (f h) = id h) →
  registry_ok s → registry_ok (with_heap (alter f r) s).
Proof.
  intros Hf [Hwf Hnd]. split; simpl.
  - by rewrite length_alter.
  - erewrite list_fmap_ext; [exact Hnd|]. intros _ r' _. unfold id_at. simpl.
    destruct (decide (r = r')) as [->|Hne].
    + rewrite list_lookup_alter_eq. destruct (heap s !! r'); simpl; by rewrite ?Hf.
    + by rewrite list_lookup_alter_ne.
Qed.

Lemma registry_ok_alloc s h :
  registry_ok s → registry_ok (with_heap (λ hp, hp ++ [h]) s).
Proof.
  intros [Hwf Hnd]. split; simpl.
  - rewrite length_app. eapply Forall_impl; [exact Hwf|]. simpl. lia.
  - erewrite list_fmap_ext; [exact Hnd|]. intros i r' Hi. unfold id_at. simpl.
    rewrite lookup_app_l; [done|].
    eapply Forall_forall in Hwf; [exact Hwf|]. by eapply list_elem_of_lookup_2.
Qed.

Lemma registry_ok_removeHost s hid :
  registry_ok s → registry_ok (removeHost hid s).2.
Proof.
  intros [Hwf Hnd]. split; simpl.
  - apply Forall_forall. intros r Hr. apply list_elem_of_filter in Hr as [_ Hr].
    by eapply Forall_forall in Hwf.
  - eapply sublist_NoDup; [exact Hnd|]. apply fmap_sublist, sublist_filter.
Qed.

Lemma registry_ok_addHost s host :
  registry_ok s → registry_ok (addHost host s).2.
Proof.
  intros Hok. destruct host as [r|]; [|exact Hok].
  unfold addHost, mbind, M_bind, read.
  destruct (heap s !! r) as [h|] eqn:Hr; [|exact Hok]. simpl.
  destruct (registry_ok_removeHost s (id h) Hok) as [Hwf Hnd]. simpl in *.
  split; simpl.
  - apply Forall_app. split; [exact Hwf|].
    apply Forall_singleton. by eapply lookup_lt_Some.
  - rewrite fmap_app. apply NoDup_app. split; [exact Hnd|]. split.
    + intros x Hx Hx'. apply list_elem_of_singleton in Hx'. subst x.
      apply list_elem_of_fmap in Hx as (r' & Heq & Hin).
      apply list_elem_of_filter in Hin as [Hne _].
      apply Hne. unfold id_at in Heq. simpl in Heq. rewrite <- Heq, Hr. done.
    + apply NoDup_singleton.
Qed.

Ltac registry_prim :=
  idtac;
  lazymatch goal with
  | |- preserves _ (modify _) =>
      apply preserves_modify; intros ? ?;
      eapply registry_ok_frame; [reflexivity | reflexivity | eassumption]
  | |- preserves _ (update_host _ _) =>
      unfold update_host; apply preserves_modify; intros ? ?;
      apply registry_ok_alter; [intros []; reflexivity | assumption]
  | |- preserves _ (alloc _) =>
      apply preserves_alloc; intros; by apply registry_ok_alloc
  | |- preserves _ (removeHost _) => intros ? ?; by apply registry_ok_removeHost
  | |- preserves _ (addHost _) => intros ? ?; by apply registry_ok_addHost
  | |- preserves _ (emitHookWarning _ _) =>
      apply preserves_emitHookWarning; intros;
      (eapply registry_ok_frame; [reflexivity | reflexivity | eassumption])
  end.

Lemma registry_ok_fire e : preserves registry_ok (fire e).
Proof. destruct e; pres_with registry_prim. Qed.

Lemma preserves_forEach I (f : nat → M unit) l :
  (∀ i, preserves I (f i)) → preserves I (forEach f l).
Proof.
  intros Hf. induction l as [|i l IH]; simpl.
  - apply preserves_ret.
  - apply preserves_bind; [|intros _; exact IH].
    apply preserves_try_catch; [apply Hf|]. intros _. apply preserves_ret.
Qed.

Lemma invariant_step I e s : preserves I (fire e) → I s → I (step e s).
Proof. intros Hf H. unfold step. destruct (enabled e s); [by apply Hf | exact H]. Qed.

Lemma invariant_run I es s : (∀ e, preserves I (fire e)) → I s → I (run es s).
Proof.
  intros Hf. revert s. induction es as [|e es IH]; intros s H; simpl.
  - exact H.
  - apply IH. by apply invariant_step.
Qed.

Lemma registry_ok_reachable es : registry_ok (run es startHosts).
Proof.
  apply invariant_run; [apply registry_ok_fire|].
  unfold startHosts. apply preserves_forEach.
  - intros i. pres_with registry_prim.
  - split; simpl; constructor.
Qed.

Lemma registry_ok_NoDup s : registry_ok s → NoDup (id <$> registry s).
Proof.
  unfold registry_ok, registry, id_at. intros [Hwf Hnd].
  induction (hosts s) as [|r l IH]; simpl; [constructor|].
  apply Forall_cons in Hwf as [Hr Hwf]. apply NoDup_cons in Hnd as [Hnotin Hnd].
  destruct (lookup_lt_is_Some_2 _ _ Hr) as [h Hh]. rewrite Hh in *. simpl in *.
  apply NoDup_cons. split; [|by apply IH].
  intros Hin. apply Hnotin.
  apply list_elem_of_fmap in Hin as (h' & Hid & Hin).
  apply list_elem_of_omap in Hin as (r' & Hr' & Hh').
  apply list_elem_of_fmap. exists r'. rewrite Hh'. simpl. by rewrite Hid.
Qed.

(** ** One reconnection interval per id *)

Lemma timers_ok_frame s s' :
  intervals s' = intervals s → _reconnectionRoutine s' = _reconnectionRoutine s →
  heap s' = heap s → timers_ok s → timers_ok s'.
Proof. unfold timers_ok, id_at. intros -> -> ->. done. Qed.

Lemma timers_ok_alter s r f :
  (∀ h, id (f h) = id h) → timers_ok s → timers_ok (with_heap (alter f r) s).
Proof.
  intros Hf H t r' hid Ht. destruct (H t r' hid Ht) as [H1 H2].
  split; [exact H1|]. unfold id_at in *. simpl.
  destruct (decide (r = r')) as [->|Hne].
  - rewrite list_lookup_alter_eq. destruct (heap s !! r'); simpl in *; by rewrite ?Hf.
  - by rewrite list_lookup_alter_ne.
Qed.

Lemma timers_ok_alloc s h :
  timers_ok s → timers_ok (with_heap (λ hp, hp ++ [h]) s).
Proof.
  intros H t r' hid Ht. destruct (H t r' hid Ht) as [H1 H2].
  split; [exact H1|]. unfold id_at in *. simpl.
  destruct (heap s !! r') as [h'|] eqn:Hr'; [|done].
  by rewrite (lookup_app_l_Some _ _ _ _ Hr').
Qed.

Lemma timers_ok__reconnectToServer r : preserves timers_ok (_reconnectToServer r).
Proof.
  intros s H. unfold _reconnectToServer, mbind, M_bind, read, gets, modify.
  destruct (heap s !! r) as [h|] eqn:Hr; [|exact H]. simpl.
  destruct (_reconnectionRoutine s !! id h) as [t0|] eqn:Hrt; [exact H|]. simpl.
  intros t r' hid. simpl. intros Ht.
  destruct (decide (next_timer s = t)) as [<-|Hne].
  - rewrite lookup_insert_eq in Ht. injection Ht as <- <-.
    rewrite lookup_insert_eq. split; [done|]. unfold id_at. simpl. by rewrite Hr.
  - rewrite lookup_insert_ne in Ht by done.
    destruct (H t r' hid Ht) as [H1 H2]. split; [|exact H2].
    rewrite lookup_insert_ne; [exact H1|]. intros <-. congruence.
Qed.

Lemma timers_ok_clear_routine hid : preserves timers_ok (clear_routine hid).
Proof.
  intros s H. unfold clear_routine, mbind, M_bind, gets, modify, skip, mret, M_ret.
  assert (Hgoal : ∀ s', heap s' = heap s → _reconnectionRoutine s' = _reconnectionRoutine s →
     (∀ t r' hid', intervals s' !! t = Some (r', hid') →
        intervals s !! t = Some (r', hid') ∧ _reconnectionRoutine s !! hid ≠ Some t) →
     timers_ok (with_routine (delete hid) s')).
  { intros s' Hh Hr Hi t r' hid' Ht. simpl in Ht.
    destruct (Hi t r' hid' Ht) as [Ht' Hne]. destruct (H t r' hid' Ht') as [H1 H2].
    split; [|unfold id_at in *; simpl; by rewrite Hh].
    simpl. rewrite Hr. rewrite lookup_delete_ne; [exact H1|]. intros <-. congruence. }
  destruct (_reconnectionRoutine s !! hid) as [t0|] eqn:Hrt; simpl; apply Hgoal; try done.
  intros t r' hid'. simpl. intros Ht.
  destruct (decide (t0 = t)) as [<-|Hne].
  - by rewrite lookup_delete_eq in Ht.
  - rewrite lookup_delete_ne in Ht by done. split; [done|]. congruence.
Qed.

Ltac timers_prim :=
  idtac;
  lazymatch goal with
  | |- preserves _ (modify _) =>
      apply preserves_modify; intros ? ?;
      eapply timers_ok_frame; [reflexivity | reflexivity | reflexivity | eassumption]
  | |- preserves _ (update_host _ _) =>
      unfold update_host; apply preserves_modify; intros ? ?;
      apply timers_ok_alter; [intros []; reflexivity | assumption]
  | |- preserves _ (alloc _) =>
      apply preserves_alloc; intros; by apply timers_ok_alloc
  | |- preserves _ (_reconnectToServer _) => apply timers_ok__reconnectToServer
  | |- preserves _ (clear_routine _) => apply timers_ok_clear_routine
  | |- preserves _ (emitHookWarning _ _) =>
      apply preserves_emitHookWarning; intros;
      (eapply timers_ok_frame; [reflexivity | reflexivity | reflexivity | eassumption])
  end.

Lemma timers_ok_fire e : preserves timers_ok (fire e).
Proof. destruct e; pres_with timers_prim. Qed.

Lemma timers_ok_reachable es : timers_ok (run es startHosts).
Proof.
  apply invariant_run; [apply timers_ok_fire|].
  unfold startHosts. apply preserves_forEach.
  - intros i. pres_with timers_prim.
  - intros t r hid Ht. simpl in Ht. by rewrite lookup_empty in Ht.
Qed.

(** ** Silent steps and flag edges *)

Lemma emitted_app s s' out : outbox s' = outbox s ++ out → emitted s s' = out.
Proof. unfold emitted. intros ->. by rewrite drop_app_length. Qed.

Lemma media_of_app o1 o2 : media_of (o1 ++ o2) = media_of o1 ++ media_of o2.
Proof. unfold media_of. by rewrite fmap_app, List.filter_app. Qed.

Lemma silent_refl s : silent s s.
Proof. split; [done|]. exists []. by rewrite app_nil_r. Qed.

Lemma silent_trans s1 s2 s3 : silent s1 s2 → silent s2 s3 → silent s1 s3.
Proof.
  intros [Hf1 (o1 & Ho1 & Hm1)] [Hf2 (o2 & Ho2 & Hm2)]. split.
  - intros r. by rewrite Hf2, Hf1.
  - exists (o1 ++ o2). split.
    + by rewrite Ho2, Ho1, app_assoc.
    + by rewrite media_of_app, Hm1, Hm2.
Qed.

Lemma silent_frame s0 s s' :
  outbox s' = outbox s → heap s' = heap s → silent s0 s → silent s0 s'.
Proof. unfold silent, flag. intros -> ->. done. Qed.

Lemma silent_alter s0 s r f :
  (∀ h, failureNotified (f h) = failureNotified h) →
  silent s0 s → silent s0 (with_heap (alter f r) s).
Proof.
  intros Hf H. apply (silent_trans _ s); [exact H|]. split.
  - intros r'. unfold flag. simpl.
    destruct (decide (r = r')) as [->|Hne].
    + rewrite list_lookup_alter_eq. destruct (heap s !! r'); simpl; by rewrite ?Hf.
    + by rewrite list_lookup_alter_ne.
  - exists []. by rewrite app_nil_r.
Qed.

Lemma silent_alloc s0 s h :
  failureNotified h = false →
  silent s0 s → silent s0 (with_heap (λ hp, hp ++ [h]) s).
Proof.
  intros Hf H. apply (silent_trans _ s); [exact H|]. split.
  - intros r. unfold flag. simpl.
    destruct (heap s !! r) as [h'|] eqn:Hr.
    + by rewrite (lookup_app_l_Some _ _ _ _ Hr).
    + apply lookup_ge_None in Hr. rewrite lookup_app_r by done.
      destruct (r - length (heap s)) as [|n]; simpl; [exact Hf|done].
  - exists []. by rewrite app_nil_r.
Qed.

Lemma silent_emitHookWarning s0 ev text :
  is_media ev = false → preserves (silent s0) (emitHookWarning ev text).
Proof.
  intros Hev s H. apply (silent_trans _ s); [exact H|].
  unfold emitHookWarning. destruct (request env (hook_calls s)); simpl.
  - split; [done|]. exists [(ev, text)]. split; [done|].
    unfold media_of. simpl. by rewrite Hev.
  - split; [done|]. exists []. by rewrite app_nil_r.
Qed.

Ltac silent_prim :=
  idtac;
  lazymatch goal with
  | |- preserves _ (modify _) =>
      apply preserves_modify; intros ? ?;
      eapply silent_frame; [reflexivity | reflexivity | eassumption]
  | |- preserves _ (update_host _ _) =>
      unfold update_host; apply preserves_modify; intros ? ?;
      apply silent_alter; [intros []; reflexivity | assumption]
  | |- preserves _ (alloc _) =>
      apply preserves_alloc; intros; apply silent_alloc; [reflexivity | assumption]
  | |- preserves _ (emitHookWarning _ _) =>
      apply silent_emitHookWarning; reflexivity
  end.

Lemma silent__reconnectToServer s0 r : preserves (silent s0) (_reconnectToServer r).
Proof. pres_with silent_prim. Qed.

Lemma silent_tryToConnect s0 i : preserves (silent s0) (tryToConnect i).
Proof. pres_with silent_prim. Qed.

Lemma silent_startup_catch s0 i : preserves (silent s0) (startup_catch i).
Proof. pres_with silent_prim. Qed.

Lemma silent_startup_try s0 i tok u p c :
  preserves (silent s0) (startup_try i (Host tok u p c false false None None None)).
Proof. pres_with silent_prim. Qed.

Lemma silent_failOver s0 a att : preserves (silent s0) (failOver a att).
Proof. pres_with silent_prim. Qed.

Lemma silent_probe_settled s0 r ok : preserves (silent s0) (probe_settled r ok).
Proof. pres_with silent_prim. Qed.

Lemma silent_prelude s0 r hid :
  preserves (silent s0) (_monitorConnectionState r ≫= λ _, clear_routine hid ≫= λ _, addHost (Some r)).
Proof. pres_with silent_prim. Qed.

Lemma silent_edge r s s' : silent s s' → edge r s s'.
Proof.
  intros [Hf (out & Ho & Hm)]. split; [by intros|].
  exists out. split; [done|]. left. split; [done|]. by rewrite Hf.
Qed.

Lemma edge_silent_r r s s1 s' : edge r s s1 → silent s1 s' → edge r s s'.
Proof.
  intros [Hf (o1 & Ho1 & Hc)] [Hf2 (o2 & Ho2 & Hm2)]. split.
  - intros r' Hne. rewrite Hf2. by apply Hf.
  - exists (o1 ++ o2). split; [by rewrite Ho2, Ho1, app_assoc|].
    rewrite media_of_app, Hm2, app_nil_r, Hf2. exact Hc.
Qed.

Lemma edge_silent_l r s s1 s' : silent s s1 → edge r s1 s' → edge r s s'.
Proof.
  intros [Hf1 (o1 & Ho1 & Hm1)] [Hf (o2 & Ho2 & Hc)]. split.
  - intros r' Hne. rewrite <- Hf1. by apply Hf.
  - exists (o1 ++ o2). split; [by rewrite Ho2, Ho1, app_assoc|].
    rewrite media_of_app, Hm1, <- Hf1. exact Hc.
Qed.

Lemma flag_alter s r f r' :
  flag (with_heap (alter f r) s) r' =
  if decide (r = r')
  then match heap s !! r with Some h => failureNotified (f h) | None => false end
  else flag s r'.
Proof.
  unfold flag. simpl. destruct (decide (r = r')) as [->|Hne].
  - rewrite list_lookup_alter_eq. by destruct (heap s !! r').
  - by rewrite list_lookup_alter_ne.
Qed.

Ltac run_handler :=
  repeat (progress unfold try_catch, mbind, M_bind, mret, M_ret, skip, lift,
            gets, modify, read, update_host, removeHost, emitHookWarning,
            _reconnectToServer);
  simpl.

Ltac edge_done Hr :=
  split;
  [ intros ? ?; unfold flag; simpl; rewrite ?list_lookup_alter_ne by done; done
  | eexists; split;
    [ simpl; first [reflexivity | symmetry; apply app_nil_r]
    | unfold flag; simpl; rewrite ?list_lookup_alter_eq, ?Hr; simpl; 
      try rewrite Hr; simpl; auto ] ].

Lemma edge__onDisconnection r s : edge r s (_onDisconnection r s).2.
Proof.
  unfold _onDisconnection. run_handler.
  destruct (heap s !! r) as [h|] eqn:Hr; simpl; [|apply silent_edge, silent_refl].
  rewrite Hr. simpl.
  destruct (failureNotified h) eqn:Hf; simpl.
  - rewrite list_lookup_alter_eq, Hr. simpl.
    destruct (_reconnectionRoutine s !! id h); simpl; edge_done Hr.
  - destruct (request env (hook_calls s)); simpl.
    all: rewrite !list_lookup_alter_eq, Hr; simpl.
    all: destruct (_reconnectionRoutine s !! id h); simpl.
    all: edge_done Hr.
Qed.

Lemma edge_bind_l r {A B} (m : M A) (k : A → M B) s :
  silent s (m s).2 → (∀ a s1, edge r s1 (k a s1).2) → edge r s ((m ≫= k) s).2.
Proof.
  intros Hm Hk. unfold mbind, M_bind.
  destruct (m s) as [[a|e] s1]; simpl in *.
  - eapply edge_silent_l; [exact Hm | apply Hk].
  - by apply silent_edge.
Qed.

Lemma edge_try_skip r (m : M unit) s :
  edge r s (m s).2 → edge r s (try_catch m (λ _, skip) s).2.
Proof. unfold try_catch. by destruct (m s) as [[a|e] s1]. Qed.

Lemma silent_of s {A} (m : M A) : preserves (silent s) m → silent s (m s).2.
Proof. intros H. apply H, silent_refl. Qed.

(** [_onReconnection] with the same session: when the flag is set the
    literal throws before anything is sent or cleared. *)
Lemma edge__onReconnection b r s : edge r s (_onReconnection b r s).2.
Proof.
  unfold _onReconnection. destruct b; simpl; [|apply edge__onDisconnection].
  run_handler. destruct (heap s !! r) as [h|] eqn:Hr; simpl.
  - destruct (failureNotified h); simpl; apply silent_edge, silent_refl.
  - apply silent_edge, silent_refl.
Qed.

Lemma edge_online_core r hid s :
  edge r s ((h ← read r;
             let locals := [ ("h", host_obj h); ("host", host_obj h);
                             ("id", VString hid); ("url", VString (url h)) ] in
             if failureNotified h
             then
               text ← lift (hook_text locals MEDIA_SERVER_ONLINE (Dot "h" "url") (Dot "h" "ip"));
               emitHookWarning MEDIA_SERVER_ONLINE text;;
               update_host r (set_failureNotified false)
             else skip) s).2.
Proof.
  run_handler. destruct (heap s !! r) as [h|] eqn:Hr; simpl;
    [|apply silent_edge, silent_refl].
  destruct (failureNotified h) eqn:Hf; simpl; [|apply silent_edge, silent_refl].
  destruct (request env (hook_calls s)); simpl; edge_done Hr.
Qed.

Lemma edge_reconnect_then r hid s : edge r s (reconnect_then r hid s).2.
Proof.
  unfold reconnect_then. apply edge_try_skip.
  apply edge_bind_l; [apply silent_of; pres_with silent_prim|]. intros _ s1.
  apply edge_bind_l; [apply silent_of; pres_with silent_prim|]. intros _ s2.
  apply edge_bind_l; [apply silent_of; pres_with silent_prim|]. intros _ s3.
  apply edge_online_core.
Qed.

Lemma edge_connect_callback a r hid cf ff res s :
  edge r s (connect_callback a (Attempt (Reconnect r hid) cf ff) res s).2.
Proof.
  unfold connect_callback.
  apply edge_bind_l; [apply silent_of; pres_with silent_prim|]. intros _ s1.
  simpl. destruct res as [|c token].
  - apply silent_edge, silent_refl.
  - apply edge_bind_l; [apply silent_of; pres_with silent_prim|]. intros _ s2.
    destruct (race_settled _).
    + apply silent_edge, silent_refl.
    + apply edge_reconnect_then.
Qed.

Lemma silent_connect_callback a i u p cf ff res s :
  silent s (connect_callback a (Attempt (Startup i u p) cf ff) res s).2.
Proof. apply silent_of. unfold connect_callback. simpl. pres_with silent_prim. Qed.

(** ** What one turn does to the flags and the alerts *)

Lemma turn_edge e s :
  match media_subject s e with
  | Some r => edge r s (step e s)
  | None => silent s (step e s)
  end.
Proof.
  unfold step.
  destruct e as [a res|a|i|c r|c r b|t|r ok]; simpl.
  - destruct (attempts s !! a) as [[k cf ff]|] eqn:Ha; simpl; [|apply silent_refl].
    destruct k as [i u p|r hid]; simpl.
    + destruct (negb cf && _); [|apply silent_refl].
      unfold mbind, M_bind, gets. simpl. rewrite Ha. apply silent_connect_callback.
    + destruct (negb cf && true); [|apply silent_edge, silent_refl].
      unfold mbind, M_bind, gets. simpl. rewrite Ha. apply edge_connect_callback.
  - destruct (attempts s !! a) as [att|] eqn:Ha; simpl; [|apply silent_refl].
    destruct (negb _); [|apply silent_refl].
    apply silent_of. pres_with silent_prim.
  - destruct (bool_decide _); [|apply silent_refl].
    apply silent_of. pres_with silent_prim.
  - destruct (bool_decide _); [|apply silent_edge, silent_refl].
    apply edge__onDisconnection.
  - destruct (bool_decide _); [|apply silent_edge, silent_refl].
    apply edge__onReconnection.
  - destruct (bool_decide _); [|apply silent_refl].
    apply silent_of. pres_with silent_prim.
  - destruct (heap s !! r) as [h|]; [|apply silent_refl].
    destruct (bool_decide _); [|apply silent_refl].
    apply silent_of. pres_with silent_prim.
Qed.

Lemma turn_media e s :
  match media_subject s e with
  | Some r =>
      (∀ r', r' ≠ r → flag (step e s) r' = flag s r') ∧
      ( (media_alerts s (step e s) = [] ∧ (flag s r = true → flag (step e s) r = true))
      ∨ (media_alerts s (step e s) = [MEDIA_SERVER_OFFLINE]
         ∧ flag s r = false ∧ flag (step e s) r = true)
      ∨ (media_alerts s (step e s) = [MEDIA_SERVER_ONLINE]
         ∧ flag s r = true ∧ flag (step e s) r = false) )
  | None => media_alerts s (step e s) = [] ∧ ∀ r', flag (step e s) r' = flag s r'
  end.
Proof.
  pose proof (turn_edge e s) as H. unfold media_alerts.
  destruct (media_subject s e) as [r|].
  - destruct H as [Hf (out & Ho & Hc)]. split; [exact Hf|].
    by rewrite (emitted_app _ _ _ Ho).
  - destruct H as [Hf (out & Ho & Hm)]. by rewrite (emitted_app _ _ _ Ho).
Qed.

Lemma history_alternates r es s :
  no_repeated_offline (history r es s) = true
  ∧ (starts_offline (history r es s) = true → flag s r = false).
Proof.
  revert s. induction es as [|e es IH]; intros s; simpl; [done|].
  destruct (IH (step e s)) as [IH1 IH2].
  pose proof (turn_media e s) as H.
  destruct (media_subject s e) as [r'|].
  - destruct H as [Hf Hc]. case_bool_decide as Hr.
    + injection Hr as ->.
      destruct Hc as [[-> Hc]|[[-> [Hc1 Hc2]]|[-> [Hc1 Hc2]]]]; simpl.
      * split; [exact IH1|]. intros Hs. specialize (IH2 Hs).
        destruct (flag s r); [|done]. by rewrite Hc in IH2.
      * split; [|done]. rewrite IH1.
        destruct (starts_offline (history r es (step e s))); [|done].
        rewrite IH2 in Hc2; done.
      * split; [|done]. by rewrite IH1.
    + simpl. split; [exact IH1|]. intros Hs. rewrite <- Hf; [by apply IH2|].
      intros ->. done.
  - destruct H as [_ Hf]. rewrite bool_decide_eq_false_2 by done. simpl.
    split; [exact IH1|]. intros Hs. rewrite <- Hf. by apply IH2.
Qed.

(** ** The claims about every run *)

(** C1.  In every turn, from every state: a turn that is not about a host
    issues no OFFLINE or ONLINE alert and changes no [failureNotified] flag;
    a turn about host [r] changes no other host's flag and issues either no
    such alert (and then does not clear the flag), or exactly one OFFLINE
    with the flag of [r] going from false to true, or exactly one ONLINE with
    the flag going from true to false.  So no alert is issued without its
    transition, and in every run, from every state, the alerts issued for a
    host never show two OFFLINE in a row without an ONLINE between them. *)
Theorem offline_online_only_on_flag_edges (e : event) (s : monitor) (r : nat) (es : list event) :
  match media_subject s e with
  | Some r =>
      (∀ r', r' ≠ r → flag (step e s) r' = flag s r') ∧
      ( (media_alerts s (step e s) = [] ∧ (flag s r = true → flag (step e s) r = true))
      ∨ (media_alerts s (step e s) = [MEDIA_SERVER_OFFLINE]
         ∧ flag s r = false ∧ flag (step e s) r = true)
      ∨ (media_alerts s (step e s) = [MEDIA_SERVER_ONLINE]
         ∧ flag s r = true ∧ flag (step e s) r = false) )
  | None => media_alerts s (step e s) = [] ∧ ∀ r', flag (step e s) r' = flag s r'
  end
  ∧ no_repeated_offline (history r es s) = true.
Proof.
  split; [apply turn_media | apply history_alternates].
Qed.

(** C2.  In every state a run can reach, two live reconnection intervals
    that captured the same host id are the same interval, the id an interval
    captured is the id of the host object it captured, and calling
    [_reconnectToServer] for a host whose id already has a live interval
    returns without changing anything. *)
Theorem one_reconnection_timer_per_host_id (es : list event) :
  (∀ t1 t2 r1 r2 hid,
     intervals (run es startHosts) !! t1 = Some (r1, hid) →
     intervals (run es startHosts) !! t2 = Some (r2, hid) →
     t1 = t2)
  ∧ (∀ t r hid,
       intervals (run es startHosts) !! t = Some (r, hid) →
       id <$> heap (run es startHosts) !! r = Some hid)
  ∧ (∀ r h t r',
       heap (run es startHosts) !! r = Some h →
       intervals (run es startHosts) !! t = Some (r', id h) →
       _reconnectToServer r (run es startHosts) = (Normal tt, run es startHosts)).
Proof.
  pose proof (timers_ok_reachable es) as H.
  split; [|split].
  - intros t1 t2 r1 r2 hid H1 H2.
    destruct (H _ _ _ H1) as [E1 _]. destruct (H _ _ _ H2) as [E2 _]. congruence.
  - intros t r hid Ht. by destruct (H _ _ _ Ht).
  - intros r h t r' Hr Ht. destruct (H _ _ _ Ht) as [E _].
    unfold _reconnectToServer, mbind, M_bind, read, gets. rewrite Hr. simpl.
    by rewrite E.
Qed.

(** C10.  In every state a run can reach, no two entries of [this.hosts]
    carry the same id.  [addHost] keeps it so: it leaves the entries whose
    id differs from the incoming host's, in order, followed by the incoming
    host; [removeHost] keeps it so, and only removes: what it leaves is a
    sublist of what was there, with no entry of the removed id. *)
Theorem registry_ids_unique (es : list event) :
  NoDup (id <$> registry (run es startHosts))
  ∧ (∀ s r h,
       registry_ok s → heap s !! r = Some h →
       registry_ok (addHost (Some r) s).2
       ∧ hosts (addHost (Some r) s).2
         = filter (λ r', id <$> heap s !! r' ≠ Some (id h)) (hosts s) ++ [r])
  ∧ (∀ s hostId,
       registry_ok s →
       registry_ok (removeHost hostId s).2
       ∧ hosts (removeHost hostId s).2 `sublist_of` hosts s
       ∧ hostId ∉ id <$> registry (removeHost hostId s).2).
Proof.
  split; [|split].
  - apply registry_ok_NoDup, registry_ok_reachable.
  - intros s r h Hok Hr. split; [by apply registry_ok_addHost|].
    unfold addHost, mbind, M_bind, read. rewrite Hr. reflexivity.
  - intros s hostId Hok. split; [by apply registry_ok_removeHost|]. split.
    + apply sublist_filter.
    + unfold registry. simpl. intros Hin.
      apply list_elem_of_fmap in Hin as (h & -> & Hin).
      apply list_elem_of_omap in Hin as (r & Hin & Hr).
      apply list_elem_of_filter in Hin as [Hne _].
      apply Hne. by rewrite Hr.
Qed.

(** ** The health probe *)

Lemma probe_failure_first r h s :
  request env (hook_calls s) = true →
  heap s !! r = Some h →
  is_Some (healthcheckerInterval h) →
  healthcheckFailureNotified h = false →
  heap (step (ProbeSettled r false) s) !! r = Some (set_healthcheckFailureNotified true h)
  ∧ outbox (step (ProbeSettled r false) s)
    = outbox s ++ [(WS_CONN_UNHEALTHY, alert_text WS_CONN_UNHEALTHY (url h) (ip h))].
Proof.
  intros Hq Hr [t Ht] Hf. unfold step. simpl. rewrite Hr, Ht. simpl.
  unfold probe_catch. run_handler. rewrite Hr. simpl. rewrite Hf. simpl.
  rewrite Hq. simpl. rewrite list_lookup_alter_eq, Hr. done.
Qed.

Lemma probe_failure_again r h s :
  heap s !! r = Some h →
  healthcheckFailureNotified h = true →
  step (ProbeSettled r false) s = s.
Proof.
  intros Hr Hf. unfold step. simpl. rewrite Hr.
  destruct (bool_decide _); [|done].
  unfold probe_catch. run_handler. rewrite Hr. simpl. by rewrite Hf.
Qed.

Lemma probe_success_after r h s :
  request env (hook_calls s) = true →
  heap s !! r = Some h →
  is_Some (healthcheckerInterval h) →
  healthcheckFailureNotified h = true →
  heap (step (ProbeSettled r true) s) !! r = Some (set_healthcheckFailureNotified false h)
  ∧ outbox (step (ProbeSettled r true) s)
    = outbox s ++ [(WS_CONN_HEALTHY, alert_text WS_CONN_HEALTHY (url h) (ip h))].
Proof.
  intros Hq Hr [t Ht] Hf. unfold step. simpl. rewrite Hr, Ht. simpl.
  run_handler. rewrite Hr. simpl. rewrite Hf. simpl.
  rewrite Hq. simpl. rewrite list_lookup_alter_eq, Hr. done.
Qed.

Lemma probe_success_clear r h s :
  heap s !! r = Some h →
  healthcheckFailureNotified h = false →
  step (ProbeSettled r true) s = s.
Proof.
  intros Hr Hf. unfold step. simpl. rewrite Hr.
  destruct (bool_decide _); [|done].
  run_handler. rewrite Hr. simpl. by rewrite Hf.
Qed.

Lemma run_app es1 es2 s : run (es1 ++ es2) s = run es2 (run es1 s).
Proof. unfold run. apply fold_left_app. Qed.

Lemma probe_failures_again r h s n :
  heap s !! r = Some h →
  healthcheckFailureNotified h = true →
  run (repeat (ProbeSettled r false) n) s = s.
Proof.
  intros Hr Hf. induction n as [|n IH]; simpl; [done|].
  by rewrite (probe_failure_again r h s).
Qed.

(** For a host whose health interval runs and whose
    [healthcheckFailureNotified] is clear, with an endpoint that accepts the
    requests: the first failed probe issues one WS_CONN_UNHEALTHY, a run of
    [n + 1] failed probes issues that one alert and nothing more, the first
    probe that succeeds after them issues exactly one WS_CONN_HEALTHY, and a
    probe that succeeds while the flag is clear issues nothing. *)
Theorem probe_alerts_once_per_run (r : nat) (h : host) (s : monitor) (n : nat) :
  (∀ k, request env k = true) →
  heap s !! r = Some h →
  is_Some (healthcheckerInterval h) →
  healthcheckFailureNotified h = false →
  emitted s (run [ProbeSettled r false] s)
    = [(WS_CONN_UNHEALTHY, alert_text WS_CONN_UNHEALTHY (url h) (ip h))]
  ∧ emitted s (run (repeat (ProbeSettled r false) (S n)) s)
    = [(WS_CONN_UNHEALTHY, alert_text WS_CONN_UNHEALTHY (url h) (ip h))]
  ∧ emitted (run (repeat (ProbeSettled r false) (S n)) s)
            (run (repeat (ProbeSettled r false) (S n) ++ [ProbeSettled r true]) s)
    = [(WS_CONN_HEALTHY, alert_text WS_CONN_HEALTHY (url h) (ip h))]
  ∧ emitted s (run [ProbeSettled r true] s) = [].
Proof.
  intros Hq Hr Hi Hf.
  destruct (probe_failure_first r h s (Hq _) Hr Hi Hf) as [Hr1 Ho1].
  assert (Hn : run (repeat (ProbeSettled r false) (S n)) s = step (ProbeSettled r false) s).
  { simpl. by apply (probe_failures_again r _ _ n Hr1). }
  split; [|split; [|split]].
  - simpl. by apply emitted_app.
  - rewrite Hn. by apply emitted_app.
  - rewrite run_app, Hn. simpl.
    destruct (probe_success_after r _ _ (Hq _) Hr1 Hi eq_refl) as [_ Ho2].
    by apply emitted_app.
  - simpl. rewrite (probe_success_clear r h s Hr Hf).
    apply emitted_app. by rewrite app_nil_r.
Qed.

(** ** What the handlers do with an exception, and with a late result *)

(** [_onReconnection] with the same session and the flag set: the literal
    throws on [ip], for every host and in every state, and the state is as
    it was. *)
Lemma _onReconnection_same_session r h s :
  heap s !! r = Some h → failureNotified h = true →
  _onReconnection true r s = (Throw (ReferenceError "ip"), s).
Proof.
  intros Hr Hf. unfold _onReconnection. run_handler. rewrite Hr. simpl. by rewrite Hf.
Qed.

(** With the flag clear it returns and leaves the state as it was. *)
Lemma _onReconnection_same_session_clear r h s :
  heap s !! r = Some h → failureNotified h = false →
  _onReconnection true r s = (Normal tt, s).
Proof.
  intros Hr Hf. unfold _onReconnection. run_handler. rewrite Hr. simpl. by rewrite Hf.
Qed.

Lemma emitHookWarning_throws ev text s :
  request env (hook_calls s) = false →
  emitHookWarning ev text s = (Throw (RequestError (hook_calls s)), with_hook_calls S s).
Proof. intros Hq. unfold emitHookWarning. by rewrite Hq. Qed.

(** [_onDisconnection] is the one caller that guards the call: it returns
    whatever the endpoint does. *)
Lemma _onDisconnection_returns r s : (_onDisconnection r s).1 = Normal tt.
Proof.
  unfold _onDisconnection, try_catch.
  match goal with |- context [match ?m s with _ => _ end] => destruct (m s) as [[[]|e] s'] end;
    reflexivity.
Qed.

(** A failover timeout that fires after its race was settled only records
    that it fired. *)
Lemma late_failOver_inert a att s :
  attempts s !! a = Some att → race_settled att = true →
  fire (FailOver a) s = (Normal tt, with_attempts (alter failOver_done a) s).
Proof.
  intros Ha Hs. unfold fire, failOver. run_handler. rewrite Ha. simpl. by rewrite Hs.
Qed.

(** So does a startup connect that completes after its race was settled,
    with a client or with an error. *)
Lemma late_startup_connect_inert a i u p cf ff res s :
  attempts s !! a = Some (Attempt (Startup i u p) cf ff) → cf || ff = true →
  fire (ConnectCallback a res) s = (Normal tt, with_attempts (alter connect_done a) s).
Proof.
  intros Ha Hs. unfold fire, connect_callback. run_handler. rewrite Ha. simpl.
  unfold race_settled. simpl. rewrite Hs. by destruct res.
Qed.

(** A reconnection connect that completes with a client after its race was
    settled still assigns [host.client]. *)
Lemma late_reconnect_connect_assigns a r hid cf ff c token s :
  attempts s !! a = Some (Attempt (Reconnect r hid) cf ff) → cf || ff = true →
  fire (ConnectCallback a (ConnOk c token)) s
  = (Normal tt, with_heap (alter (set_client c) r) (with_attempts (alter connect_done a) s)).
Proof.
  intros Ha Hs. unfold fire, connect_callback. run_handler. rewrite Ha. simpl.
  unfold race_settled. simpl. by rewrite Hs.
Qed.

(** A startup connect that succeeds while [startupFailureNotified] is clear
    issues no alert: without an earlier STARTUP_CONNECT_FAILURE there is no
    STARTUP_CONNECT_SUCCESS. *)
Lemma first_success_is_silent a i u p c token t s :
  attempts s !! a = Some (Attempt (Startup i u p) false false) →
  tentativeHosts s !! i = Some t →
  startupFailureNotified t = false →
  emitted s (step (ConnectCallback a (ConnOk c token)) s) = [].
Proof.
  intros Ha Ht Hf. apply emitted_app. rewrite app_nil_r.
  unfold step. destruct (enabled _ s); [|done].
  unfold fire, connect_callback, startup_try, _monitorConnectionState, addHost,
    alloc, healthcheck.
  run_handler. rewrite Ha. simpl.
  rewrite lookup_app_r by done. rewrite Nat.sub_diag. simpl.
  rewrite lookup_app_r by done. rewrite Nat.sub_diag. simpl.
  unfold read_tentative. simpl. rewrite Ht. simpl. rewrite Hf. simpl.
  destruct (ENABLE_HEALTHCHECK env); simpl; [|done].
  rewrite lookup_app_r by done. rewrite Nat.sub_diag. simpl. done.
Qed.

(** ** The registry holds one entry per configured pair *)

Section DistinctDescriptors.

Hypothesis descriptors_distinct : NoDup (KMS_ARRAY env).
Hypothesis endpoint_accepts : ∀ k, request env k = true.

Lemma descriptors_ok_frame s s' :
  attempts s' = attempts s → timeouts s' = timeouts s → heap s' = heap s →
  tentativeHosts s' = tentativeHosts s →
  descriptors_ok s → descriptors_ok s'.
Proof. unfold descriptors_ok, claims. intros -> -> -> ->. done. Qed.

Lemma descriptors_ok_alter s r f :
  (∀ h, pair_of (f h) = pair_of h) →
  descriptors_ok s → descriptors_ok (with_heap (alter f r) s).
Proof.
  intros Hf (Hnd & Ht & Ha). split; [|done].
  unfold claims in *. simpl.
  replace (pair_of <$> alter f r (heap s)) with (pair_of <$> heap s); [done|].
  apply list_eq. intros j. rewrite !list_lookup_fmap.
  destruct (decide (r = j)) as [->|Hne].
  - rewrite list_lookup_alter_eq. destruct (heap s !! j); simpl; by rewrite ?Hf.
  - by rewrite list_lookup_alter_ne.
Qed.

Lemma descriptors_ok_alter_tentative s i f :
  (∀ t, (th_url (f t), th_ip (f t)) = (th_url t, th_ip t)) →
  descriptors_ok s → descriptors_ok (with_tentativeHosts (alter f i) s).
Proof.
  intros Hf (Hnd & Ht & Ha). split; [done|]. split; [|done]. simpl. rewrite <- Ht.
  apply list_eq. intros j. rewrite !list_lookup_fmap.
  destruct (decide (i = j)) as [->|Hne].
  - rewrite list_lookup_alter_eq. destruct (tentativeHosts s !! j); simpl; by rewrite ?Hf.
  - by rewrite list_lookup_alter_ne.
Qed.

Lemma descriptors_ok_reconnect_attempt s r hid :
  descriptors_ok s →
  descriptors_ok (with_attempts (λ l, l ++ [Attempt (Reconnect r hid) false false]) s).
Proof.
  intros (Hnd & Ht & Ha). split; [|split; [done|]].
  - unfold claims in *. simpl. rewrite omap_app. simpl. by rewrite app_nil_r.
  - intros a i u p cf ff. simpl. intros Hl.
    apply lookup_app_Some in Hl as [Hl|[_ Hl]]; [by eapply Ha|].
    destruct (a - length (attempts s)) as [|n]; simpl in Hl; [done|].
    by rewrite lookup_nil in Hl.
Qed.

Lemma omap_cons {A B} (g : A → option B) (x : A) (l : list A) :
  omap g (x :: l) = option_list (g x) ++ omap g l.
Proof. simpl. by destruct (g x). Qed.

(** Altering one race changes the pairs held by races only through that
    race. *)
Lemma claims_alter_same (f : attempt → attempt) (a : nat) (atts : list attempt) :
  (∀ att, atts !! a = Some att → claim_of_attempt (f att) = claim_of_attempt att) →
  omap claim_of_attempt (alter f a atts) = omap claim_of_attempt atts.
Proof.
  revert a. induction atts as [|att atts IH]; intros a Hf; [done|].
  destruct a as [|a].
  - change (alter f 0 (att :: atts)) with (f att :: atts).
    rewrite !omap_cons, (Hf att eq_refl). done.
  - change (alter f (S a) (att :: atts)) with (att :: alter f a atts).
    rewrite !omap_cons, (IH a); [done|]. intros att' Ha. by apply Hf.
Qed.

Lemma claims_alter_settle (f : attempt → attempt) (a : nat) (atts : list attempt) att q :
  atts !! a = Some att →
  claim_of_attempt att = Some q → claim_of_attempt (f att) = None →
  omap claim_of_attempt atts ≡ₚ q :: omap claim_of_attempt (alter f a atts).
Proof.
  revert a. induction atts as [|att0 atts IH]; intros a Ha Hq Hn; [done|].
  destruct a as [|a].
  - injection Ha as ->.
    change (alter f 0 (att :: atts)) with (f att :: atts).
    rewrite !omap_cons, Hq, Hn. done.
  - change (alter f (S a) (att0 :: atts)) with (att0 :: alter f a atts).
    rewrite !omap_cons, (IH a Ha Hq Hn).
    by rewrite Permutation_middle.
Qed.

Lemma claims_remove_first (i : nat) (l : list nat) :
  i ∈ l →
  omap (λ i, KMS_ARRAY env !! i) l
  ≡ₚ option_list (KMS_ARRAY env !! i) ++ omap (λ i, KMS_ARRAY env !! i) (remove_first i l).
Proof.
  induction l as [|j l IH]; intros Hin; [by apply elem_of_nil in Hin|].
  change (remove_first i (j :: l)) with (if Nat.eqb i j then l else j :: remove_first i l).
  destruct (Nat.eqb_spec i j) as [->|Hne].
  - by rewrite omap_cons.
  - apply elem_of_cons in Hin as [Hin|Hin]; [done|].
    rewrite !omap_cons, (IH Hin), !app_assoc.
    apply Permutation_app_tail, Permutation_app_comm.
Qed.

Lemma holding_descriptors_ok q s : holding q s → descriptors_ok s.
Proof.
  intros (Hnd & Ht & Ha). split; [|done].
  apply NoDup_app in Hnd as (_ & _ & Hnd). exact Hnd.
Qed.

Lemma holding_frame q s s' :
  attempts s' = attempts s → timeouts s' = timeouts s → heap s' = heap s →
  tentativeHosts s' = tentativeHosts s →
  holding q s → holding q s'.
Proof. unfold holding, claims. intros -> -> -> ->. done. Qed.

Lemma holding_alter_tentative q s i f :
  (∀ t, (th_url (f t), th_ip (f t)) = (th_url t, th_ip t)) →
  holding q s → holding q (with_tentativeHosts (alter f i) s).
Proof.
  intros Hf (Hnd & Ht & Ha). split; [done|]. split; [|done]. simpl. rewrite <- Ht.
  apply list_eq. intros j. rewrite !list_lookup_fmap.
  destruct (decide (i = j)) as [->|Hne].
  - rewrite list_lookup_alter_eq. destruct (tentativeHosts s !! j); simpl; by rewrite ?Hf.
  - by rewrite list_lookup_alter_ne.
Qed.

(** The retry takes over the pair that was held. *)
Lemma holding_retry i s :
  holding (KMS_ARRAY env !! i) s →
  descriptors_ok (with_timeouts (λ l, l ++ [i]) s).
Proof.
  intros (Hnd & Ht & Ha). split; [|done].
  unfold claims in *. simpl. rewrite omap_app, omap_cons. simpl. rewrite app_nil_r.
  destruct (KMS_ARRAY env !! i) as [q|]; simpl in *.
  - eapply NoDup_Permutation_proper; [|exact Hnd].
    rewrite <- !app_assoc. simpl. rewrite app_assoc.
    rewrite <- Permutation_middle. by rewrite <- app_assoc.
  - by rewrite app_nil_r.
Qed.

Lemma hoare_bind {A B} (P R Q : monitor → Prop) (m : M A) (k : A → M B) :
  hoare P R m → (∀ s, R s → Q s) → (∀ a, hoare R Q (k a)) → hoare P Q (m ≫= k).
Proof.
  intros Hm HRQ Hk s H. unfold mbind, M_bind.
  specialize (Hm s H). destruct (m s) as [[a|e] s']; simpl in *.
  - by apply Hk.
  - by apply HRQ.
Qed.

Lemma hoare_preserves {A} (I : monitor → Prop) (m : M A) : preserves I m → hoare I I m.
Proof. done. Qed.

Ltac holding_prim :=
  idtac;
  lazymatch goal with
  | |- preserves _ (modify _) =>
      apply preserves_modify; intros ? ?;
      eapply holding_frame; [reflexivity | reflexivity | reflexivity | reflexivity | eassumption]
  | |- preserves _ (update_tentative _ _) =>
      unfold update_tentative; apply preserves_modify; intros ? ?;
      apply holding_alter_tentative; [intros []; reflexivity | assumption]
  | |- preserves _ (emitHookWarning _ _) =>
      apply preserves_emitHookWarning; intros;
      (eapply holding_frame; [reflexivity | reflexivity | reflexivity | reflexivity | eassumption])
  end.

Lemma startup_catch_holding i :
  hoare (holding (KMS_ARRAY env !! i)) descriptors_ok (startup_catch i).
Proof.
  unfold startup_catch.
  apply (hoare_bind _ (holding (KMS_ARRAY env !! i)));
    [apply hoare_preserves; pres_with holding_prim | apply holding_descriptors_ok | intros t].
  apply (hoare_bind _ (holding (KMS_ARRAY env !! i)));
    [apply hoare_preserves; pres_with holding_prim | apply holding_descriptors_ok | intros _].
  apply (hoare_bind _ (holding (KMS_ARRAY env !! i)));
    [apply hoare_preserves; pres_with holding_prim | apply holding_descriptors_ok | intros t'].
  cbv zeta.
  apply (hoare_bind _ (holding (KMS_ARRAY env !! i)));
    [apply hoare_preserves; pres_with holding_prim | apply holding_descriptors_ok | intros _].
  intros s H. by apply holding_retry.
Qed.

Lemma fmap_alter_same {A B} (g : A → B) (f : A → A) (i : nat) (l : list A) :
  (∀ x, g (f x) = g x) → g <$> alter f i l = g <$> l.
Proof.
  intros Hf. apply list_eq. intros j. rewrite !list_lookup_fmap.
  destruct (decide (i = j)) as [->|Hne].
  - rewrite list_lookup_alter_eq. destruct (l !! j); simpl; by rewrite ?Hf.
  - by rewrite list_lookup_alter_ne.
Qed.

(** [descriptors_ok] looks at the races, the retries and the pairs only. *)
Lemma descriptors_ok_view s s' :
  attempts s' = attempts s → timeouts s' = timeouts s →
  pair_of <$> heap s' = pair_of <$> heap s →
  (λ t, (th_url t, th_ip t)) <$> tentativeHosts s'
  = (λ t, (th_url t, th_ip t)) <$> tentativeHosts s →
  descriptors_ok s → descriptors_ok s'.
Proof. unfold descriptors_ok, claims. intros -> -> -> ->. done. Qed.

Lemma tentative_of_descriptor i u p s :
  (λ t, (th_url t, th_ip t)) <$> tentativeHosts s = KMS_ARRAY env →
  KMS_ARRAY env !! i = Some (u, p) →
  ∃ t, tentativeHosts s !! i = Some t ∧ th_url t = u ∧ th_ip t = p.
Proof.
  intros Ht Hi. rewrite <- Ht, list_lookup_fmap in Hi.
  destruct (tentativeHosts s !! i) as [t|]; [|done].
  exists t. simpl in Hi. by injection Hi as -> ->.
Qed.

Lemma descriptor_of_tentative i t s :
  (λ t, (th_url t, th_ip t)) <$> tentativeHosts s = KMS_ARRAY env →
  tentativeHosts s !! i = Some t →
  KMS_ARRAY env !! i = Some (th_url t, th_ip t).
Proof. intros <- Ht. by rewrite list_lookup_fmap, Ht. Qed.

(** [tryToConnect] starts a race for the descriptor of its host, or does
    nothing. *)
Lemma tryToConnect_cases i s :
  (λ t, (th_url t, th_ip t)) <$> tentativeHosts s = KMS_ARRAY env →
  (tryToConnect i s).2 = s
  ∨ ∃ u p, KMS_ARRAY env !! i = Some (u, p)
           ∧ (tryToConnect i s).2
             = with_attempts (λ l, l ++ [Attempt (Startup i u p) false false]) s.
Proof.
  intros Ht. unfold tryToConnect, read_tentative, _hostStarted, new_attempt. run_handler.
  destruct (tentativeHosts s !! i) as [t|] eqn:Hi; simpl; [|by left].
  destruct (below_bound (retries t)); simpl; [|by left].
  destruct (existsb _ (hosts s)); simpl; [by left|].
  right. exists (th_url t), (th_ip t). split; [|done].
  by eapply descriptor_of_tentative.
Qed.

(** The race [tryToConnect] starts takes over the pair that was held. *)
Lemma tryToConnect_holding i :
  hoare (holding (KMS_ARRAY env !! i)) descriptors_ok (tryToConnect i).
Proof.
  intros s H. destruct H as (Hnd & Ht & Ha).
  destruct (tryToConnect_cases i s Ht) as [->|(u & p & Hi & ->)].
  { by apply (holding_descriptors_ok (KMS_ARRAY env !! i)). }
  rewrite Hi in Hnd. simpl in Hnd.
  split; [|split; [done|]].
  - unfold claims in *. simpl. rewrite omap_app, omap_cons. simpl.
    eapply NoDup_Permutation_proper; [|exact Hnd].
    rewrite <- !app_assoc. simpl. by rewrite <- Permutation_middle.
  - intros a i' u' p' cf ff. simpl. intros Hl.
    apply lookup_app_Some in Hl as [Hl|[_ Hl]]; [by eapply Ha|].
    destruct (a - length (attempts s)) as [|n]; simpl in Hl.
    + by injection Hl as <- <- <- _ _.
    + by rewrite lookup_nil in Hl.
Qed.

(** The host object built for a pair takes over the pair that was held. *)
Lemma holding_alloc h s s' :
  attempts s' = attempts s → timeouts s' = timeouts s →
  pair_of <$> heap s' = (pair_of <$> heap s) ++ [pair_of h] →
  (λ t, (th_url t, th_ip t)) <$> tentativeHosts s'
  = (λ t, (th_url t, th_ip t)) <$> tentativeHosts s →
  holding (Some (pair_of h)) s → descriptors_ok s'.
Proof.
  unfold holding, descriptors_ok, claims. intros -> -> -> -> (Hnd & Ht & Ha).
  split; [|done]. simpl in Hnd.
  eapply NoDup_Permutation_proper; [|exact Hnd].
  rewrite !app_assoc. by rewrite <- Permutation_cons_append.
Qed.

Lemma startup_try_holding i u p c token :
  KMS_ARRAY env !! i = Some (u, p) →
  hoare (holding (Some (u, p))) descriptors_ok
        (startup_try i (Host token u p c false false None None None)).
Proof.
  intros Hi s H.
  destruct (tentative_of_descriptor i u p s (proj1 (proj2 H)) Hi) as (t & Ht & _).
  unfold startup_try, _monitorConnectionState, addHost, alloc, healthcheck.
  run_handler.
  rewrite lookup_app_r by done. rewrite Nat.sub_diag. simpl.
  rewrite lookup_app_r by done. rewrite Nat.sub_diag. simpl.
  unfold read_tentative. simpl. rewrite Ht. simpl.
  unfold update_tentative. run_handler.
  destruct (startupFailureNotified t); simpl.
  all: rewrite ?endpoint_accepts; simpl.
  all: destruct (ENABLE_HEALTHCHECK env); simpl.
  all: rewrite ?lookup_app_r by done; rewrite ?Nat.sub_diag; simpl.
  all: apply (holding_alloc (Host token u p c false false None None None) s);
    [done | done | | | done]; simpl.
  all: rewrite ?(fmap_alter_same pair_of) by (by intros []).
  all: rewrite ?fmap_app; try done.
  all: by rewrite ?(fmap_alter_same (λ t, (th_url t, th_ip t))) by (by intros []).
Qed.

Lemma claim_settled att : race_settled att = true → claim_of_attempt att = None.
Proof. unfold claim_of_attempt. intros ->. by destruct (kind att). Qed.

Lemma descriptors_ok_attempts_kinds f a s :
  (∀ x, kind (f x) = kind x) →
  (∀ a i u p cf ff, attempts s !! a = Some (Attempt (Startup i u p) cf ff) →
     KMS_ARRAY env !! i = Some (u, p)) →
  ∀ a' i u p cf ff,
    alter f a (attempts s) !! a' = Some (Attempt (Startup i u p) cf ff) →
    KMS_ARRAY env !! i = Some (u, p).
Proof.
  intros Hk Ha a' i u p cf ff Hl.
  destruct (decide (a = a')) as [->|Hne].
  - rewrite list_lookup_alter_eq in Hl.
    destruct (attempts s !! a') as [[k cf' ff']|] eqn:Hatt; [|done].
    simpl in Hl. injection Hl as Hl. specialize (Hk (Attempt k cf' ff')).
    rewrite Hl in Hk. simpl in Hk. subst k. by eapply Ha.
  - rewrite list_lookup_alter_ne in Hl by done. by eapply Ha.
Qed.

(** Settling a race leaves the others as they are. *)
Lemma settle_descriptors_ok f a s :
  (∀ x, kind (f x) = kind x) → (∀ x, race_settled (f x) = true) →
  descriptors_ok s → descriptors_ok (with_attempts (alter f a) s).
Proof.
  intros Hk Hs (Hnd & Ht & Ha).
  split; [|split; [done|by apply descriptors_ok_attempts_kinds]].
  unfold claims in *. simpl.
  destruct (attempts s !! a) as [att|] eqn:Hatt.
  - destruct (claim_of_attempt att) as [q|] eqn:Hq.
    + rewrite (claims_alter_settle f a _ att q Hatt Hq (claim_settled _ (Hs att))) in Hnd.
      simpl in Hnd. by apply NoDup_cons in Hnd as [_ Hnd].
    + rewrite claims_alter_same; [done|].
      intros att' Hatt'. rewrite Hatt in Hatt'. injection Hatt' as <-.
      by rewrite Hq, (claim_settled _ (Hs att)).
  - rewrite claims_alter_same; [done|]. intros att' Hatt'. by rewrite Hatt in Hatt'.
Qed.

(** Settling a startup race frees the pair it held. *)
Lemma settle_holding f a att i u p s :
  (∀ x, kind (f x) = kind x) → (∀ x, race_settled (f x) = true) →
  attempts s !! a = Some att → kind att = Startup i u p → race_settled att = false →
  descriptors_ok s →
  holding (Some (u, p)) (with_attempts (alter f a) s) ∧ KMS_ARRAY env !! i = Some (u, p).
Proof.
  intros Hk Hs Hatt Hkind Hrace (Hnd & Ht & Ha). split.
  - split; [|split; [done|by apply descriptors_ok_attempts_kinds]].
    unfold claims in *. simpl.
    assert (Hq : claim_of_attempt att = Some (u, p)).
    { unfold claim_of_attempt. by rewrite Hkind, Hrace. }
    by rewrite (claims_alter_settle f a _ att _ Hatt Hq (claim_settled _ (Hs att))) in Hnd.
  - destruct att as [k cf ff]. simpl in Hkind. subst k. by eapply Ha.
Qed.

Lemma connect_done_kind x : kind (connect_done x) = kind x.
Proof. done. Qed.

Lemma connect_done_settled x : race_settled (connect_done x) = true.
Proof. done. Qed.

Lemma failOver_done_kind x : kind (failOver_done x) = kind x.
Proof. done. Qed.

Lemma failOver_done_settled x : race_settled (failOver_done x) = true.
Proof. unfold race_settled. simpl. apply orb_true_r. Qed.

Ltac descriptors_prim :=
  idtac;
  lazymatch goal with
  | |- preserves _ (modify _) =>
      apply preserves_modify; intros ? ?;
      eapply descriptors_ok_frame;
        [reflexivity | reflexivity | reflexivity | reflexivity | eassumption]
  | |- preserves _ (removeHost _) =>
      unfold removeHost; apply preserves_modify; intros ? ?;
      eapply descriptors_ok_frame;
        [reflexivity | reflexivity | reflexivity | reflexivity | eassumption]
  | |- preserves _ (update_host _ _) =>
      unfold update_host; apply preserves_modify; intros ? ?;
      apply descriptors_ok_alter; [intros []; reflexivity | assumption]
  | |- preserves _ (update_tentative _ _) =>
      unfold update_tentative; apply preserves_modify; intros ? ?;
      apply descriptors_ok_alter_tentative; [intros []; reflexivity | assumption]
  | |- preserves _ (new_attempt (Reconnect _ _)) =>
      unfold new_attempt; apply preserves_modify; intros ? ?;
      by apply descriptors_ok_reconnect_attempt
  | |- preserves _ (emitHookWarning _ _) =>
      apply preserves_emitHookWarning; intros;
      (eapply descriptors_ok_frame;
        [reflexivity | reflexivity | reflexivity | reflexivity | eassumption])
  end.

Lemma descriptors_ok__onDisconnection r : preserves descriptors_ok (_onDisconnection r).
Proof. pres_with descriptors_prim. Qed.

Lemma descriptors_ok__onReconnection b r : preserves descriptors_ok (_onReconnection b r).
Proof. pres_with descriptors_prim. Qed.

Lemma descriptors_ok_reconnect_then r hid : preserves descriptors_ok (reconnect_then r hid).
Proof. pres_with descriptors_prim. Qed.

Lemma descriptors_ok_probe_settled r ok : preserves descriptors_ok (probe_settled r ok).
Proof. pres_with descriptors_prim. Qed.

Lemma bind_gets {A B} (g : monitor → A) (k : A → M B) s : (gets g ≫= k) s = k (g s) s.
Proof. done. Qed.

Lemma bind_modify {B} (f : monitor → monitor) (k : unit → M B) s :
  (modify f ≫= k) s = k () (f s).
Proof. done. Qed.

Ltac by_preservation H :=
  match goal with
  | |- descriptors_ok (?m ?s1).2 =>
      let Hp := fresh in
      enough (Hp : preserves descriptors_ok m) by (apply Hp, H);
      pres_with descriptors_prim
  end.

Lemma retry_holding i s :
  i ∈ timeouts s → descriptors_ok s →
  holding (KMS_ARRAY env !! i) (with_timeouts (remove_first i) s).
Proof.
  intros Hin (Hnd & Ht & Ha). split; [|done].
  unfold claims in *. simpl. rewrite (claims_remove_first i _ Hin) in Hnd.
  eapply NoDup_Permutation_proper; [|exact Hnd].
  rewrite !app_assoc. apply Permutation_app_tail, Permutation_app_tail.
  apply Permutation_app_comm.
Qed.

(** Every turn keeps the pairs held apart. *)
Lemma descriptors_ok_step e s : descriptors_ok s → descriptors_ok (step e s).
Proof.
  intros H. unfold step. destruct (enabled e s) eqn:He; [|done].
  destruct e as [a res|a|i|c r|c r b|t|r ok]; unfold fire.
  - rewrite bind_gets. destruct (attempts s !! a) as [att|] eqn:Hatt; [|done].
    unfold connect_callback. rewrite bind_modify.
    pose proof (settle_descriptors_ok connect_done a s connect_done_kind
                  connect_done_settled H) as H1.
    destruct (kind att) as [i u p|r hid] eqn:Hkind.
    + destruct (race_settled att) eqn:Hrace; [by destruct res|].
      destruct (settle_holding connect_done a att i u p s connect_done_kind
                  connect_done_settled Hatt Hkind Hrace H) as [Hh Hi].
      destruct res as [|c token].
      * apply startup_catch_holding. by rewrite Hi.
      * by apply startup_try_holding.
    + destruct res as [|c token]; [done|]. by_preservation H1.
  - rewrite bind_gets. destruct (attempts s !! a) as [att|] eqn:Hatt; [|done].
    unfold failOver. rewrite bind_modify.
    pose proof (settle_descriptors_ok failOver_done a s failOver_done_kind
                  failOver_done_settled H) as H1.
    destruct (race_settled att) eqn:Hrace; [done|].
    destruct (kind att) as [i u p|r hid] eqn:Hkind; [|done].
    destruct (settle_holding failOver_done a att i u p s failOver_done_kind
                failOver_done_settled Hatt Hkind Hrace H) as [Hh Hi].
    apply startup_catch_holding. by rewrite Hi.
  - rewrite bind_modify. apply tryToConnect_holding, retry_holding; [|done].
    simpl in He. by apply bool_decide_eq_true in He.
  - by apply descriptors_ok__onDisconnection.
  - by apply descriptors_ok__onReconnection.
  - by_preservation H.
  - by apply descriptors_ok_probe_settled.
Qed.

Lemma descriptors_ok_run es s : descriptors_ok s → descriptors_ok (run es s).
Proof.
  revert s. induction es as [|e es IH]; intros s H; [done|].
  apply IH. by apply descriptors_ok_step.
Qed.

(** *** startHosts *)

Lemma forEach_cons_state f i l s :
  (forEach f (i :: l) s).2 = (forEach f l (f i s).2).2.
Proof.
  simpl. unfold try_catch, mbind, M_bind, skip, mret, M_ret.
  by destruct (f i s) as [[[]|?] ?].
Qed.

Lemma started_below_tryToConnect k s :
  started_below k s → started_below (S k) (tryToConnect k s).2.
Proof.
  intros (H & Hto & Hhp & Hlt).
  destruct (tryToConnect_cases k s (proj1 (proj2 H))) as [Heq|(u & p & Hk & Heq)].
  { rewrite Heq. split; [done|]. split; [done|]. split; [done|].
    intros q Hq. destruct (Hlt q Hq) as (j & Hj & Hjq). exists j. split; [lia|done]. }
  split; [|rewrite Heq; split; [done|]; split; [done|]].
  - apply tryToConnect_holding. destruct H as (Hnd & Ht & Ha).
    split; [|done]. rewrite Hk. simpl. apply NoDup_cons. split; [|done].
    unfold claims. rewrite Hto, Hhp. simpl. rewrite app_nil_r.
    intros Hin. destruct (Hlt _ Hin) as (j & Hj & Hjq).
    pose proof (NoDup_lookup _ _ _ _ descriptors_distinct Hjq Hk). lia.
  - intros q. simpl. rewrite omap_app. intros Hq.
    apply elem_of_app in Hq as [Hq|Hq].
    + destruct (Hlt q Hq) as (j & Hj & Hjq). exists j. split; [lia|done].
    + simpl in Hq. apply list_elem_of_singleton in Hq as ->. exists k. split; [lia|done].
Qed.

Lemma started_below_forEach n k s :
  started_below k s → started_below (k + n) (forEach tryToConnect (seq k n) s).2.
Proof.
  revert k s. induction n as [|n IH]; intros k s H.
  - by rewrite Nat.add_0_r.
  - change (seq k (S n)) with (k :: seq (S k) n). rewrite forEach_cons_state.
    replace (k + S n) with (S k + n) by lia.
    by apply IH, started_below_tryToConnect.
Qed.

Lemma descriptors_ok_startHosts : descriptors_ok startHosts.
Proof.
  apply (started_below_forEach _ 0). split; [|split; [done|split; [done|]]].
  - split; [apply NoDup_nil_2|]. split; [|done].
    unfold constructed. simpl. rewrite <- list_fmap_compose.
    rewrite <- (list_fmap_id (KMS_ARRAY env)) at 2.
    apply list_fmap_ext. by intros _ [] _.
  - intros q Hq. by apply elem_of_nil in Hq.
Qed.

(** The pairs of the entries of the registry. *)
Lemma registry_pairs_NoDup s :
  registry_ok s → NoDup (pair_of <$> heap s) → NoDup (pair_of <$> registry s).
Proof.
  intros [_ Hids] Hhp. apply NoDup_fmap_1 in Hids. unfold registry.
  induction Hids as [|r l Hr Hl IH]; [apply NoDup_nil_2|].
  rewrite omap_cons. destruct (heap s !! r) as [h|] eqn:Hh; simpl; [|done].
  apply NoDup_cons. split; [|done].
  intros Hin. apply list_elem_of_fmap in Hin as (h' & Heq & Hin).
  apply list_elem_of_omap in Hin as (r' & Hr' & Hh').
  assert (r = r'); [|by subst].
  eapply (NoDup_lookup (pair_of <$> heap s)); [done| |].
  - by rewrite list_lookup_fmap, Hh.
  - by rewrite list_lookup_fmap, Hh', Heq.
Qed.

(** With pairwise distinct descriptors in the configuration and an endpoint
    that accepts the requests, the registry never holds two entries for one
    (url, address). *)
Theorem registry_pairs_unique es :
  NoDup (pair_of <$> registry (run es startHosts)).
Proof.
  apply registry_pairs_NoDup; [apply registry_ok_reachable|].
  destruct (descriptors_ok_run es startHosts descriptors_ok_startHosts) as [Hnd _].
  unfold claims in Hnd. by apply NoDup_app in Hnd as (_ & _ & (_ & _ & Hnd)%NoDup_app).
Qed.

End DistinctDescriptors.

(** ** The health interval *)

Lemma health_interval_frame r t s s' :
  heap s' = heap s → health_interval r t s → health_interval r t s'.
Proof. unfold health_interval. by intros ->. Qed.

Lemma health_interval_alter r t s r' f :
  (∀ h, healthcheckerInterval (f h) = healthcheckerInterval h) →
  health_interval r t s → health_interval r t (with_heap (alter f r') s).
Proof.
  intros Hf (h & Hh & Ht). unfold health_interval. simpl.
  destruct (decide (r' = r)) as [->|Hne].
  - exists (f h). rewrite list_lookup_alter_eq, Hh. simpl. by rewrite Hf.
  - exists h. by rewrite list_lookup_alter_ne.
Qed.

Lemma health_interval_alloc r t s h :
  health_interval r t s → health_interval r t (with_heap (λ hp, hp ++ [h]) s).
Proof.
  intros (h' & Hh & Ht). exists h'. simpl. split; [|done].
  by apply lookup_app_l_Some.
Qed.

(** [healthcheck] returns at once when the host has an interval. *)
Lemma health_interval_healthcheck r t r' :
  preserves (health_interval r t) (healthcheck r').
Proof.
  intros s (h & Hh & Ht). unfold healthcheck. run_handler.
  destruct (heap s !! r') as [h'|] eqn:Hh'; simpl; [|by exists h].
  destruct (healthcheckerInterval h') as [t'|] eqn:Ht'; simpl; [by exists h|].
  assert (r' ≠ r) by (intros ->; congruence).
  exists h. simpl. by rewrite list_lookup_alter_ne.
Qed.

Ltac health_prim :=
  idtac;
  lazymatch goal with
  | |- preserves _ (healthcheck _) => apply health_interval_healthcheck
  | |- preserves _ (modify _) =>
      apply preserves_modify; intros ? ?;
      eapply health_interval_frame; [reflexivity | eassumption]
  | |- preserves _ (removeHost _) =>
      unfold removeHost; apply preserves_modify; intros ? ?;
      eapply health_interval_frame; [reflexivity | eassumption]
  | |- preserves _ (update_host _ _) =>
      unfold update_host; apply preserves_modify; intros ? ?;
      apply health_interval_alter; [intros []; reflexivity | assumption]
  | |- preserves _ (alloc _) =>
      apply preserves_alloc; intros; by apply health_interval_alloc
  | |- preserves _ (emitHookWarning _ _) =>
      apply preserves_emitHookWarning; intros;
      (eapply health_interval_frame; [reflexivity | eassumption])
  end.

Lemma health_interval_fire r t e : preserves (health_interval r t) (fire e).
Proof. destruct e; pres_with health_prim. Qed.

(** Nothing clears or replaces the health interval of a host object: once
    [healthcheck] has set it, it is there in every later state, whatever
    happens to the host, and its ticks can go on. *)
Theorem health_interval_never_cleared (r t : nat) (s : monitor) (es : list event) :
  health_interval r t s →
  health_interval r t (run es s)
  ∧ ∀ ok, enabled (ProbeSettled r ok) (run es s) = true.
Proof.
  intros H.
  assert (H' : health_interval r t (run es s)).
  { apply invariant_run; [apply health_interval_fire | exact H]. }
  split; [exact H'|]. intros ok. destruct H' as (h & Hh & Ht).
  simpl. rewrite Hh. apply bool_decide_eq_true. by rewrite Ht.
Qed.

Section HealthcheckDisabled.

Hypothesis healthcheck_disabled : ENABLE_HEALTHCHECK env = false.

Lemma no_healthcheck_frame s s' :
  heap s' = heap s → outbox s' = outbox s → no_healthcheck s → no_healthcheck s'.
Proof. unfold no_healthcheck. by intros -> ->. Qed.

Lemma no_healthcheck_alter s r f :
  (∀ h, healthcheckerInterval (f h) = healthcheckerInterval h) →
  no_healthcheck s → no_healthcheck (with_heap (alter f r) s).
Proof.
  intros Hf [Hh Ho]. split; [|done]. simpl.
  apply Forall_alter; [done|]. intros h _ Hn. by rewrite Hf.
Qed.

Lemma no_healthcheck_emit s g ev text :
  is_ws ev = false →
  no_healthcheck s →
  no_healthcheck (with_outbox (λ o, o ++ [(ev, text)]) (with_hook_calls g s)).
Proof.
  intros Hev [Hh Ho]. split; [done|]. simpl.
  apply Forall_app. split; [done|]. by apply Forall_singleton.
Qed.

Ltac no_healthcheck_prim :=
  idtac;
  lazymatch goal with
  | |- preserves _ (if ENABLE_HEALTHCHECK env then _ else _) =>
      rewrite healthcheck_disabled; apply preserves_ret
  | |- preserves _ (modify _) =>
      apply preserves_modify; intros ? ?;
      eapply no_healthcheck_frame; [reflexivity | reflexivity | eassumption]
  | |- preserves _ (removeHost _) =>
      unfold removeHost; apply preserves_modify; intros ? ?;
      eapply no_healthcheck_frame; [reflexivity | reflexivity | eassumption]
  | |- preserves _ (update_host _ _) =>
      unfold update_host; apply preserves_modify; intros ? ?;
      apply no_healthcheck_alter; [intros []; reflexivity | assumption]
  | |- preserves _ (alloc _) =>
      apply preserves_alloc; intros ? [? ?]; split; [|done]; simpl;
      apply Forall_app; split; [done|]; by apply Forall_singleton
  | |- preserves _ (emitHookWarning _ _) =>
      let s := fresh in let H := fresh in
      intros s H; unfold emitHookWarning;
      destruct (request env (hook_calls s)); simpl;
      [ by apply no_healthcheck_emit
      | eapply no_healthcheck_frame; [reflexivity | reflexivity | exact H] ]
  end.

Lemma no_healthcheck_step e s : no_healthcheck s → no_healthcheck (step e s).
Proof.
  intros H. unfold step. destruct (enabled e s) eqn:He; [|done].
  destruct e as [a res|a|i|c r|c r b|t|r ok].
  7: { simpl in He. destruct (heap s !! r) as [h|] eqn:Hh; [|done].
       apply bool_decide_eq_true in He. destruct H as [Hheap _].
       eapply Forall_lookup_1 in Hheap; [|exact Hh]. rewrite Hheap in He.
       by destruct He. }
  all: match goal with
       | |- no_healthcheck (?m _).2 =>
           let Hp := fresh in
           enough (Hp : preserves no_healthcheck m) by (apply Hp, H)
       end; pres_with no_healthcheck_prim.
Qed.

Lemma no_healthcheck_startHosts : no_healthcheck startHosts.
Proof.
  unfold startHosts. apply preserves_forEach.
  - intros i. pres_with no_healthcheck_prim.
  - split; constructor.
Qed.

(** With the health check disabled no host ever gets a health interval: no
    probe runs and no WS_CONN_UNHEALTHY or WS_CONN_HEALTHY alert is ever
    issued. *)
Theorem healthcheck_disabled_no_probe (es : list event) :
  (∀ r ok, enabled (ProbeSettled r ok) (run es startHosts) = false)
  ∧ Forall (λ x, x.1 ≠ WS_CONN_UNHEALTHY ∧ x.1 ≠ WS_CONN_HEALTHY)
           (outbox (run es startHosts)).
Proof.
  assert (H : no_healthcheck (run es startHosts)).
  { generalize no_healthcheck_startHosts. generalize startHosts.
    induction es as [|e es IH]; intros s Hs; [done|].
    apply IH. by apply no_healthcheck_step. }
  destruct H as [Hheap Hout]. split.
  - intros r ok. simpl. destruct (heap _ !! r) as [h|] eqn:Hh; [|done].
    eapply Forall_lookup_1 in Hheap; [|exact Hh]. rewrite Hheap.
    apply bool_decide_eq_false. by intros [? ?].
  - eapply Forall_impl; [exact Hout|]. intros [ev text]. simpl. by destruct ev.
Qed.

End HealthcheckDisabled.

(** ** What a disconnection and a reconnection leave behind *)

(** For a host whose id is a token of [greatRandomToken(12)], as the ids of
    all hosts are, and whatever the endpoint does: [_onDisconnection] leaves
    the host out of the registry, flagged, with its media counters at zero
    and with a reconnection interval recorded under its id; the one alert it
    can issue is the OFFLINE of a host whose flag was clear.  The id has to
    be a token because [this._reconnectionRoutine] is a plain object: a key
    that [Object.prototype] has, [constructor] for one, is never [null]
    there, and for such an id no interval would be started. *)
Theorem disconnection_outcome (r : nat) (h : host) (s : monitor) :
  heap s !! r = Some h →
  is_token (id h) = true →
  let s' := (_onDisconnection r s).2 in
  heap s' !! r = Some (reset_media (set_failureNotified true h))
  ∧ hosts s' = filter (λ r', id_at s r' ≠ Some (id h)) (hosts s)
  ∧ is_Some (_reconnectionRoutine s' !! id h)
  ∧ (_reconnectionRoutine s !! id h = None →
       _reconnectionRoutine s' !! id h = Some (next_timer s)
       ∧ intervals s' !! next_timer s = Some (r, id h))
  ∧ outbox s'
    = outbox s ++ (if negb (failureNotified h) && request env (hook_calls s)
                   then [(MEDIA_SERVER_OFFLINE,
                          alert_text MEDIA_SERVER_OFFLINE (url h) (ip h))]
                   else []).
Proof.
  intros Hr _. unfold _onDisconnection. run_handler. rewrite Hr. simpl. rewrite Hr. simpl.
  destruct (failureNotified h) eqn:Hf; simpl.
  - replace (set_failureNotified true h) with h by (destruct h; simpl in *; by subst).
    rewrite list_lookup_alter_eq, Hr. simpl.
    destruct (_reconnectionRoutine s !! id h) eqn:Hrt; simpl.
    all: rewrite ?list_lookup_alter_eq, ?Hr, ?Hrt, ?lookup_insert_eq, ?app_nil_r; simpl.
    all: repeat split; try done; by eexists.
  - destruct (request env (hook_calls s)); simpl.
    all: rewrite !list_lookup_alter_eq, Hr; simpl.
    all: destruct (_reconnectionRoutine s !! id h) eqn:Hrt; simpl.
    all: rewrite ?list_lookup_alter_eq, ?list_alter_compose, ?Hr, ?Hrt, ?lookup_insert_eq, ?app_nil_r; simpl.
    all: repeat split; try done; by eexists.
Qed.

Lemma id_alter (f : host → host) (r r' : nat) (l : list host) :
  (∀ h, id (f h) = id h) → id <$> alter f r l !! r' = id <$> l !! r'.
Proof.
  intros Hf. destruct (decide (r = r')) as [->|Hne].
  - rewrite list_lookup_alter_eq. destruct (l !! r'); simpl; by rewrite ?Hf.
  - by rewrite list_lookup_alter_ne.
Qed.

(** A reconnection that wins its race puts the host back: the host holds
    the new client and is the last entry of the registry, the only one with
    its id; the listeners are attached to the new client; the interval is
    cleared and no interval for that id is left. *)
Theorem reconnection_outcome (a r : nat) (hid : string) (c : nat) (token : string)
    (h : host) (s : monitor) :
  attempts s !! a = Some (Attempt (Reconnect r hid) false false) →
  heap s !! r = Some h → id h = hid → timers_ok s →
  let s' := step (ConnectCallback a (ConnOk c token)) s in
  (∃ h', heap s' !! r = Some h' ∧ client h' = c ∧ id h' = hid
         ∧ (failureNotified h' = true →
              failureNotified h = true ∧ request env (hook_calls s) = false))
  ∧ hosts s' = filter (λ r', id_at s r' ≠ Some hid) (hosts s) ++ [r]
  ∧ (c, r) ∈ listeners s'
  ∧ _reconnectionRoutine s' !! hid = None
  ∧ (∀ t r', intervals s' !! t ≠ Some (r', hid))
  ∧ outbox s'
    = outbox s ++ (if failureNotified h && request env (hook_calls s)
                   then [(MEDIA_SERVER_ONLINE,
                          alert_text MEDIA_SERVER_ONLINE (url h) (ip h))]
                   else []).
Proof.
  intros Ha Hr Hid Hok. unfold step. simpl. rewrite Ha. simpl.
  unfold connect_callback, reconnect_then, _monitorConnectionState, clear_routine, addHost.
  run_handler. rewrite Ha. simpl.
  rewrite !list_lookup_alter_eq, Hr. simpl.
  assert (Hfilter : filter (λ r0, id <$> alter (set_client c) r (heap s) !! r0 ≠ Some (id h))
                      (hosts s)
                    = filter (λ r', id_at s r' ≠ Some hid) (hosts s)).
  { apply list_filter_iff. intros r'. unfold id_at. by rewrite id_alter, Hid. }
  assert (Hnone : ∀ t0 t r', _reconnectionRoutine s !! hid = t0 →
            match t0 with Some t0 => delete t0 (intervals s) | None => intervals s end !! t
            ≠ Some (r', hid)).
  { intros t0 t r' Hrt Hl. destruct t0 as [t0|].
    - apply lookup_delete_Some in Hl as [Hne Hl].
      destruct (Hok _ _ _ Hl) as [Hrt' _]. congruence.
    - destruct (Hok _ _ _ Hl) as [Hrt' _]. congruence. }
  destruct (_reconnectionRoutine s !! hid) as [t0|] eqn:Hrt; simpl.
  all: destruct (failureNotified h) eqn:Hf; simpl.
  all: destruct (request env (hook_calls s)) eqn:Hreq; simpl.
  all: repeat (progress (rewrite ?list_lookup_alter_eq, ?Hr, ?Hf, ?Hreq, ?Hfilter, ?app_nil_r;
                         simpl)).
  all: split; [eexists; split; [reflexivity|]; simpl; repeat split; try done; congruence|].
  all: split; [done|].
  all: split; [apply elem_of_app; right; apply list_elem_of_singleton; done|].
  all: split; [by rewrite lookup_delete_eq|].
  all: split; [|done].
  all: intros t r'; first [exact (Hnone (Some t0) t r' eq_refl) | exact (Hnone None t r' eq_refl)].
Qed.

(** ** The startup budget *)

Lemma count_app {A} (p : A → bool) (l1 l2 : list A) :
  count p (l1 ++ l2) = count p l1 + count p l2.
Proof. unfold count. by rewrite List.filter_app, length_app. Qed.

Lemma count_cons {A} (p : A → bool) (x : A) (l : list A) :
  count p (x :: l) = (if p x then 1 else 0) + count p l.
Proof. unfold count. simpl. by destruct (p x). Qed.

Lemma count_alter {A} (p : A → bool) (f : A → A) (a : nat) (l : list A) (x : A) :
  l !! a = Some x →
  count p (alter f a l) + (if p x then 1 else 0)
  = count p l + (if p (f x) then 1 else 0).
Proof.
  revert a. induction l as [|y l IH]; intros a Ha; [done|].
  destruct a as [|a]; simpl in Ha.
  - injection Ha as ->. change (alter f 0 (x :: l)) with (f x :: l).
    rewrite !count_cons. lia.
  - change (alter f (S a) (y :: l)) with (y :: alter f a l).
    rewrite !count_cons. specialize (IH a Ha). lia.
Qed.

Lemma count_alter_same {A} (p : A → bool) (f : A → A) (a : nat) (l : list A) :
  (∀ x, l !! a = Some x → p (f x) = p x) → count p (alter f a l) = count p l.
Proof.
  revert a. induction l as [|y l IH]; intros a Hp; [done|].
  destruct a as [|a].
  - change (alter f 0 (y :: l)) with (f y :: l).
    by rewrite !count_cons, (Hp y eq_refl).
  - change (alter f (S a) (y :: l)) with (y :: alter f a l).
    rewrite !count_cons, (IH a); [done|]. intros x Hx. by apply Hp.
Qed.

Lemma count_remove_first (i : nat) (l : list nat) :
  i ∈ l → count (Nat.eqb i) l = S (count (Nat.eqb i) (remove_first i l)).
Proof.
  induction l as [|j l IH]; intros Hin; [by apply elem_of_nil in Hin|].
  change (remove_first i (j :: l)) with (if Nat.eqb i j then l else j :: remove_first i l).
  rewrite count_cons. destruct (Nat.eqb_spec i j) as [->|Hne]; [done|].
  apply elem_of_cons in Hin as [Hin|Hin]; [done|].
  rewrite count_cons. destruct (Nat.eqb_spec i j); [done|]. by rewrite IH.
Qed.

Lemma count_remove_first_ne (i j : nat) (l : list nat) :
  i ≠ j → count (Nat.eqb i) (remove_first j l) = count (Nat.eqb i) l.
Proof.
  intros Hne. induction l as [|k l IH]; [done|].
  change (remove_first j (k :: l)) with (if Nat.eqb j k then l else k :: remove_first j l).
  destruct (Nat.eqb_spec j k) as [->|Hjk].
  - rewrite count_cons. by destruct (Nat.eqb_spec i k).
  - by rewrite !count_cons, IH.
Qed.

Lemma count_positive {A} (p : A → bool) (l : list A) (x : A) :
  x ∈ l → p x = true → 0 < count p l.
Proof.
  intros Hin Hp. induction l as [|y l IH]; [by apply elem_of_nil in Hin|].
  rewrite count_cons. apply elem_of_cons in Hin as [<-|Hin].
  - rewrite Hp. lia.
  - specialize (IH Hin). lia.
Qed.

Section StartupBudget.

Variable n : nat.
Hypothesis retries_bounded : NOF_STARTUP_CONNECTION_RETRIES env = Some n.

Lemma within_budget_view i s s' :
  attempts s' = attempts s → timeouts s' = timeouts s →
  retries <$> tentativeHosts s' = retries <$> tentativeHosts s →
  within_budget n i s → within_budget n i s'.
Proof.
  unfold within_budget, racing, waiting, connects, retries_at. by intros -> -> ->.
Qed.

Lemma race_over_view i s s' :
  attempts s' = attempts s → timeouts s' = timeouts s →
  retries <$> tentativeHosts s' = retries <$> tentativeHosts s →
  race_over n i s → race_over n i s'.
Proof.
  unfold race_over, racing, waiting, connects, retries_at. by intros -> -> ->.
Qed.

Lemma race_over_within_budget i s : race_over n i s → within_budget n i s.
Proof. unfold race_over, within_budget. lia. Qed.

Lemma retry_due_within_budget i s : retry_due n i s → within_budget n i s.
Proof. unfold retry_due, within_budget. lia. Qed.

Lemma retries_alter_flag b (i : nat) (l : list tentative) :
  retries <$> alter (set_startupFailureNotified b) i l = retries <$> l.
Proof. apply fmap_alter_same. by intros []. Qed.

Lemma retries_at_alter_ne f i j s :
  i ≠ j → retries_at i (with_tentativeHosts (alter f j) s) = retries_at i s.
Proof.
  intros Hne. unfold retries_at. simpl.
  by rewrite !list_lookup_fmap, list_lookup_alter_ne.
Qed.

(** The retry of another tentative host. *)
Lemma within_budget_retry_ne i j s :
  i ≠ j → within_budget n i s → within_budget n i (with_timeouts (λ l, l ++ [j]) s).
Proof.
  intros Hne. unfold within_budget, racing, waiting, connects, retries_at. simpl.
  rewrite count_app, count_cons. destruct (Nat.eqb_spec i j); [done|].
  change (count (Nat.eqb i) []) with 0. by rewrite !Nat.add_0_r.
Qed.

Lemma within_budget_alter_tentative_ne f i j s :
  i ≠ j → within_budget n i s → within_budget n i (with_tentativeHosts (alter f j) s).
Proof.
  intros Hne. unfold within_budget.
  rewrite (retries_at_alter_ne f i j s Hne). done.
Qed.

Lemma within_budget_attempt_ne i k s :
  startup_of i (Attempt k false false) = false →
  within_budget n i s →
  within_budget n i (with_attempts (λ l, l ++ [Attempt k false false]) s).
Proof.
  intros Hk. unfold within_budget, racing, waiting, connects, retries_at. simpl.
  rewrite !count_app, !count_cons, Hk. simpl.
  change (count _ []) with 0. by rewrite !Nat.add_0_r.
Qed.

Ltac budget_prim Hne :=
  idtac;
  lazymatch goal with
  | |- preserves _ (modify (with_timeouts (λ l, l ++ [_]))) =>
      apply preserves_modify; intros ? ?; by apply within_budget_retry_ne
  | |- preserves _ (modify _) =>
      apply preserves_modify; intros ? ?;
      eapply within_budget_view; [reflexivity | reflexivity | reflexivity | eassumption]
  | |- preserves _ (removeHost _) =>
      unfold removeHost; apply preserves_modify; intros ? ?;
      eapply within_budget_view; [reflexivity | reflexivity | reflexivity | eassumption]
  | |- preserves _ (update_host _ _) =>
      unfold update_host; apply preserves_modify; intros ? ?;
      eapply within_budget_view; [reflexivity | reflexivity | reflexivity | eassumption]
  | |- preserves _ (alloc _) =>
      apply preserves_alloc; intros ? ?;
      eapply within_budget_view; [reflexivity | reflexivity | reflexivity | eassumption]
  | |- preserves _ (update_tentative _ _) =>
      unfold update_tentative; apply preserves_modify; intros ? ?;
      by apply within_budget_alter_tentative_ne
  | |- preserves _ (new_attempt _) =>
      unfold new_attempt; apply preserves_modify; intros ? ?;
      apply within_budget_attempt_ne; [|assumption];
      first [ reflexivity | simpl; by apply Nat.eqb_neq ]
  | |- preserves _ (emitHookWarning _ _) =>
      apply preserves_emitHookWarning; intros;
      (eapply within_budget_view; [reflexivity | reflexivity | reflexivity | eassumption])
  end.

(** What another tentative host does leaves the budget of [i] alone. *)
Lemma within_budget_startup_catch_ne i j :
  i ≠ j → preserves (within_budget n i) (startup_catch j).
Proof. intros Hne. pres_with ltac:(budget_prim Hne). Qed.

Lemma within_budget_startup_try_ne i j h :
  i ≠ j → preserves (within_budget n i) (startup_try j h).
Proof. intros Hne. pres_with ltac:(budget_prim Hne). Qed.

Lemma within_budget_tryToConnect_ne i j :
  i ≠ j → preserves (within_budget n i) (tryToConnect j).
Proof. intros Hne. pres_with ltac:(budget_prim Hne). Qed.

Lemma within_budget__onDisconnection i r : preserves (within_budget n i) (_onDisconnection r).
Proof. pres_with ltac:(budget_prim I). Qed.

Lemma within_budget__onReconnection i b r :
  preserves (within_budget n i) (_onReconnection b r).
Proof. pres_with ltac:(budget_prim I). Qed.

Lemma within_budget_reconnect_then i r hid :
  preserves (within_budget n i) (reconnect_then r hid).
Proof. pres_with ltac:(budget_prim I). Qed.

Lemma within_budget_probe_settled i r ok :
  preserves (within_budget n i) (probe_settled r ok).
Proof. pres_with ltac:(budget_prim I). Qed.

Lemma hoare_try_catch {A} (P R Q : monitor → Prop) (m : M A) (k : exn → M A) :
  hoare P R m → (∀ s, R s → Q s) → (∀ e, hoare R Q (k e)) → hoare P Q (try_catch m k).
Proof.
  intros Hm HRQ Hk s H. unfold try_catch.
  specialize (Hm s H). destruct (m s) as [[a|e] s']; simpl in *.
  - by apply HRQ.
  - by apply Hk.
Qed.

(** The [catch] block of [tryToConnect] pays for the connect that failed
    and arms the one retry timer. *)
Lemma startup_catch_budget i : hoare (race_over n i) (within_budget n i) (startup_catch i).
Proof.
  intros s (Hr & Hw & Hlt & Hc).
  unfold startup_catch, read_tentative, update_tentative. run_handler.
  destruct (tentativeHosts s !! i) as [t|] eqn:Ht; simpl;
    [|by apply race_over_within_budget].
  rewrite list_lookup_alter_eq, Ht. simpl.
  assert (HR : retries_at i s = retries t).
  { unfold retries_at. by rewrite list_lookup_fmap, Ht. }
  destruct (startupFailureNotified t); simpl.
  2: destruct (request env (hook_calls s)); simpl.
  all: unfold within_budget, racing, waiting, connects, retries_at in *; simpl.
  all: rewrite ?count_app, ?count_cons, ?Nat.eqb_refl, ?list_lookup_fmap,
         ?list_lookup_alter_eq, ?Ht; simpl.
  all: change (count (Nat.eqb i) []) with 0.
  all: rewrite ?list_lookup_alter_eq, ?Ht; simpl.
  all: lia.
Qed.

Lemma race_over_alter_flag b i j s :
  race_over n i s →
  race_over n i (with_tentativeHosts (alter (set_startupFailureNotified b) j) s).
Proof.
  apply race_over_view; [done | done | apply retries_alter_flag].
Qed.

Ltac race_over_prim :=
  idtac;
  lazymatch goal with
  | |- preserves _ (modify _) =>
      apply preserves_modify; intros ? ?;
      eapply race_over_view; [reflexivity | reflexivity | reflexivity | eassumption]
  | |- preserves _ (removeHost _) =>
      unfold removeHost; apply preserves_modify; intros ? ?;
      eapply race_over_view; [reflexivity | reflexivity | reflexivity | eassumption]
  | |- preserves _ (update_host _ _) =>
      unfold update_host; apply preserves_modify; intros ? ?;
      eapply race_over_view; [reflexivity | reflexivity | reflexivity | eassumption]
  | |- preserves _ (alloc _) =>
      apply preserves_alloc; intros ? ?;
      eapply race_over_view; [reflexivity | reflexivity | reflexivity | eassumption]
  | |- preserves _ (update_tentative _ (set_startupFailureNotified _)) =>
      unfold update_tentative; apply preserves_modify; intros ? ?;
      by apply race_over_alter_flag
  | |- preserves _ (emitHookWarning _ _) =>
      apply preserves_emitHookWarning; intros;
      (eapply race_over_view; [reflexivity | reflexivity | reflexivity | eassumption])
  end.

(** A connect that succeeded costs nothing, unless the rest of the [try]
    block throws and the [catch] block runs. *)
Lemma startup_try_budget i h : hoare (race_over n i) (within_budget n i) (startup_try i h).
Proof.
  unfold startup_try. apply (hoare_try_catch _ (race_over n i)).
  - apply hoare_preserves. pres_with race_over_prim.
  - apply race_over_within_budget.
  - intros _. apply startup_catch_budget.
Qed.

Lemma tryToConnect_budget i : hoare (retry_due n i) (within_budget n i) (tryToConnect i).
Proof.
  intros s (Hr & Hw & Hle & Hc).
  unfold tryToConnect, read_tentative, _hostStarted, new_attempt, below_bound.
  rewrite retries_bounded. run_handler.
  destruct (tentativeHosts s !! i) as [t|] eqn:Ht; simpl;
    [|by apply retry_due_within_budget].
  assert (HR : retries_at i s = retries t).
  { unfold retries_at. by rewrite list_lookup_fmap, Ht. }
  destruct (Nat.ltb_spec (retries t) n) as [Hlt|Hge]; simpl;
    [|by apply retry_due_within_budget].
  destruct (existsb _ (hosts s)); simpl; [by apply retry_due_within_budget|].
  unfold within_budget, racing, waiting, connects, retries_at in *; simpl.
  rewrite !count_app, !count_cons.
  cbn [startup_of kind race_settled connect_fired failOver_fired orb negb].
  rewrite Nat.eqb_refl. cbn [andb]. change (count _ []) with 0. lia.
Qed.

(** Settling a race: the other races are as they were. *)
Lemma within_budget_settle f a i s :
  (∀ x, kind (f x) = kind x) → (∀ x, race_settled (f x) = true) →
  within_budget n i s → within_budget n i (with_attempts (alter f a) s).
Proof.
  intros Hk Hs. unfold within_budget, racing, waiting, connects, retries_at. simpl.
  rewrite (count_alter_same (startup_of i)); [|intros x _; unfold startup_of; by rewrite Hk].
  destruct (attempts s !! a) as [att|] eqn:Ha.
  - pose proof (count_alter (λ a, startup_of i a && negb (race_settled a)) f a _ att Ha) as Hc.
    cbv beta in Hc. rewrite (Hs att), andb_false_r in Hc.
    destruct (startup_of i att && negb (race_settled att)); lia.
  - rewrite (count_alter_same (λ a, startup_of i a && negb (race_settled a))); [done|].
    intros x Hx. by rewrite Ha in Hx.
Qed.

Lemma race_over_settle f a att i u p s :
  (∀ x, kind (f x) = kind x) → (∀ x, race_settled (f x) = true) →
  attempts s !! a = Some att → kind att = Startup i u p → race_settled att = false →
  within_budget n i s → race_over n i (with_attempts (alter f a) s).
Proof.
  intros Hk Hs Ha Hkind Hrace.
  unfold within_budget, race_over, racing, waiting, connects, retries_at. simpl.
  rewrite (count_alter_same (startup_of i)); [|intros x _; unfold startup_of; by rewrite Hk].
  pose proof (count_alter (λ a, startup_of i a && negb (race_settled a)) f a _ att Ha) as Hc.
  cbv beta in Hc. rewrite (Hs att), andb_false_r in Hc.
  unfold startup_of in Hc at 2. rewrite Hkind, Hrace, Nat.eqb_refl in Hc. simpl in Hc.
  lia.
Qed.

Lemma retry_due_fired i s :
  i ∈ timeouts s → within_budget n i s →
  retry_due n i (with_timeouts (remove_first i) s).
Proof.
  intros Hin. unfold within_budget, retry_due, racing, waiting, connects, retries_at. simpl.
  rewrite (count_remove_first i _ Hin). lia.
Qed.

Lemma within_budget_fired_ne i j s :
  i ≠ j → within_budget n i s → within_budget n i (with_timeouts (remove_first j) s).
Proof.
  intros Hne. unfold within_budget, racing, waiting, connects, retries_at. simpl.
  by rewrite (count_remove_first_ne i j _ Hne).
Qed.

Ltac by_budget H :=
  match goal with
  | |- within_budget n ?i (?m _).2 =>
      let Hp := fresh in
      enough (Hp : preserves (within_budget n i) m) by (apply Hp, H);
      pres_with ltac:(budget_prim I)
  end.

(** Every turn keeps every tentative host within its budget. *)
Lemma within_budget_step i e s : within_budget n i s → within_budget n i (step e s).
Proof.
  intros H. unfold step. destruct (enabled e s) eqn:He; [|done].
  destruct e as [a res|a|j|c r|c r b|t|r ok]; unfold fire.
  - rewrite bind_gets. destruct (attempts s !! a) as [att|] eqn:Hatt; [|done].
    unfold connect_callback. rewrite bind_modify.
    pose proof (within_budget_settle connect_done a i s connect_done_kind
                  connect_done_settled H) as H1.
    destruct (kind att) as [j u p|r hid] eqn:Hkind.
    + destruct (race_settled att) eqn:Hrace; [by destruct res|].
      destruct (decide (i = j)) as [<-|Hne].
      * pose proof (race_over_settle connect_done a att i u p s connect_done_kind
                      connect_done_settled Hatt Hkind Hrace H) as H2.
        destruct res as [|c token];
          [by apply startup_catch_budget | by apply startup_try_budget].
      * destruct res as [|c token];
          [by apply within_budget_startup_catch_ne | by apply within_budget_startup_try_ne].
    + destruct res as [|c token]; [done|]. by_budget H1.
  - rewrite bind_gets. destruct (attempts s !! a) as [att|] eqn:Hatt; [|done].
    unfold failOver. rewrite bind_modify.
    pose proof (within_budget_settle failOver_done a i s failOver_done_kind
                  failOver_done_settled H) as H1.
    destruct (race_settled att) eqn:Hrace; [done|].
    destruct (kind att) as [j u p|r hid] eqn:Hkind; [|done].
    destruct (decide (i = j)) as [<-|Hne].
    + apply startup_catch_budget.
      by apply (race_over_settle failOver_done a att i u p s failOver_done_kind
                  failOver_done_settled).
    + by apply within_budget_startup_catch_ne.
  - rewrite bind_modify. simpl in He. apply bool_decide_eq_true in He.
    destruct (decide (i = j)) as [<-|Hne].
    + by apply tryToConnect_budget, retry_due_fired.
    + by apply within_budget_tryToConnect_ne, within_budget_fired_ne.
  - by apply within_budget__onDisconnection.
  - by apply within_budget__onReconnection.
  - by_budget H.
  - by apply within_budget_probe_settled.
Qed.

Lemma within_budget_run i es s : within_budget n i s → within_budget n i (run es s).
Proof.
  revert s. induction es as [|e es IH]; intros s H; [done|].
  apply IH. by apply within_budget_step.
Qed.

Lemma tryToConnect_effect j s :
  (tryToConnect j s).2 = s
  ∨ ∃ u p, (tryToConnect j s).2
           = with_attempts (λ l, l ++ [Attempt (Startup j u p) false false]) s.
Proof.
  unfold tryToConnect, read_tentative, _hostStarted, new_attempt. run_handler.
  destruct (tentativeHosts s !! j) as [t|]; simpl; [|by left].
  destruct (below_bound (retries t)); simpl; [|by left].
  destruct (existsb _ (hosts s)); simpl; [by left|].
  right. by exists (th_url t), (th_ip t).
Qed.

Lemma retry_due_tryToConnect_ne i j s :
  i ≠ j → retry_due n i s → retry_due n i (tryToConnect j s).2.
Proof.
  intros Hne H. destruct (tryToConnect_effect j s) as [->|(u & p & ->)]; [done|].
  revert H. unfold retry_due, racing, waiting, connects, retries_at. simpl.
  rewrite !count_app, !count_cons.
  cbn [startup_of kind]. destruct (Nat.eqb_spec j i) as [->|_]; [done|].
  cbn [andb]. change (count _ []) with 0. by rewrite !Nat.add_0_r.
Qed.

Lemma within_budget_forEach i m k s :
  (k ≤ i → retry_due n i s)%nat → (i < k → within_budget n i s) →
  within_budget n i (forEach tryToConnect (seq k m) s).2.
Proof.
  revert k s. induction m as [|m IH]; intros k s Hdue Hin.
  - simpl. destruct (Nat.le_gt_cases k i) as [Hle|Hlt];
      [by apply retry_due_within_budget, Hdue | by apply Hin].
  - change (seq k (S m)) with (k :: seq (S k) m). rewrite forEach_cons_state.
    apply IH.
    + intros Hle. apply retry_due_tryToConnect_ne; [lia|]. apply Hdue. lia.
    + intros Hlt. destruct (decide (i = k)) as [->|Hne].
      * apply tryToConnect_budget, Hdue. lia.
      * apply within_budget_tryToConnect_ne; [done|]. apply Hin. lia.
Qed.

Lemma within_budget_startHosts i : within_budget n i startHosts.
Proof.
  apply within_budget_forEach; [|lia]. intros _.
  unfold retry_due, racing, waiting, connects, retries_at, constructed. simpl.
  rewrite <- list_fmap_compose, list_lookup_fmap.
  destruct (KMS_ARRAY env !! i); simpl; unfold count; simpl; lia.
Qed.

(** With [kurentoStartupRetries] = [n], in every run and for every
    configured entry: [tryToConnect] starts at most [n] connects, [retries]
    never exceeds [n], and at any time there is at most one startup race or
    one pending retry timer. *)
Theorem startup_connects_bounded (es : list event) (i : nat) :
  (connects i (run es startHosts) ≤ n)%nat
  ∧ (retries_at i (run es startHosts) ≤ n)%nat
  ∧ (racing i (run es startHosts) + waiting i (run es startHosts) ≤ 1)%nat.
Proof.
  destruct (within_budget_run i es startHosts (within_budget_startHosts i))
    as (H1 & _ & _ & H4 & H5).
  done.
Qed.

End StartupBudget.

(** ** Alerts that come in pairs *)

Lemma unmatched_snoc o c l x : unmatched o c (l ++ [x]) = scan o c (unmatched o c l) x.
Proof. unfold unmatched. by rewrite fold_left_app. Qed.

Lemma occurrences_snoc x l y :
  occurrences x (l ++ [y]) = occurrences x l + (if bool_decide (y = x) then 1 else 0).
Proof.
  unfold occurrences. rewrite count_app, count_cons.
  change (count _ []) with 0. lia.
Qed.

Lemma unmatched_occurrences o c l k :
  o ≠ c → unmatched o c l = Some k →
  k + occurrences c l = occurrences o l
  ∧ ∀ m, (occurrences c (take m l) ≤ occurrences o (take m l))%nat.
Proof.
  intros Hoc. revert k. induction l as [|x l IH] using rev_ind; intros k Hk.
  - injection Hk as <-. split; [done|]. intros m. by rewrite take_nil.
  - rewrite unmatched_snoc in Hk.
    destruct (unmatched o c l) as [k0|] eqn:Hl; [|done].
    destruct (IH k0 eq_refl) as [Heq Hpre]. simpl in Hk.
    assert (Hall : k + occurrences c (l ++ [x]) = occurrences o (l ++ [x])).
    { rewrite !occurrences_snoc.
      destruct (bool_decide_reflect (x = o)) as [->|Hxo].
      - injection Hk as <-. rewrite bool_decide_eq_false_2 by done. lia.
      - destruct (bool_decide_reflect (x = c)) as [->|Hxc].
        + destruct k0 as [|k0]; [done|]. injection Hk as <-. lia.
        + injection Hk as <-. lia. }
    split; [exact Hall|]. intros m.
    destruct (Nat.le_gt_cases m (length l)) as [Hle|Hgt].
    + rewrite take_app_le by done. apply Hpre.
    + rewrite take_ge by (rewrite length_app; simpl; lia). lia.
Qed.

Section Paired.

Variables o c : hook_event * string.
Variable pending : monitor → nat.

Lemma balanced_view s s' :
  outbox s' = outbox s → pending s' = pending s →
  balanced o c pending s → balanced o c pending s'.
Proof. unfold balanced. by intros -> ->. Qed.

(** An alert that is neither [o] nor [c]. *)
Lemma balanced_other x s s' :
  x ≠ o → x ≠ c → outbox s' = outbox s ++ [x] → pending s' = pending s →
  balanced o c pending s → balanced o c pending s'.
Proof.
  intros Hxo Hxc Hout Hp (k & Hk & Hle). exists k.
  rewrite Hout, unmatched_snoc, Hk, Hp. simpl.
  by rewrite !bool_decide_eq_false_2.
Qed.

(** [o] is issued and a flag is set. *)
Lemma balanced_open s s' :
  outbox s' = outbox s ++ [o] → (pending s' ≤ S (pending s))%nat →
  balanced o c pending s → balanced o c pending s'.
Proof.
  intros Hout Hp (k & Hk & Hle). exists (S k).
  rewrite Hout, unmatched_snoc, Hk. simpl.
  rewrite bool_decide_eq_true_2 by done. split; [done|lia].
Qed.

(** [c] is issued as a flag is cleared. *)
Lemma balanced_close s s' :
  o ≠ c → outbox s' = outbox s ++ [c] → S (pending s') = pending s →
  balanced o c pending s → balanced o c pending s'.
Proof.
  intros Hoc Hout Hp (k & Hk & Hle). destruct k as [|k]; [lia|]. exists k.
  rewrite Hout, unmatched_snoc, Hk. simpl.
  rewrite bool_decide_eq_false_2 by done.
  rewrite bool_decide_eq_true_2 by done. split; [done|lia].
Qed.

(** A flag is cleared, or nothing changes, and no alert is issued. *)
Lemma balanced_less s s' :
  outbox s' = outbox s → (pending s' ≤ pending s)%nat →
  balanced o c pending s → balanced o c pending s'.
Proof.
  intros Hout Hp (k & Hk & Hle). exists k. rewrite Hout. split; [done|lia].
Qed.

End Paired.

Lemma string_app_inj (s a b : string) : (s ++ a)%string = (s ++ b)%string → a = b.
Proof. induction s as [|ch s IH]; simpl; [done|]. intros [=]. by apply IH. Qed.

Lemma alert_text_about ev u p u' p' :
  alert_text ev u' p' = alert_text ev u p ↔ about u p u' p' = true.
Proof.
  unfold about. rewrite bool_decide_eq_true. unfold alert_text, subject. split.
  - intros H. by do 4 apply string_app_inj in H.
  - by intros ->.
Qed.

Lemma alert_about ev ev' u p u' p' :
  (ev', alert_text ev' u' p') = (ev, alert_text ev u p)
  ↔ ev' = ev ∧ about u p u' p' = true.
Proof.
  split.
  - intros [= -> H]. split; [done|]. by apply alert_text_about in H.
  - intros [-> H]. f_equal. by apply alert_text_about.
Qed.

(** *** STARTUP_CONNECT_SUCCESS only after STARTUP_CONNECT_FAILURE *)

Section StartupAlerts.

Variables u p : string.

#[local, warnings="-notation-for-abbreviation"]
Notation o := (STARTUP_CONNECT_FAILURE, alert_text STARTUP_CONNECT_FAILURE u p).
#[local, warnings="-notation-for-abbreviation"]
Notation c := (STARTUP_CONNECT_SUCCESS, alert_text STARTUP_CONNECT_SUCCESS u p).

Lemma startup_flagged_alter f i t s :
  tentativeHosts s !! i = Some t →
  th_url (f t) = th_url t → th_ip (f t) = th_ip t →
  startup_flagged u p (with_tentativeHosts (alter f i) s)
  + (if startupFailureNotified t && about u p (th_url t) (th_ip t) then 1 else 0)
  = startup_flagged u p s
    + (if startupFailureNotified (f t) && about u p (th_url t) (th_ip t) then 1 else 0).
Proof.
  intros Ht Hu Hp. unfold startup_flagged. simpl.
  pose proof (count_alter (λ t, startupFailureNotified t && about u p (th_url t) (th_ip t))
                f i _ t Ht) as H.
  cbv beta in H. by rewrite Hu, Hp in H.
Qed.

Lemma startup_retries_set k i s1 s2 :
  outbox s2 = outbox s1 →
  tentativeHosts s2 = alter (set_retries k) i (tentativeHosts s1) →
  balanced o c (startup_flagged u p) s1 → balanced o c (startup_flagged u p) s2.
Proof.
  intros Hout Hth. apply balanced_view; [done|].
  unfold startup_flagged. rewrite Hth. apply count_alter_same. by intros [].
Qed.

Lemma startup_failure_issued i t s1 s2 :
  tentativeHosts s1 !! i = Some t → startupFailureNotified t = false →
  outbox s2 = outbox s1 ++ [(STARTUP_CONNECT_FAILURE,
                             alert_text STARTUP_CONNECT_FAILURE (th_url t) (th_ip t))] →
  tentativeHosts s2 = alter (set_startupFailureNotified true) i (tentativeHosts s1) →
  balanced o c (startup_flagged u p) s1 → balanced o c (startup_flagged u p) s2.
Proof.
  intros Ht Hf Hout Hth.
  pose proof (startup_flagged_alter (set_startupFailureNotified true) i t s1 Ht
                eq_refl eq_refl) as Hc.
  rewrite Hf in Hc. simpl in Hc.
  assert (Hp : startup_flagged u p s2
               = startup_flagged u p (with_tentativeHosts
                   (alter (set_startupFailureNotified true) i) s1)).
  { unfold startup_flagged. by rewrite Hth. }
  destruct (about u p (th_url t) (th_ip t)) eqn:Hab.
  - apply balanced_open; [|lia]. rewrite Hout. do 2 f_equal.
    by apply alert_about.
  - intros Hb. eapply balanced_other; [| | exact Hout | lia | exact Hb]; intros H.
    + apply alert_about in H as [_ H]. congruence.
    + by apply alert_about in H as [H _].
Qed.

Lemma startup_flag_cleared i s1 s2 :
  outbox s2 = outbox s1 →
  tentativeHosts s2 = alter (set_startupFailureNotified false) i (tentativeHosts s1) →
  balanced o c (startup_flagged u p) s1 → balanced o c (startup_flagged u p) s2.
Proof.
  intros Hout Hth. apply balanced_less; [done|].
  unfold startup_flagged. rewrite Hth.
  destruct (tentativeHosts s1 !! i) as [t|] eqn:Ht.
  - pose proof (count_alter (λ t, startupFailureNotified t && about u p (th_url t) (th_ip t))
                  (set_startupFailureNotified false) i _ t Ht) as Hc.
    simpl in Hc. lia.
  - rewrite count_alter_same; [done|]. intros x Hx. by rewrite Ht in Hx.
Qed.

Lemma startup_success_issued i t s1 s2 :
  tentativeHosts s1 !! i = Some t → startupFailureNotified t = true →
  outbox s2 = outbox s1 ++ [(STARTUP_CONNECT_SUCCESS,
                             alert_text STARTUP_CONNECT_SUCCESS (th_url t) (th_ip t))] →
  tentativeHosts s2 = alter (set_startupFailureNotified false) i (tentativeHosts s1) →
  balanced o c (startup_flagged u p) s1 → balanced o c (startup_flagged u p) s2.
Proof.
  intros Ht Hf Hout Hth.
  pose proof (startup_flagged_alter (set_startupFailureNotified false) i t s1 Ht
                eq_refl eq_refl) as Hc.
  rewrite Hf in Hc. simpl in Hc.
  assert (Hp : startup_flagged u p s2
               = startup_flagged u p (with_tentativeHosts
                   (alter (set_startupFailureNotified false) i) s1)).
  { unfold startup_flagged. by rewrite Hth. }
  destruct (about u p (th_url t) (th_ip t)) eqn:Hab.
  - apply balanced_close; [done| |lia]. rewrite Hout. do 2 f_equal.
    by apply alert_about.
  - intros Hb. eapply balanced_other; [| | exact Hout | lia | exact Hb]; intros H.
    + by apply alert_about in H as [H _].
    + apply alert_about in H as [_ H]. congruence.
Qed.

Lemma balanced_startup_catch i :
  preserves (balanced o c (startup_flagged u p)) (startup_catch i).
Proof.
  intros s H. unfold startup_catch, read_tentative, update_tentative. run_handler.
  destruct (tentativeHosts s !! i) as [t|] eqn:Ht; simpl; [|done].
  rewrite list_lookup_alter_eq, Ht. simpl.
  set (s1 := with_tentativeHosts (alter (set_retries (S (retries t))) i) s).
  assert (H1 : balanced o c (startup_flagged u p) s1).
  { by apply (startup_retries_set (S (retries t)) i s). }
  assert (Ht1 : tentativeHosts s1 !! i = Some (set_retries (S (retries t)) t)).
  { simpl. by rewrite list_lookup_alter_eq, Ht. }
  destruct (startupFailureNotified t) eqn:Hf; simpl.
  2: destruct (request env (hook_calls s)) eqn:Hreq; simpl.
  - by apply (balanced_view _ _ _ s1).
  - by apply (startup_failure_issued i _ s1 _ Ht1).
  - by apply (balanced_view _ _ _ s1).
Qed.

Lemma balanced_startup_try i h :
  preserves (balanced o c (startup_flagged u p)) (startup_try i h).
Proof.
  unfold startup_try. apply preserves_try_catch; [|intros _; apply balanced_startup_catch].
  intros s H. unfold _monitorConnectionState, addHost, alloc, healthcheck.
  run_handler.
  rewrite lookup_app_r by done. rewrite Nat.sub_diag. simpl.
  rewrite lookup_app_r by done. rewrite Nat.sub_diag. simpl.
  unfold read_tentative. simpl.
  destruct (tentativeHosts s !! i) as [t|] eqn:Ht; simpl;
    [|by apply (balanced_view _ _ _ s)].
  unfold update_tentative. run_handler.
  destruct (startupFailureNotified t) eqn:Hf; simpl.
  1: destruct (request env (hook_calls s)) eqn:Hreq; simpl.
  all: destruct (ENABLE_HEALTHCHECK env); simpl.
  all: rewrite ?lookup_app_r by done; rewrite ?Nat.sub_diag; simpl.
  all: try (destruct (healthcheckerInterval h); simpl).
  all: first [ by apply (balanced_view _ _ _ s)
             | by apply (startup_success_issued i t s)
             | by apply (startup_flag_cleared i s) ].
Qed.

Ltac startup_alerts_prim :=
  idtac;
  lazymatch goal with
  | |- preserves _ (startup_catch _) => apply balanced_startup_catch
  | |- preserves _ (startup_try _ _) => apply balanced_startup_try
  | |- preserves _ (modify _) =>
      let s := fresh in let H := fresh in
      apply preserves_modify; intros s H;
      apply (balanced_view _ _ _ s); [reflexivity | reflexivity | exact H]
  | |- preserves _ (removeHost _) =>
      let s := fresh in let H := fresh in
      unfold removeHost; apply preserves_modify; intros s H;
      apply (balanced_view _ _ _ s); [reflexivity | reflexivity | exact H]
  | |- preserves _ (update_host _ _) =>
      let s := fresh in let H := fresh in
      unfold update_host; apply preserves_modify; intros s H;
      apply (balanced_view _ _ _ s); [reflexivity | reflexivity | exact H]
  | |- preserves _ (new_attempt _) =>
      let s := fresh in let H := fresh in
      unfold new_attempt; apply preserves_modify; intros s H;
      apply (balanced_view _ _ _ s); [reflexivity | reflexivity | exact H]
  | |- preserves _ (emitHookWarning _ _) =>
      let s := fresh in let H := fresh in
      intros s H; unfold emitHookWarning;
      destruct (request env (hook_calls s)); simpl;
      [ eapply balanced_other; [| | reflexivity | reflexivity | exact H]; by intros [=]
      | apply (balanced_view _ _ _ s); [reflexivity | reflexivity | exact H] ]
  end.

Lemma balanced_startup_fire e : preserves (balanced o c (startup_flagged u p)) (fire e).
Proof. destruct e; pres_with startup_alerts_prim. Qed.

Lemma balanced_startup_startHosts : balanced o c (startup_flagged u p) startHosts.
Proof.
  unfold startHosts. apply preserves_forEach.
  - intros i. pres_with startup_alerts_prim.
  - exists 0. split; [done|]. unfold startup_flagged, constructed. simpl.
    induction (KMS_ARRAY env) as [|x l IH]; [done|]. simpl. by rewrite count_cons.
Qed.

(** In the alerts of every run, read oldest first, the
    STARTUP_CONNECT_SUCCESS alerts about a host never outnumber the
    STARTUP_CONNECT_FAILURE alerts about it: a success is announced only
    after a failure that no success has answered yet. *)
Theorem startup_success_only_after_failure (es : list event) (m : nat) :
  (occurrences c (take m (outbox (run es startHosts)))
   ≤ occurrences o (take m (outbox (run es startHosts))))%nat.
Proof.
  destruct (invariant_run _ es startHosts balanced_startup_fire balanced_startup_startHosts)
    as (k & Hk & _).
  by apply (unmatched_occurrences o c _ k).
Qed.

End StartupAlerts.

(** *** Alerts paired by a flag of the host object *)

Section HostAlerts.

Variable flagof : host → bool.
Variable setf : bool → host → host.
Variables ev_o ev_c : hook_event.
Variables u p : string.
Hypothesis flagof_setf : ∀ b h, flagof (setf b h) = b.
Hypothesis url_setf : ∀ b h, url (setf b h) = url h.
Hypothesis ip_setf : ∀ b h, ip (setf b h) = ip h.
Hypothesis ev_o_c : ev_o ≠ ev_c.

#[local, warnings="-notation-for-abbreviation"]
Notation flagged := (λ s, count (λ h, flagof h && about u p (url h) (ip h)) (heap s)).
#[local, warnings="-notation-for-abbreviation"]
Notation paired := (balanced (ev_o, alert_text ev_o u p) (ev_c, alert_text ev_c u p) flagged).

Lemma host_flagged_alter f r h (l : list host) :
  l !! r = Some h → url (f h) = url h → ip (f h) = ip h →
  count (λ h, flagof h && about u p (url h) (ip h)) (alter f r l)
  + (if flagof h && about u p (url h) (ip h) then 1 else 0)
  = count (λ h, flagof h && about u p (url h) (ip h)) l
    + (if flagof (f h) && about u p (url h) (ip h) then 1 else 0).
Proof.
  intros Hh Hu Hp.
  pose proof (count_alter (λ h, flagof h && about u p (url h) (ip h)) f r _ h Hh) as H.
  cbv beta in H. by rewrite Hu, Hp in H.
Qed.

(** A host object is changed in what the alerts do not look at. *)
Lemma paired_alter f r s1 s2 :
  (∀ h, flagof (f h) = flagof h ∧ url (f h) = url h ∧ ip (f h) = ip h) →
  outbox s2 = outbox s1 → heap s2 = alter f r (heap s1) →
  paired s1 → paired s2.
Proof.
  intros Hf Hout Hheap. apply balanced_view; [done|]. rewrite Hheap.
  apply count_alter_same. intros h _. by destruct (Hf h) as (-> & -> & ->).
Qed.

(** A host object whose flag is clear is created. *)
Lemma paired_alloc h s1 s2 :
  flagof h = false → outbox s2 = outbox s1 → heap s2 = heap s1 ++ [h] →
  paired s1 → paired s2.
Proof.
  intros Hf Hout Hheap. apply balanced_view; [done|]. rewrite Hheap.
  rewrite count_app, count_cons, Hf. simpl. change (count _ []) with 0. lia.
Qed.

Lemma paired_opened r h s1 s2 :
  heap s1 !! r = Some h → flagof h = false →
  outbox s2 = outbox s1 ++ [(ev_o, alert_text ev_o (url h) (ip h))] →
  heap s2 = alter (setf true) r (heap s1) →
  paired s1 → paired s2.
Proof.
  intros Hh Hf Hout Hheap.
  pose proof (host_flagged_alter (setf true) r h _ Hh (url_setf _ _) (ip_setf _ _)) as Hc.
  rewrite Hf, flagof_setf in Hc. simpl in Hc.
  destruct (about u p (url h) (ip h)) eqn:Hab.
  - apply balanced_open; [|rewrite Hheap; lia]. rewrite Hout. do 2 f_equal.
    by apply alert_about.
  - intros Hb. eapply balanced_other; [| | exact Hout | rewrite Hheap; lia | exact Hb];
      intros H.
    + apply alert_about in H as [_ H]. congruence.
    + by apply alert_about in H as [H _].
Qed.

Lemma paired_closed r h s1 s2 :
  heap s1 !! r = Some h → flagof h = true →
  outbox s2 = outbox s1 ++ [(ev_c, alert_text ev_c (url h) (ip h))] →
  heap s2 = alter (setf false) r (heap s1) →
  paired s1 → paired s2.
Proof.
  intros Hh Hf Hout Hheap.
  pose proof (host_flagged_alter (setf false) r h _ Hh (url_setf _ _) (ip_setf _ _)) as Hc.
  rewrite Hf, flagof_setf in Hc. simpl in Hc.
  destruct (about u p (url h) (ip h)) eqn:Hab.
  - apply balanced_close; [by intros [=]| |rewrite Hheap; lia]. rewrite Hout. do 2 f_equal.
    by apply alert_about.
  - intros Hb. eapply balanced_other; [| | exact Hout | rewrite Hheap; lia | exact Hb];
      intros H.
    + by apply alert_about in H as [H _].
    + apply alert_about in H as [_ H]. congruence.
Qed.

(** A flag is cleared and no alert is issued. *)
Lemma paired_cleared r s1 s2 :
  outbox s2 = outbox s1 → heap s2 = alter (setf false) r (heap s1) →
  paired s1 → paired s2.
Proof.
  intros Hout Hheap. apply balanced_less; [done|]. rewrite Hheap.
  destruct (heap s1 !! r) as [h|] eqn:Hh.
  - pose proof (host_flagged_alter (setf false) r h _ Hh (url_setf _ _) (ip_setf _ _)) as Hc.
    rewrite flagof_setf in Hc. simpl in Hc. lia.
  - rewrite count_alter_same; [done|]. intros x Hx. by rewrite Hh in Hx.
Qed.

End HostAlerts.

(** *** WS_CONN_HEALTHY only after WS_CONN_UNHEALTHY *)

Section HealthAlerts.

Variables u p : string.

#[local, warnings="-notation-for-abbreviation"]
Notation o := (WS_CONN_UNHEALTHY, alert_text WS_CONN_UNHEALTHY u p).
#[local, warnings="-notation-for-abbreviation"]
Notation c := (WS_CONN_HEALTHY, alert_text WS_CONN_HEALTHY u p).

Lemma health_alter f r s1 s2 :
  (∀ h, healthcheckFailureNotified (f h) = healthcheckFailureNotified h
        ∧ url (f h) = url h ∧ ip (f h) = ip h) →
  outbox s2 = outbox s1 → heap s2 = alter f r (heap s1) →
  balanced o c (unhealthy_flagged u p) s1 → balanced o c (unhealthy_flagged u p) s2.
Proof. apply paired_alter. Qed.

Lemma health_alloc h s1 s2 :
  healthcheckFailureNotified h = false → outbox s2 = outbox s1 → heap s2 = heap s1 ++ [h] →
  balanced o c (unhealthy_flagged u p) s1 → balanced o c (unhealthy_flagged u p) s2.
Proof. apply paired_alloc. Qed.

Lemma unhealthy_issued r h s1 s2 :
  heap s1 !! r = Some h → healthcheckFailureNotified h = false →
  outbox s2 = outbox s1 ++ [(WS_CONN_UNHEALTHY,
                             alert_text WS_CONN_UNHEALTHY (url h) (ip h))] →
  heap s2 = alter (set_healthcheckFailureNotified true) r (heap s1) →
  balanced o c (unhealthy_flagged u p) s1 → balanced o c (unhealthy_flagged u p) s2.
Proof. by apply (paired_opened healthcheckFailureNotified set_healthcheckFailureNotified). Qed.

Lemma healthy_issued r h s1 s2 :
  heap s1 !! r = Some h → healthcheckFailureNotified h = true →
  outbox s2 = outbox s1 ++ [(WS_CONN_HEALTHY,
                             alert_text WS_CONN_HEALTHY (url h) (ip h))] →
  heap s2 = alter (set_healthcheckFailureNotified false) r (heap s1) →
  balanced o c (unhealthy_flagged u p) s1 → balanced o c (unhealthy_flagged u p) s2.
Proof. by apply (paired_closed healthcheckFailureNotified set_healthcheckFailureNotified). Qed.

Lemma unhealthy_cleared r s1 s2 :
  outbox s2 = outbox s1 →
  heap s2 = alter (set_healthcheckFailureNotified false) r (heap s1) →
  balanced o c (unhealthy_flagged u p) s1 → balanced o c (unhealthy_flagged u p) s2.
Proof. by apply (paired_cleared healthcheckFailureNotified set_healthcheckFailureNotified). Qed.

Lemma balanced_probe_catch r :
  preserves (balanced o c (unhealthy_flagged u p)) (probe_catch r).
Proof.
  intros s H. unfold probe_catch. run_handler.
  destruct (heap s !! r) as [h|] eqn:Hh; simpl; [|done].
  destruct (healthcheckFailureNotified h) eqn:Hf; simpl; [done|].
  destruct (request env (hook_calls s)) eqn:Hreq; simpl.
  - by apply (unhealthy_issued r h s).
  - by apply (balanced_view _ _ _ s).
Qed.

Lemma balanced_probe_settled r ok :
  preserves (balanced o c (unhealthy_flagged u p)) (probe_settled r ok).
Proof.
  unfold probe_settled. destruct ok; [|apply balanced_probe_catch].
  apply preserves_try_catch; [|intros _; apply balanced_probe_catch].
  intros s H. run_handler.
  destruct (heap s !! r) as [h|] eqn:Hh; simpl; [|done].
  destruct (healthcheckFailureNotified h) eqn:Hf; simpl; [|done].
  destruct (request env (hook_calls s)) eqn:Hreq; simpl.
  - by apply (healthy_issued r h s).
  - by apply (unhealthy_cleared r s).
Qed.

Ltac health_alerts_prim :=
  idtac;
  lazymatch goal with
  | |- preserves _ (probe_settled _ _) => apply balanced_probe_settled
  | |- preserves _ (modify _) =>
      let s := fresh in let H := fresh in
      apply preserves_modify; intros s H;
      apply (balanced_view _ _ _ s); [reflexivity | reflexivity | exact H]
  | |- preserves _ (removeHost _) =>
      let s := fresh in let H := fresh in
      unfold removeHost; apply preserves_modify; intros s H;
      apply (balanced_view _ _ _ s); [reflexivity | reflexivity | exact H]
  | |- preserves _ (update_tentative _ _) =>
      let s := fresh in let H := fresh in
      unfold update_tentative; apply preserves_modify; intros s H;
      apply (balanced_view _ _ _ s); [reflexivity | reflexivity | exact H]
  | |- preserves _ (new_attempt _) =>
      let s := fresh in let H := fresh in
      unfold new_attempt; apply preserves_modify; intros s H;
      apply (balanced_view _ _ _ s); [reflexivity | reflexivity | exact H]
  | |- preserves _ (update_host _ ?f) =>
      let s := fresh in let H := fresh in
      unfold update_host; apply preserves_modify; intros s H;
      eapply (health_alter f _ s); [by intros [] | reflexivity | reflexivity | exact H]
  | |- preserves _ (alloc ?h) =>
      let s := fresh in let H := fresh in
      apply preserves_alloc; intros s H;
      apply (health_alloc h s); [reflexivity | reflexivity | reflexivity | exact H]
  | |- preserves _ (emitHookWarning _ _) =>
      let s := fresh in let H := fresh in
      intros s H; unfold emitHookWarning;
      destruct (request env (hook_calls s)); simpl;
      [ eapply balanced_other; [| | reflexivity | reflexivity | exact H]; by intros [=]
      | apply (balanced_view _ _ _ s); [reflexivity | reflexivity | exact H] ]
  end.

Lemma balanced_health_fire e : preserves (balanced o c (unhealthy_flagged u p)) (fire e).
Proof. destruct e; pres_with health_alerts_prim. Qed.

Lemma balanced_health_startHosts : balanced o c (unhealthy_flagged u p) startHosts.
Proof.
  unfold startHosts. apply preserves_forEach.
  - intros i. pres_with health_alerts_prim.
  - by exists 0.
Qed.

(** In the alerts of every run, read oldest first, the WS_CONN_HEALTHY
    alerts about a host never outnumber the WS_CONN_UNHEALTHY alerts about
    it. *)
Theorem healthy_only_after_unhealthy (es : list event) (m : nat) :
  (occurrences c (take m (outbox (run es startHosts)))
   ≤ occurrences o (take m (outbox (run es startHosts))))%nat.
Proof.
  destruct (invariant_run _ es startHosts balanced_health_fire balanced_health_startHosts)
    as (k & Hk & _).
  by apply (unmatched_occurrences o c _ k).
Qed.

End HealthAlerts.

(** *** MEDIA_SERVER_ONLINE only after MEDIA_SERVER_OFFLINE *)

Section MediaAlerts.

Variables u p : string.
Hypothesis endpoint_accepts : ∀ k, request env k = true.

#[local, warnings="-notation-for-abbreviation"]
Notation o := (MEDIA_SERVER_OFFLINE, alert_text MEDIA_SERVER_OFFLINE u p).
#[local, warnings="-notation-for-abbreviation"]
Notation c := (MEDIA_SERVER_ONLINE, alert_text MEDIA_SERVER_ONLINE u p).

Lemma media_alter f r s1 s2 :
  (∀ h, failureNotified (f h) = failureNotified h ∧ url (f h) = url h ∧ ip (f h) = ip h) →
  outbox s2 = outbox s1 → heap s2 = alter f r (heap s1) →
  balanced o c (offline_flagged u p) s1 → balanced o c (offline_flagged u p) s2.
Proof. apply paired_alter. Qed.

Lemma media_alloc h s1 s2 :
  failureNotified h = false → outbox s2 = outbox s1 → heap s2 = heap s1 ++ [h] →
  balanced o c (offline_flagged u p) s1 → balanced o c (offline_flagged u p) s2.
Proof. apply paired_alloc. Qed.

Lemma offline_issued r h s1 s2 :
  heap s1 !! r = Some h → failureNotified h = false →
  outbox s2 = outbox s1 ++ [(MEDIA_SERVER_OFFLINE,
                             alert_text MEDIA_SERVER_OFFLINE (url h) (ip h))] →
  heap s2 = alter (set_failureNotified true) r (heap s1) →
  balanced o c (offline_flagged u p) s1 → balanced o c (offline_flagged u p) s2.
Proof. by apply (paired_opened failureNotified set_failureNotified). Qed.

Lemma online_issued r h s1 s2 :
  heap s1 !! r = Some h → failureNotified h = true →
  outbox s2 = outbox s1 ++ [(MEDIA_SERVER_ONLINE,
                             alert_text MEDIA_SERVER_ONLINE (url h) (ip h))] →
  heap s2 = alter (set_failureNotified false) r (heap s1) →
  balanced o c (offline_flagged u p) s1 → balanced o c (offline_flagged u p) s2.
Proof. by apply (paired_closed failureNotified set_failureNotified). Qed.

Lemma balanced__onDisconnection r :
  preserves (balanced o c (offline_flagged u p)) (_onDisconnection r).
Proof.
  intros s H. unfold _onDisconnection. run_handler.
  destruct (heap s !! r) as [h|] eqn:Hh; simpl; [|done].
  rewrite Hh. simpl.
  destruct (failureNotified h) eqn:Hf; simpl.
  - rewrite list_lookup_alter_eq, Hh. simpl.
    destruct (_reconnectionRoutine s !! id h); simpl.
    all: eapply (media_alter reset_media r s); [by intros [] | reflexivity | reflexivity | done].
  - rewrite endpoint_accepts. simpl.
    rewrite !list_lookup_alter_eq, Hh. simpl.
    set (s1 := with_heap (alter (set_failureNotified true) r)
                 (with_outbox (λ out, out ++ [(MEDIA_SERVER_OFFLINE,
                     alert_text MEDIA_SERVER_OFFLINE (url h) (ip h))]) s)).
    assert (H1 : balanced o c (offline_flagged u p) s1).
    { by apply (offline_issued r h s). }
    destruct (_reconnectionRoutine s !! id h); simpl.
    all: eapply (media_alter reset_media r s1); [by intros [] | reflexivity | reflexivity | done].
Qed.

Lemma balanced__onReconnection b r :
  preserves (balanced o c (offline_flagged u p)) (_onReconnection b r).
Proof.
  destruct b; [|apply balanced__onDisconnection].
  intros s H. unfold _onReconnection. run_handler.
  destruct (heap s !! r) as [h|] eqn:Hh; simpl; [|done].
  by destruct (failureNotified h).
Qed.

Lemma balanced_reconnect_then r hid :
  preserves (balanced o c (offline_flagged u p)) (reconnect_then r hid).
Proof.
  intros s H. unfold reconnect_then, _monitorConnectionState, clear_routine, addHost.
  run_handler.
  destruct (heap s !! r) as [h|] eqn:Hh; simpl.
  2: { destruct (_reconnectionRoutine s !! hid); simpl; by rewrite ?Hh. }
  destruct (_reconnectionRoutine s !! hid); simpl.
  all: rewrite ?Hh; simpl; rewrite ?Hh; simpl.
  all: destruct (failureNotified h) eqn:Hf; simpl; [|done].
  all: rewrite endpoint_accepts; simpl.
  all: by apply (online_issued r h s).
Qed.

Ltac media_alerts_prim :=
  idtac;
  lazymatch goal with
  | |- preserves _ (_onDisconnection _) => apply balanced__onDisconnection
  | |- preserves _ (_onReconnection _ _) => apply balanced__onReconnection
  | |- preserves _ (reconnect_then _ _) => apply balanced_reconnect_then
  | |- preserves _ (modify _) =>
      let s := fresh in let H := fresh in
      apply preserves_modify; intros s H;
      apply (balanced_view _ _ _ s); [reflexivity | reflexivity | exact H]
  | |- preserves _ (removeHost _) =>
      let s := fresh in let H := fresh in
      unfold removeHost; apply preserves_modify; intros s H;
      apply (balanced_view _ _ _ s); [reflexivity | reflexivity | exact H]
  | |- preserves _ (update_tentative _ _) =>
      let s := fresh in let H := fresh in
      unfold update_tentative; apply preserves_modify; intros s H;
      apply (balanced_view _ _ _ s); [reflexivity | reflexivity | exact H]
  | |- preserves _ (new_attempt _) =>
      let s := fresh in let H := fresh in
      unfold new_attempt; apply preserves_modify; intros s H;
      apply (balanced_view _ _ _ s); [reflexivity | reflexivity | exact H]
  | |- preserves _ (update_host _ ?f) =>
      let s := fresh in let H := fresh in
      unfold update_host; apply preserves_modify; intros s H;
      eapply (media_alter f _ s); [by intros [] | reflexivity | reflexivity | exact H]
  | |- preserves _ (alloc ?h) =>
      let s := fresh in let H := fresh in
      apply preserves_alloc; intros s H;
      apply (media_alloc h s); [reflexivity | reflexivity | reflexivity | exact H]
  | |- preserves _ (emitHookWarning _ _) =>
      let s := fresh in let H := fresh in
      intros s H; unfold emitHookWarning;
      destruct (request env (hook_calls s)); simpl;
      [ eapply balanced_other; [| | reflexivity | reflexivity | exact H]; by intros [=]
      | apply (balanced_view _ _ _ s); [reflexivity | reflexivity | exact H] ]
  end.

Lemma balanced_media_fire e : preserves (balanced o c (offline_flagged u p)) (fire e).
Proof. destruct e; pres_with media_alerts_prim. Qed.

Lemma balanced_media_startHosts : balanced o c (offline_flagged u p) startHosts.
Proof.
  unfold startHosts. apply preserves_forEach.
  - intros i. pres_with media_alerts_prim.
  - by exists 0.
Qed.

(** With an endpoint that accepts the requests: in the alerts of every run,
    read oldest first, the MEDIA_SERVER_ONLINE alerts about a host never
    outnumber the MEDIA_SERVER_OFFLINE alerts about it. *)
Theorem online_only_after_offline (es : list event) (m : nat) :
  (occurrences c (take m (outbox (run es startHosts)))
   ≤ occurrences o (take m (outbox (run es startHosts))))%nat.
Proof.
  destruct (invariant_run _ es startHosts balanced_media_fire balanced_media_startHosts)
    as (k & Hk & _).
  by apply (unmatched_occurrences o c _ k).
Qed.

End MediaAlerts.

(** ** The text of the alerts *)

Lemma omap_alter_same {A B} (g : A → option B) (f : A → A) (a : nat) (l : list A) :
  (∀ x, g (f x) = g x) → omap g (alter f a l) = omap g l.
Proof.
  intros Hg. revert a. induction l as [|y l IH]; intros a; [done|].
  destruct a as [|a].
  - change (alter f 0 (y :: l)) with (f y :: l). by rewrite !omap_cons, Hg.
  - change (alter f (S a) (y :: l)) with (y :: alter f a l). by rewrite !omap_cons, IH.
Qed.

Lemma well_formed_view s1 s2 :
  outbox s2 = outbox s1 →
  pair_of <$> heap s2 = pair_of <$> heap s1 →
  (λ t, (th_url t, th_ip t)) <$> tentativeHosts s2
  = (λ t, (th_url t, th_ip t)) <$> tentativeHosts s1 →
  omap startup_pair (attempts s2) = omap startup_pair (attempts s1) →
  well_formed s1 → well_formed s2.
Proof. unfold well_formed. by intros -> -> -> ->. Qed.

Lemma well_formed_emit x s1 s2 :
  outbox s2 = outbox s1 ++ [x] →
  documented x →
  pair_of <$> heap s2 = pair_of <$> heap s1 →
  (λ t, (th_url t, th_ip t)) <$> tentativeHosts s2
  = (λ t, (th_url t, th_ip t)) <$> tentativeHosts s1 →
  omap startup_pair (attempts s2) = omap startup_pair (attempts s1) →
  well_formed s1 → well_formed s2.
Proof.
  unfold well_formed. intros -> Hx -> -> -> (Ho & H). split; [|done].
  apply Forall_app. split; [done|]. by apply Forall_singleton.
Qed.

Lemma well_formed_alloc h s1 s2 :
  pair_of h ∈ KMS_ARRAY env →
  outbox s2 = outbox s1 →
  pair_of <$> heap s2 = (pair_of <$> heap s1) ++ [pair_of h] →
  (λ t, (th_url t, th_ip t)) <$> tentativeHosts s2
  = (λ t, (th_url t, th_ip t)) <$> tentativeHosts s1 →
  omap startup_pair (attempts s2) = omap startup_pair (attempts s1) →
  well_formed s1 → well_formed s2.
Proof.
  unfold well_formed, configured. intros Hin -> -> -> -> (Ho & Hh & H). split; [done|].
  split; [|done]. apply Forall_app. split; [done|]. by apply Forall_singleton.
Qed.

Lemma well_formed_host r h s :
  well_formed s → heap s !! r = Some h → (url h, ip h) ∈ KMS_ARRAY env.
Proof.
  intros (_ & Hh & _) Hr. eapply (Forall_lookup_1 _ _ r) in Hh; [exact Hh|].
  by rewrite list_lookup_fmap, Hr.
Qed.

Lemma well_formed_tentative i t s :
  well_formed s → tentativeHosts s !! i = Some t → (th_url t, th_ip t) ∈ KMS_ARRAY env.
Proof.
  intros (_ & _ & Ht & _) Hi. eapply (Forall_lookup_1 _ _ i) in Ht; [exact Ht|].
  by rewrite list_lookup_fmap, Hi.
Qed.

Lemma well_formed_attempt a att i u p s :
  well_formed s → attempts s !! a = Some att → kind att = Startup i u p →
  (u, p) ∈ KMS_ARRAY env.
Proof.
  intros (_ & _ & _ & Ha) Hatt Hk. unfold configured in Ha.
  rewrite Forall_forall in Ha. apply Ha. apply list_elem_of_omap.
  exists att. split; [by eapply list_elem_of_lookup_2|].
  unfold startup_pair. by rewrite Hk.
Qed.

(** Brings the lists [well_formed] looks at to the lists of the state
    the handler started in. *)
Ltac normal_view :=
  simpl;
  rewrite ?(fmap_alter_same pair_of) by (by intros []);
  rewrite ?(fmap_alter_same (λ t, (th_url t, th_ip t))) by (by intros []);
  rewrite ?(omap_alter_same startup_pair) by (by intros []);
  rewrite ?fmap_app, ?omap_app;
  simpl; rewrite ?app_nil_r.

Ltac well_formed_by H :=
  first
    [ eapply well_formed_view; [| | | | exact H]; normal_view; reflexivity
    | eapply well_formed_emit; [| | | | | exact H];
        [ normal_view; reflexivity
        | eexists _, _; split; [eassumption | reflexivity]
        | normal_view; reflexivity .. ]
    | eapply well_formed_alloc; [| | | | | exact H];
        [eassumption | normal_view; reflexivity ..] ].

Lemma well_formed_startup_catch i : preserves well_formed (startup_catch i).
Proof.
  intros s H. unfold startup_catch, read_tentative, update_tentative. run_handler.
  destruct (tentativeHosts s !! i) as [t|] eqn:Ht; simpl; [|done].
  pose proof (well_formed_tentative i t s H Ht) as Hin.
  rewrite list_lookup_alter_eq, Ht. simpl.
  destruct (startupFailureNotified t) eqn:Hf; simpl.
  2: destruct (request env (hook_calls s)) eqn:Hreq; simpl.
  all: well_formed_by H.
Qed.

Lemma well_formed_startup_try i token u p c :
  (u, p) ∈ KMS_ARRAY env →
  preserves well_formed (startup_try i (Host token u p c false false None None None)).
Proof.
  intros Hin. unfold startup_try.
  apply preserves_try_catch; [|intros _; apply well_formed_startup_catch].
  intros s H. unfold _monitorConnectionState, addHost, alloc, healthcheck.
  run_handler.
  rewrite lookup_app_r by done. rewrite Nat.sub_diag. simpl.
  rewrite lookup_app_r by done. rewrite Nat.sub_diag. simpl.
  set (h := Host token u p c false false None None None).
  assert (Hh : pair_of h ∈ KMS_ARRAY env) by done.
  assert (H1 : well_formed (with_heap (λ hp, hp ++ [h]) s)).
  { by well_formed_by H. }
  unfold read_tentative. simpl.
  destruct (tentativeHosts s !! i) as [t|] eqn:Ht; simpl; [|by well_formed_by H1].
  pose proof (well_formed_tentative i t s H Ht) as Hint.
  unfold update_tentative. run_handler.
  destruct (startupFailureNotified t) eqn:Hf; simpl.
  1: destruct (request env (hook_calls s)) eqn:Hreq; simpl.
  all: destruct (ENABLE_HEALTHCHECK env); simpl.
  all: rewrite ?lookup_app_r by done; rewrite ?Nat.sub_diag; simpl.
  all: by well_formed_by H1.
Qed.

Lemma well_formed_tryToConnect i : preserves well_formed (tryToConnect i).
Proof.
  intros s H. unfold tryToConnect, read_tentative, _hostStarted, new_attempt. run_handler.
  destruct (tentativeHosts s !! i) as [t|] eqn:Ht; simpl; [|done].
  pose proof (well_formed_tentative i t s H Ht) as Hin.
  destruct (below_bound (retries t)); simpl; [|done].
  destruct (existsb _ (hosts s)); simpl; [done|].
  destruct H as (Ho & Hh & Hth & Ha). split; [done|]. split; [done|]. split; [done|].
  simpl. rewrite omap_app. apply Forall_app. split; [done|]. by apply Forall_singleton.
Qed.

Lemma well_formed__onDisconnection r : preserves well_formed (_onDisconnection r).
Proof.
  intros s H. unfold _onDisconnection. run_handler.
  destruct (heap s !! r) as [h|] eqn:Hh; simpl; [|done].
  pose proof (well_formed_host r h s H Hh) as Hin.
  rewrite Hh. simpl.
  destruct (failureNotified h) eqn:Hf; simpl.
  2: destruct (request env (hook_calls s)) eqn:Hreq; simpl.
  all: rewrite ?list_lookup_alter_eq, ?Hh; simpl.
  all: destruct (_reconnectionRoutine s !! id h); simpl.
  all: by well_formed_by H.
Qed.

Lemma well_formed__onReconnection b r : preserves well_formed (_onReconnection b r).
Proof.
  destruct b; [|apply well_formed__onDisconnection].
  intros s H. unfold _onReconnection. run_handler.
  destruct (heap s !! r) as [h|] eqn:Hh; simpl; [|done].
  by destruct (failureNotified h).
Qed.

Lemma well_formed_reconnect_then r hid : preserves well_formed (reconnect_then r hid).
Proof.
  intros s H. unfold reconnect_then, _monitorConnectionState, clear_routine, addHost.
  run_handler.
  destruct (heap s !! r) as [h|] eqn:Hh; simpl.
  2: { destruct (_reconnectionRoutine s !! hid); simpl; rewrite ?Hh; simpl;
       by well_formed_by H. }
  pose proof (well_formed_host r h s H Hh) as Hin.
  destruct (_reconnectionRoutine s !! hid); simpl.
  all: rewrite ?Hh; simpl; rewrite ?Hh; simpl.
  all: destruct (failureNotified h) eqn:Hf; simpl.
  all: try (destruct (request env (hook_calls s)) eqn:Hreq; simpl).
  all: by well_formed_by H.
Qed.

Lemma well_formed_probe_catch r : preserves well_formed (probe_catch r).
Proof.
  intros s H. unfold probe_catch. run_handler.
  destruct (heap s !! r) as [h|] eqn:Hh; simpl; [|done].
  pose proof (well_formed_host r h s H Hh) as Hin.
  destruct (healthcheckFailureNotified h) eqn:Hf; simpl; [done|].
  destruct (request env (hook_calls s)) eqn:Hreq; simpl.
  all: by well_formed_by H.
Qed.

Lemma well_formed_probe_settled r ok : preserves well_formed (probe_settled r ok).
Proof.
  unfold probe_settled. destruct ok; [|apply well_formed_probe_catch].
  apply preserves_try_catch; [|intros _; apply well_formed_probe_catch].
  intros s H. run_handler.
  destruct (heap s !! r) as [h|] eqn:Hh; simpl; [|done].
  pose proof (well_formed_host r h s H Hh) as Hin.
  destruct (healthcheckFailureNotified h) eqn:Hf; simpl; [|done].
  destruct (request env (hook_calls s)) eqn:Hreq; simpl.
  all: by well_formed_by H.
Qed.

Lemma well_formed_settle f a s :
  (∀ x, kind (f x) = kind x) → well_formed s → well_formed (with_attempts (alter f a) s).
Proof.
  intros Hk H. eapply well_formed_view; [| | | | exact H]; try reflexivity.
  simpl. apply omap_alter_same. intros x. unfold startup_pair. by rewrite Hk.
Qed.

Lemma well_formed_step e s : well_formed s → well_formed (step e s).
Proof.
  intros H. unfold step. destruct (enabled e s) eqn:He; [|done].
  destruct e as [a res|a|i|c r|c r b|t|r ok]; unfold fire.
  - rewrite bind_gets. destruct (attempts s !! a) as [att|] eqn:Hatt; [|done].
    unfold connect_callback. rewrite bind_modify.
    pose proof (well_formed_settle connect_done a s connect_done_kind H) as H1.
    destruct (kind att) as [i u p|r hid] eqn:Hkind.
    + pose proof (well_formed_attempt a att i u p s H Hatt Hkind) as Hin.
      destruct (race_settled att); [by destruct res|].
      destruct res as [|c token];
        [by apply well_formed_startup_catch | by apply well_formed_startup_try].
    + destruct res as [|c token]; [done|].
      unfold update_host. rewrite bind_modify.
      destruct (race_settled att).
      * simpl. by well_formed_by H1.
      * apply well_formed_reconnect_then. by well_formed_by H1.
  - rewrite bind_gets. destruct (attempts s !! a) as [att|] eqn:Hatt; [|done].
    unfold failOver. rewrite bind_modify.
    pose proof (well_formed_settle failOver_done a s failOver_done_kind H) as H1.
    destruct (race_settled att); [done|].
    destruct (kind att) as [i u p|r hid] eqn:Hkind; [|done].
    by apply well_formed_startup_catch.
  - rewrite bind_modify. apply well_formed_tryToConnect. by well_formed_by H.
  - by apply well_formed__onDisconnection.
  - by apply well_formed__onReconnection.
  - rewrite bind_gets. destruct (intervals s !! t) as [[r hid]|]; [|done].
    unfold new_attempt. simpl. by well_formed_by H.
  - by apply well_formed_probe_settled.
Qed.

Lemma well_formed_startHosts : well_formed startHosts.
Proof.
  unfold startHosts. apply preserves_forEach; [apply well_formed_tryToConnect|].
  split; [constructor|]. split; [constructor|]. split; [|constructor].
  unfold constructed, configured. simpl. rewrite <- list_fmap_compose.
  apply Forall_fmap, Forall_forall. by intros [u p] Hin.
Qed.

(** Every alert the monitor ever issues is the documented text,
    [HOST_NAME triggered EVENT for Kurento url ip], with the url and the
    address of one configured descriptor. *)
Theorem alerts_documented (es : list event) :
  Forall documented (outbox (run es startHosts)).
Proof.
  assert (H : well_formed (run es startHosts)); [|by destruct H].
  generalize well_formed_startHosts. generalize startHosts.
  induction es as [|e es IH]; intros s Hs; [done|].
  apply IH. by apply well_formed_step.
Qed.

End Monitor.

(** ** Startup against a connect collaborator that always fails *)

Section FailingStartup.

Variable env : environment.
Variables u p : string.
Hypothesis one_host : KMS_ARRAY env = [(u, p)].
Hypothesis two_retries : NOF_STARTUP_CONNECTION_RETRIES env = Some 2.
Hypothesis endpoint_accepts : ∀ k, request env k = true.

Lemma startHosts_one_host :
  startHosts env
  = Monitor [] ∅ [] [Tentative u p 0 false] ∅ [] [Attempt (Startup 0 u p) false false] [] 0 0 [].
Proof.
  unfold startHosts, constructed. rewrite one_host. simpl.
  unfold tryToConnect, below_bound. by rewrite two_retries.
Qed.

Lemma startup_phase_start : startup_phase env u p 0 (startHosts env).
Proof. rewrite startHosts_one_host. apply first_race. Qed.

Ltac run_turn :=
  repeat (progress (unfold fire, connect_callback, failOver, startup_catch,
                      tryToConnect, read_tentative, update_tentative, new_attempt,
                      _hostStarted, below_bound, emitHookWarning, try_catch,
                      mbind, M_bind, mret, M_ret, skip, lift, gets, modify;
                    simpl)).

Ltac phase_reached :=
  eexists; split; cycle 1;
  [ econstructor;
    first [ assumption | reflexivity
          | repeat match goal with b : bool |- _ => destruct b end; done ]
  | lia ].

Lemma startup_phase_step k s e :
  connect_fails e = true → startup_phase env u p k s →
  ∃ k', (k ≤ k')%nat ∧ startup_phase env u p k' (step env e s).
Proof.
  intros He Hs. destruct Hs.
  all: repeat match goal with b : bool |- _ => destruct b end; try discriminate.
  all: destruct e as [[|[|a]] [|c tok]|[|[|a]]|[|i]|c r|c r b|t|r ok]; try discriminate He.
  all: unfold step; simpl.
  all: try rewrite lookup_empty; simpl.
  all: run_turn; rewrite ?two_retries, ?endpoint_accepts; simpl.
  all: phase_reached.
Qed.

(** Every run in which no connect succeeds moves forward through the
    phases. *)
Lemma startup_phase_run es k s :
  forallb connect_fails es = true → startup_phase env u p k s →
  ∃ k', (k ≤ k')%nat ∧ startup_phase env u p k' (run env es s).
Proof.
  revert k s. induction es as [|e es IH]; intros k s Hes Hs; simpl.
  - exists k. split; [lia | exact Hs].
  - simpl in Hes. apply andb_prop in Hes as [He Hes].
    destruct (startup_phase_step k s e He Hs) as (k1 & Hk1 & Hs1).
    destruct (IH k1 _ Hes Hs1) as (k2 & Hk2 & Hs2).
    exists k2. split; [lia | exact Hs2].
Qed.

Lemma startup_phase_facts k s :
  startup_phase env u p k s →
  retries_of s = Some (retries_in_phase k)
  ∧ (length (attempts s) ≤ 2)%nat
  ∧ (outbox s = [] ∨ outbox s = [the_alert env u p])
  ∧ ((1 ≤ k)%nat → outbox s = [the_alert env u p])
  ∧ ((3 ≤ k)%nat → length (attempts s) = 2)
  ∧ (k = 4 → timeouts s = []).
Proof.
  destruct 1; simpl; repeat split; auto; lia.
Qed.

Ltac turn_computed :=
  unfold step; simpl; run_turn; rewrite ?two_retries, ?endpoint_accepts; simpl;
  reflexivity.

Lemma failing_run_turn1 :
  step env (ConnectCallback 0 ConnErr) (startHosts env)
  = Monitor [] ∅ [] [Tentative u p 1 true] ∅ [0]
      [Attempt (Startup 0 u p) true false] [] 0 1 [the_alert env u p].
Proof. rewrite startHosts_one_host. turn_computed. Qed.

Lemma failing_run_turn2 :
  step env (RetryTimeout 0)
    (Monitor [] ∅ [] [Tentative u p 1 true] ∅ [0]
       [Attempt (Startup 0 u p) true false] [] 0 1 [the_alert env u p])
  = Monitor [] ∅ [] [Tentative u p 1 true] ∅ []
      [Attempt (Startup 0 u p) true false; Attempt (Startup 0 u p) false false]
      [] 0 1 [the_alert env u p].
Proof. turn_computed. Qed.

Lemma failing_run_turn3 :
  step env (ConnectCallback 1 ConnErr)
    (Monitor [] ∅ [] [Tentative u p 1 true] ∅ []
       [Attempt (Startup 0 u p) true false; Attempt (Startup 0 u p) false false]
       [] 0 1 [the_alert env u p])
  = Monitor [] ∅ [] [Tentative u p 2 true] ∅ [0]
      [Attempt (Startup 0 u p) true false; Attempt (Startup 0 u p) true false]
      [] 0 1 [the_alert env u p].
Proof. turn_computed. Qed.

Lemma failing_run_turn4 :
  step env (RetryTimeout 0)
    (Monitor [] ∅ [] [Tentative u p 2 true] ∅ [0]
       [Attempt (Startup 0 u p) true false; Attempt (Startup 0 u p) true false]
       [] 0 1 [the_alert env u p])
  = Monitor [] ∅ [] [Tentative u p 2 true] ∅ []
      [Attempt (Startup 0 u p) true false; Attempt (Startup 0 u p) true false]
      [] 0 1 [the_alert env u p].
Proof. turn_computed. Qed.

Lemma failing_run_phase :
  feasible env failing_run (startHosts env) = true
  ∧ startup_phase env u p 4 (run env failing_run (startHosts env)).
Proof.
  unfold failing_run, run. cbn [feasible fold_left].
  rewrite failing_run_turn1, failing_run_turn2, failing_run_turn3, failing_run_turn4.
  rewrite startHosts_one_host. split; [reflexivity|]. by apply given_up.
Qed.

(** One configured host, [kurentoStartupRetries] 2, an endpoint that
    accepts the requests, and a run, however scheduled, in which no connect
    succeeds.  Then at most two connects are ever started and at most one
    alert is issued, the STARTUP_CONNECT_FAILURE of the host; once the host
    has failed twice, however the run goes on there remain exactly that one
    alert and exactly those two connects.  The run of the scenario can
    occur, and it ends after two failures with that one alert, two connects
    and no retry pending. *)
Theorem startup_failure_alert_once (es es' : list event) :
  forallb connect_fails (es ++ es') = true →
  (length (attempts (run env es (startHosts env))) ≤ 2)%nat
  ∧ (outbox (run env es (startHosts env)) = []
     ∨ outbox (run env es (startHosts env)) = [the_alert env u p])
  ∧ (retries_of (run env es (startHosts env)) = Some 2 →
       outbox (run env (es ++ es') (startHosts env)) = [the_alert env u p]
       ∧ length (attempts (run env (es ++ es') (startHosts env))) = 2)
  ∧ feasible env failing_run (startHosts env) = true
  ∧ retries_of (run env failing_run (startHosts env)) = Some 2
  ∧ outbox (run env failing_run (startHosts env)) = [the_alert env u p]
  ∧ length (attempts (run env failing_run (startHosts env))) = 2
  ∧ timeouts (run env failing_run (startHosts env)) = [].
Proof.
  intros Hall. rewrite forallb_app in Hall. apply andb_prop in Hall as [Hes Hes'].
  destruct (startup_phase_run es 0 _ Hes startup_phase_start) as (k & _ & Hk).
  destruct (startup_phase_facts k _ Hk) as (Hr & Hlen & Hout & _ & _ & _).
  split; [exact Hlen|]. split; [exact Hout|]. split.
  - intros Hr2. rewrite Hr in Hr2. injection Hr2 as Hr2.
    assert (3 ≤ k)%nat as Hk3 by (destruct k as [|[|[|k]]]; simpl in Hr2; lia).
    rewrite run_app.
    destruct (startup_phase_run es' k _ Hes' Hk) as (k' & Hle & Hk').
    destruct (startup_phase_facts k' _ Hk') as (_ & _ & _ & Ho & Ha & _).
    split; [apply Ho | apply Ha]; lia.
  - destruct failing_run_phase as [Hf H4]. split; [exact Hf|].
    destruct (startup_phase_facts 4 _ H4) as (Hr4 & _ & _ & Ho & Ha & Ht).
    split; [exact Hr4|]. split; [apply Ho; lia|]. split; [apply Ha; lia|].
    by apply Ht.
Qed.

End FailingStartup.

(** ** probeConnectionHealth *)

Module ProbeFacts.

Import Probe.

Lemma probe_snoc es e :
  probeConnectionHealth (es ++ [e]) = step e (probeConnectionHealth es).
Proof. unfold probeConnectionHealth. by rewrite fold_left_app. Qed.

Lemma consistent_step e p : consistent p → consistent (step e p).
Proof.
  destruct p as [wn cc ol cl el ml ps ho ck pr un]. unfold consistent. simpl.
  destruct pr; simpl.
  - intros (-> & -> & -> & -> & -> & Hm).
    destruct e as [|data| | |ms]; unfold step, onMessage; simpl;
      repeat case_match; simpl in *; naive_solver.
  - intros (-> & -> & -> & -> & ->).
    destruct e as [|data| | |ms]; unfold step, onMessage; simpl;
      repeat case_match; simpl in *; naive_solver.
  - intros (-> & -> & -> & -> & ->).
    destruct e as [|data| | |ms]; unfold step, onMessage; simpl;
      repeat case_match; simpl in *; naive_solver.
Qed.

Lemma consistent_probe es : consistent (probeConnectionHealth es).
Proof.
  induction es as [|e es IH] using rev_ind.
  - unfold consistent. simpl. done.
  - rewrite probe_snoc. by apply consistent_step.
Qed.

Lemma step_message_listener e p :
  message_listener (step e p) = true → message_listener p = true ∨ e = WsOpen.
Proof.
  destruct p as [wn cc ol cl el ml ps ho ck pr un].
  destruct e as [|data| | |ms]; unfold step, onMessage; simpl;
    repeat case_match; simpl in *; naive_solver.
Qed.

Lemma step_resolved e p :
  promise (step e p) = Resolved →
  promise p = Resolved
  ∨ (promise p = Pending ∧ message_listener p = true
     ∧ ∃ pong, e = WsMessage (Some pong) ∧ is_pong pong = true).
Proof.
  destruct p as [wn cc ol cl el ml ps ho ck pr un].
  destruct pr; [|by left|].
  - destruct e as [|data| | |ms]; unfold step; simpl.
    + by destruct ol.
    + destruct ml; simpl; [|done]. intros H. right. split; [done|]. split; [done|].
      destruct data as [pong|]; [|done]. exists pong. split; [done|].
      unfold onMessage in H. simpl in H.
      destruct (is_pong pong); [done|]. by destruct pong.
    + by destruct cl.
    + by destruct el.
    + destruct (negb ho && _); simpl; [|done]. by destruct el.
  - destruct e as [|data| | |ms]; unfold step, onMessage; simpl;
      repeat case_match; simpl in *; done.
Qed.

Lemma step_settled e p : settled p = true → promise (step e p) = promise p.
Proof.
  destruct p as [wn cc ol cl el ml ps ho ck pr un]. unfold settled. simpl.
  destruct pr; [done| |];
    destruct e as [|data| | |ms]; unfold step, onMessage; simpl;
    repeat case_match; simpl in *; done.
Qed.

Lemma probe_settled_stable es es' :
  settled (probeConnectionHealth es) = true →
  promise (probeConnectionHealth (es ++ es')) = promise (probeConnectionHealth es).
Proof.
  intros Hs. induction es' as [|e es' IH] using rev_ind.
  - by rewrite app_nil_r.
  - rewrite app_assoc, probe_snoc, step_settled; [exact IH|].
    unfold settled in *. rewrite IH. exact Hs.
Qed.

Lemma message_listener_opened es :
  message_listener (probeConnectionHealth es) = true → WsOpen ∈ es.
Proof.
  induction es as [|e es IH] using rev_ind; [done|].
  rewrite probe_snoc. intros H. apply step_message_listener in H as [H| ->].
  - apply elem_of_app. left. by apply IH.
  - apply elem_of_app. right. by apply list_elem_of_singleton.
Qed.

Lemma resolved_by_pong es :
  promise (probeConnectionHealth es) = Resolved →
  ∃ pre pong post,
    es = pre ++ WsMessage (Some pong) :: post ∧ is_pong pong = true ∧ WsOpen ∈ pre.
Proof.
  induction es as [|e es IH] using rev_ind; [done|].
  rewrite probe_snoc. intros H.
  apply step_resolved in H as [H|(_ & Hm & pong & -> & Hp)].
  - destruct (IH H) as (pre & pong & post & -> & Hp & Ho).
    exists pre, pong, (post ++ [e]). by rewrite <- app_assoc.
  - exists es, pong, []. split; [done|]. split; [done|].
    by apply message_listener_opened.
Qed.

(** What the probe does guarantee.  It resolves only on a message that
    matches the ping, received after the socket opened.  Once settled it
    stays as it is, and the socket has been closed, exactly once.  While it
    is pending the socket has not been closed, an error or a close rejects
    it, a matching pong resolves it once the socket is open, and the
    library's handshake timer rejects it when the handshake is not over
    after [KMS_FAILOVER_TIMEOUT_MS]; after the handshake the passing of time
    alone changes nothing but the clock. *)
Theorem probe_settles_on_pong_error_or_close (es : list ws_event) :
  (promise (probeConnectionHealth es) = Resolved →
     ∃ pre pong post,
       es = pre ++ WsMessage (Some pong) :: post ∧ is_pong pong = true ∧ WsOpen ∈ pre)
  ∧ (settled (probeConnectionHealth es) = true →
       close_calls (probeConnectionHealth es) = 1
       ∧ ws_null (probeConnectionHealth es) = true
       ∧ ∀ es', promise (probeConnectionHealth (es ++ es'))
                = promise (probeConnectionHealth es))
  ∧ (promise (probeConnectionHealth es) = Pending →
       close_calls (probeConnectionHealth es) = 0
       ∧ promise (step WsError (probeConnectionHealth es)) = Rejected
       ∧ promise (step WsClose (probeConnectionHealth es)) = Rejected
       ∧ (∀ pong, message_listener (probeConnectionHealth es) = true →
            is_pong pong = true →
            promise (step (WsMessage (Some pong)) (probeConnectionHealth es)) = Resolved)
       ∧ (∀ ms, handshake_over (probeConnectionHealth es) = false →
            (KMS_FAILOVER_TIMEOUT_MS ≤ clock (probeConnectionHealth es) + ms)%N →
            promise (step (Elapse ms) (probeConnectionHealth es)) = Rejected)
       ∧ (∀ ms, handshake_over (probeConnectionHealth es) = true →
            step (Elapse ms) (probeConnectionHealth es)
            = advance ms (probeConnectionHealth es))).
Proof.
  pose proof (consistent_probe es) as Hc.
  split; [apply resolved_by_pong|]. split.
  - intros Hs. unfold consistent, settled in *.
    destruct (promise (probeConnectionHealth es)) eqn:Hp; [done| |].
    + destruct Hc as (? & ? & _). repeat split; try done.
      intros es'. rewrite probe_settled_stable; [done|]. unfold settled. by rewrite Hp.
    + destruct Hc as (? & ? & _). repeat split; try done.
      intros es'. rewrite probe_settled_stable; [done|]. unfold settled. by rewrite Hp.
  - intros Hp. unfold consistent in Hc. rewrite Hp in Hc.
    destruct Hc as (Hn & Hcc & Hcl & Hel & Hol & Hml).
    destruct (probeConnectionHealth es) as [wn cc ol cl el ml ps ho ck pr un].
    simpl in *. subst. repeat split.
    + intros pong -> Hpong. unfold onMessage. simpl.
      rewrite Hpong. by destruct pong.
    + intros ms -> Hms. apply N.leb_le in Hms. by rewrite Hms.
    + by intros ms ->.
Qed.

Lemma probe_pending_past_timeout :
  ¬ (∀ es, (KMS_FAILOVER_TIMEOUT_MS ≤ elapsed es)%N →
       settled (probeConnectionHealth es) = true
       ∧ (1 ≤ close_calls (probeConnectionHealth es))%nat).
Proof.
  intros H. destruct (H silent_peer) as [Hs _]; [by vm_compute|].
  vm_compute in Hs. discriminate Hs.
Qed.

End ProbeFacts.

(** ** greatRandomToken *)

Module TokenFacts.

Import Token.

Lemma scaled_lt (x : unit_double) (base : N) :
  in_unit_interval x → (0 < base)%N → (scaled x base < base)%N.
Proof.
  unfold in_unit_interval, scaled. intros Hx Hb.
  apply N.Div0.div_lt_upper_bound. nia.
Qed.

Lemma toString_digit (radix d : N) :
  (2 ≤ radix)%N → (radix ≤ 36)%N → (d < radix)%N →
  toString radix d = Some (String (digit d) "").
Proof.
  intros H2 H36 Hd. unfold toString.
  destruct (N.leb_spec 2 radix); [|lia]. destruct (N.leb_spec radix 36); [|lia]. simpl.
  f_equal. destruct (N.to_nat d); simpl; rewrite N.mod_small by done; [done|].
  rewrite N.div_small by done. done.
Qed.

Lemma base32_digit_digit (d : N) : (d < 32)%N → base32_digit (digit d) = true.
Proof.
  intros Hd. unfold digit.
  assert (Hn : N.to_nat d < 32) by lia.
  generalize dependent (N.to_nat d). intros n Hn.
  do 32 (destruct n as [|n]; [reflexivity|]). lia.
Qed.

Lemma string_app_cons (ch : ascii) (s t : string) :
  (String ch s ++ t)%string = String ch (s ++ t)%string.
Proof. reflexivity. Qed.

Lemma string_app_nil_r (s : string) : (s ++ "")%string = s.
Proof. induction s as [|ch s IH]; [done|]. by rewrite string_app_cons, IH. Qed.

Lemma string_app_snoc (s t : string) (ch : ascii) :
  ((s ++ String ch "") ++ t)%string = (s ++ String ch t)%string.
Proof. induction s as [|ch' s IH]; [done|]. by rewrite !string_app_cons, IH. Qed.

Lemma loop_base32 (random : nat → unit_double) (size i : nat) (token : string) :
  (∀ k, in_unit_interval (random k)) →
  ∃ t, loop random 32 i size token = Some (token ++ t)%string
       ∧ String.length t = size ∧ all_chars base32_digit t = true.
Proof.
  intros Hr. revert i token. induction size as [|size IH]; intros i token.
  - exists "". simpl. split; [|done]. by rewrite string_app_nil_r.
  - pose proof (scaled_lt (random i) 32 (Hr i) eq_refl) as Hlt.
    change (loop random 32 i (S size) token)
      with (match toString 32 (scaled (random i) 32) with
            | Some d => loop random 32 (S i) size (token ++ d)%string
            | None => None
            end).
    rewrite (toString_digit 32 _) by (done || lia).
    destruct (IH (S i) (token ++ String (digit (scaled (random i) 32)) "")%string)
      as (t & Heq & Hlen & Hall).
    exists (String (digit (scaled (random i) 32)) t). split; [|split].
    + by rewrite Heq, string_app_snoc.
    + simpl. by rewrite Hlen.
    + simpl. by rewrite base32_digit_digit, Hall.
Qed.

(** [greatRandomToken(size)] returns [size] characters, each one of
    [0-9a-v]; the ids of the host objects, [greatRandomToken(12)], are the
    tokens the connect events of the model carry. *)
Theorem greatRandomToken_base32 (random : nat → unit_double) (size : nat) :
  (∀ k, in_unit_interval (random k)) →
  ∃ t, greatRandomToken random size 32 = Some t
       ∧ String.length t = size
       ∧ all_chars base32_digit t = true
       ∧ (size = 12 → is_token t = true).
Proof.
  intros Hr. destruct (loop_base32 random size 0 "" Hr) as (t & Heq & Hlen & Hall).
  exists t. split; [done|]. split; [done|]. split; [done|].
  intros ->. unfold is_token. by rewrite Hlen, Hall.
Qed.

End TokenFacts.

(** ** probeConnectionHealth: the ping and the ['message'] listener *)

Module ProbeEdges.

Import Probe.

Lemma ping_count_step e p :
  consistent p →
  pings_sent p = (if message_listener p then 1 else 0) →
  pings_sent (step e p) = (if message_listener (step e p) then 1 else 0).
Proof.
  destruct p as [wn cc ol cl el ml ps ho ck pr un]. unfold consistent. simpl.
  destruct pr; simpl.
  - intros (-> & -> & -> & -> & -> & Hm) ->.
    destruct e as [|data| | |ms]; unfold step, onMessage; simpl;
      repeat case_match; simpl in *; done.
  - intros (-> & -> & -> & -> & ->) ->.
    destruct e as [|data| | |ms]; unfold step, onMessage; simpl;
      repeat case_match; simpl in *; done.
  - intros (-> & -> & -> & -> & ->) ->.
    destruct e as [|data| | |ms]; unfold step, onMessage; simpl;
      repeat case_match; simpl in *; done.
Qed.

Lemma ping_count es :
  pings_sent (probeConnectionHealth es)
  = (if message_listener (probeConnectionHealth es) then 1 else 0).
Proof.
  induction es as [|e es IH] using rev_ind; [done|].
  rewrite ProbeFacts.probe_snoc.
  apply ping_count_step; [apply ProbeFacts.consistent_probe | exact IH].
Qed.

(** One probe sends at most one ping, and sends it when its socket opens:
    the ping has been sent exactly when the ['message'] listener is
    attached. *)
Theorem probe_sends_one_ping (es : list ws_event) :
  (pings_sent (probeConnectionHealth es) ≤ 1)%nat
  ∧ (pings_sent (probeConnectionHealth es) = 1
     ↔ message_listener (probeConnectionHealth es) = true)
  ∧ (pings_sent (probeConnectionHealth es) = 1 → WsOpen ∈ es).
Proof.
  pose proof (ping_count es) as H.
  destruct (message_listener (probeConnectionHealth es)) eqn:Hm; rewrite H.
  - repeat split; try done. intros _. by apply ProbeFacts.message_listener_opened.
  - repeat split; try done. lia.
Qed.

Lemma message_listener_step e p :
  message_listener p = true → message_listener (step e p) = true.
Proof.
  destruct p as [wn cc ol cl el ml ps ho ck pr un]. simpl. intros ->.
  destruct e as [|data| | |ms]; unfold step, onMessage; simpl;
    repeat case_match; simpl in *; done.
Qed.

Lemma message_listener_kept es es' :
  message_listener (probeConnectionHealth es) = true →
  message_listener (probeConnectionHealth (es ++ es')) = true.
Proof.
  intros H. induction es' as [|e es' IH] using rev_ind; [by rewrite app_nil_r|].
  rewrite app_assoc, ProbeFacts.probe_snoc. by apply message_listener_step.
Qed.

(** The ['message'] listener is never removed.  Once it is attached, a
    message that is not JSON or that is [null] throws out of the listener,
    and so does a matching pong that arrives after the probe settled, when
    [ws] is already [null]; the probe itself is left as it was. *)
Theorem message_listener_throws (es : list ws_event) :
  message_listener (probeConnectionHealth es) = true →
  (∀ es', message_listener (probeConnectionHealth (es ++ es')) = true)
  ∧ step (WsMessage None) (probeConnectionHealth es) = throws (probeConnectionHealth es)
  ∧ step (WsMessage (Some JNull)) (probeConnectionHealth es)
    = throws (probeConnectionHealth es)
  ∧ (∀ pong, settled (probeConnectionHealth es) = true → is_pong pong = true →
       step (WsMessage (Some pong)) (probeConnectionHealth es)
       = throws (probeConnectionHealth es)).
Proof.
  intros Hm. split; [intros es'; by apply message_listener_kept|].
  pose proof (ProbeFacts.consistent_probe es) as Hc.
  unfold step. rewrite Hm. repeat split; try done.
  intros pong Hs Hp. unfold onMessage. rewrite Hp.
  unfold consistent, settled in *.
  destruct (promise (probeConnectionHealth es)); [done| |];
    destruct Hc as (-> & _); by destruct pong.
Qed.

End ProbeEdges.

(** ** The FreeSWITCH wrapper *)

Module EslFacts.

Import Esl.

Lemma keeps_ret {A} I (a : A) : keeps I (mret a).
Proof. by intros st H. Qed.

Lemma keeps_bind {A B} I (m : E A) (k : A → E B) :
  keeps I m → (∀ a, keeps I (k a)) → keeps I (m ≫= k).
Proof.
  intros Hm Hk st H. unfold mbind, E_bind.
  specialize (Hm st H). destruct (m st) as [[a|e] st']; simpl in *; [by apply Hk|done].
Qed.

Lemma keeps_try_catch {A} I (m : E A) (k : exn → E A) :
  keeps I m → (∀ e, keeps I (k e)) → keeps I (try_catch m k).
Proof.
  intros Hm Hk st H. unfold try_catch.
  specialize (Hm st H). destruct (m st) as [[a|e] st']; simpl in *; [done|by apply Hk].
Qed.

Lemma keeps_this {A} I (f : wrapper → A) : keeps I (this f).
Proof. by intros st H. Qed.

Lemma keeps_throw {A} I e : keeps I (throw (A := A) e).
Proof. by intros st H. Qed.

Lemma keeps_update I (f : wrapper → wrapper) : (∀ w, I w → I (f w)) → keeps I (update f).
Proof. intros Hf st H. by apply Hf. Qed.

Lemma keeps_times I n (m : E unit) : keeps I m → keeps I (times n m).
Proof.
  intros Hm. induction n as [|n IH]; simpl; [apply keeps_ret|].
  apply keeps_bind; [done|]. by intros _.
Qed.

Lemma keeps_step I HOST_NAME emit throws e st :
  keeps I (fire HOST_NAME emit throws e) → I st.1 → I (step HOST_NAME emit throws e st).1.
Proof. intros Hf H. unfold step. destruct (enabled e st.1); [by apply Hf|done]. Qed.

Lemma keeps_run I HOST_NAME emit throws es st :
  (∀ e, keeps I (fire HOST_NAME emit throws e)) → I st.1 →
  I (run HOST_NAME emit throws es st).1.
Proof.
  intros Hf. revert st. induction es as [|e es IH]; intros st H; [done|].
  apply IH. by apply keeps_step.
Qed.

(** *** Loading the module and building the wrapper *)

(** [esl.js] does not require [os]: without a configured [hostAddress] its
    top level throws a ReferenceError, and with it [server.js], which
    requires it before it reads its own configuration. *)
Theorem load_needs_hostAddress (config : list (string * jsval)) (hostname : string) :
  load config hostname = Throw (ReferenceError "os") ↔ has config "hostAddress" = false.
Proof.
  unfold load. destruct (has config "hostAddress"); simpl; [|done].
  split; [|done]. by destruct (has config "connHealthCheckInterval").
Qed.

Lemma option_or_given params key fallback :
  option_or params key fallback
  = if given params key
    then match member params key with Normal v => Normal v | Throw e => Throw e end
    else fallback.
Proof.
  unfold option_or, given. destruct (truthy params) eqn:Hp; [|done]. simpl.
  destruct (member params key) as [v|e] eqn:Hm; [by destruct (truthy v)|].
  destruct params; simpl in *; done.
Qed.

(** The constructor needs a truthy [host], [port] and [auth] in its
    [params]: the fallbacks [ESL_IP], [ESL_PORT] and [ESL_PASS] are bound
    nowhere, and the first one it has to read throws a ReferenceError. *)
Theorem new_EslWrapper_needs_options (params : jsval) :
  ((∃ w, new_EslWrapper params = Normal w)
   ↔ given params "host" = true ∧ given params "port" = true ∧ given params "auth" = true)
  ∧ (given params "host" = false →
       new_EslWrapper params = Throw (ReferenceError "ESL_IP"))
  ∧ (given params "host" = true → given params "port" = false →
       new_EslWrapper params = Throw (ReferenceError "ESL_PORT"))
  ∧ (given params "host" = true → given params "port" = true →
     given params "auth" = false →
       new_EslWrapper params = Throw (ReferenceError "ESL_PASS")).
Proof.
  unfold new_EslWrapper, build_clientOptions. rewrite !option_or_given.
  destruct (given params "host") eqn:Hh, (given params "port") eqn:Hp,
    (given params "auth") eqn:Ha; simpl.
  all: unfold given in *.
  all: destruct params as [|str|props]; simpl in *; try done.
  all: rewrite ?andb_false_r in *; try done.
  all: repeat (match goal with |- context [if ?b then _ else _] => destruct b end; simpl).
  all: repeat split; try done.
  all: try (by intros [? [=]]).
  all: try (by intros (? & ? & ?)).
  all: try match goal with H : ∃ _, _ |- _ => by destruct H as [? [=]] end.
  all: intros; by eexists.
Qed.

(** *** The probe of the wrapper *)

Lemma ws_probe_snoc es e :
  probeConnectionHealth (es ++ [e]) = ws_step e (probeConnectionHealth es).
Proof. unfold probeConnectionHealth. by rewrite fold_left_app. Qed.

Lemma probe_ok_step e p : probe_ok p → probe_ok (ws_step e p).
Proof.
  destruct p as [wn cc ol cl el ml ps ho ck pr un]. unfold probe_ok. simpl.
  destruct pr; simpl.
  - intros (-> & -> & -> & -> & -> & -> & Hck). destruct e; simpl; try done.
    unfold FS_FAILOVER_TIMEOUT_MS in *.
    destruct (N.leb_spec 15000 (ck + ms)); simpl; [done|]. repeat split; done.
  - intros (-> & -> & -> & -> & ->). destruct e; simpl; try done.
    by destruct (negb ho && _).
  - intros (-> & -> & -> & -> & ->). destruct e; simpl; try done.
    by destruct (negb ho && _).
Qed.

Lemma probe_ok_probe es : probe_ok (probeConnectionHealth es).
Proof.
  induction es as [|e es IH] using rev_ind; [by vm_compute|].
  rewrite ws_probe_snoc. by apply probe_ok_step.
Qed.

Lemma ws_step_clock e p :
  Probe.clock (ws_step e p)
  = (Probe.clock p + match e with Probe.Elapse ms => ms | _ => 0 end)%N.
Proof.
  destruct p as [wn cc ol cl el ml ps ho ck pr un].
  destruct e; simpl; rewrite ?N.add_0_r; try done.
  - by destruct ol.
  - by destruct cl.
  - by destruct el.
  - destruct (negb ho && _); simpl; [|done]. by destruct el.
Qed.

Lemma elapsed_snoc es e :
  Probe.elapsed (es ++ [e])
  = (Probe.elapsed es + match e with Probe.Elapse ms => ms | _ => 0 end)%N.
Proof.
  unfold Probe.elapsed. induction es as [|e' es IH]; simpl.
  - destruct e; lia.
  - rewrite IH. destruct e'; lia.
Qed.

Lemma ws_probe_clock es : Probe.clock (probeConnectionHealth es) = Probe.elapsed es.
Proof.
  induction es as [|e es IH] using rev_ind; [done|].
  by rewrite ws_probe_snoc, ws_step_clock, elapsed_snoc, IH.
Qed.

Lemma ws_step_resolved e p :
  Probe.promise (ws_step e p) = Probe.Resolved →
  Probe.promise p = Probe.Resolved ∨ e = Probe.WsOpen.
Proof.
  destruct p as [wn cc ol cl el ml ps ho ck pr un].
  destruct e; simpl; auto.
  - destruct cl; simpl; [|auto]. destruct pr; simpl; auto. done.
  - destruct el; simpl; [|auto]. destruct pr; simpl; auto. done.
  - destruct (negb ho && _); simpl; [|auto].
    destruct el; simpl; [|auto]. destruct pr; simpl; auto. done.
Qed.

(** The probe of the wrapper cannot outlast the failover timeout: it is
    pending only while less than that has elapsed, with its socket open and
    not yet closed; once settled, the socket has been closed exactly once;
    and it resolves only if the socket opened. *)
Theorem wrapper_probe_settles_in_time (es : list Probe.ws_event) :
  let p := probeConnectionHealth es in
  (Probe.promise p = Probe.Pending →
     (Probe.elapsed es < FS_FAILOVER_TIMEOUT_MS)%N
     ∧ Probe.ws_null p = false ∧ Probe.close_calls p = 0)
  ∧ (Probe.promise p ≠ Probe.Pending →
       Probe.ws_null p = true ∧ Probe.close_calls p = 1)
  ∧ (Probe.promise p = Probe.Resolved → Probe.WsOpen ∈ es).
Proof.
  intros p. pose proof (probe_ok_probe es) as Hok. fold p in Hok.
  pose proof (ws_probe_clock es) as Hck. fold p in Hck.
  unfold probe_ok in Hok. split; [|split].
  - intros Hp. rewrite Hp in Hok. destruct Hok as (? & ? & _ & _ & _ & _ & ?).
    by rewrite <- Hck.
  - intros Hp. destruct (Probe.promise p); [done| |]; by destruct Hok as (? & ? & _).
  - subst p. clear. induction es as [|e es IH] using rev_ind; [done|].
    rewrite ws_probe_snoc. intros H. apply ws_step_resolved in H as [H| ->].
    + apply elem_of_app. left. by apply IH.
    + apply elem_of_app. right. by apply list_elem_of_singleton.
Qed.

Section Facts.

Variable HOST_NAME : string.
Variable emit : hook_event → string → M unit.
Variable throws : nat → bool.

Lemma keeps_call_hook I ev text :
  (∀ w f, I w → I (with_hook_log f w)) → keeps I (call_hook emit ev text).
Proof.
  intros Hf [w s] H. unfold call_hook. simpl.
  destruct (emit ev text s) as [[[]|e] s']; simpl; by apply Hf.
Qed.

Ltac head_of t :=
  match t with
  | ?f _ => head_of f
  | _ => t
  end.

(** Walks through a method: [prim] closes the goals about the operations
    an invariant depends on. *)
Ltac keeps_with prim :=
  repeat first
    [ progress cbv zeta
    | solve [prim]
    | match goal with
      | |- keeps _ (_ ≫= _) => apply keeps_bind; [|intros ?]
      | |- keeps _ (try_catch _ _) => apply keeps_try_catch; [|intros ?]
      | |- keeps _ (mret _) => apply keeps_ret
      | |- keeps _ done => apply keeps_ret
      | |- keeps _ (this _) => apply keeps_this
      | |- keeps _ (throw _) => apply keeps_throw
      | |- keeps _ (times _ _) => apply keeps_times
      | |- keeps _ (if ?b then _ else _) => destruct b
      | |- keeps _ (match ?x with _ => _ end) => destruct x
      | |- keeps _ ?m => let h := head_of m in progress unfold h
      end ].

(** *** One reconnection routine *)

Lemma one_routine__onDisconnection :
  keeps one_routine (_onDisconnection HOST_NAME emit).
Proof.
  intros [w s] H. unfold one_routine in *. simpl in H. unfold _onDisconnection.
  unfold mbind, E_bind, this, update, try_catch, call_hook, done, mret, E_ret. simpl.
  destruct (_reconnectionRoutine w) as [t|] eqn:Hr; simpl; [by rewrite Hr|].
  destruct (failureNotified w); simpl.
  - by rewrite H.
  - destruct (emit _ _ s) as [[[]|e] s']; simpl; by rewrite H.
Qed.

Lemma one_routine__onConnected : keeps one_routine _onConnected.
Proof.
  intros [w s] H. unfold one_routine in *. simpl in H. unfold _onConnected, on_client.
  unfold mbind, E_bind, this, update, throw, done, mret, E_ret. simpl.
  destruct (_reconnectionRoutine w) as [t|] eqn:Hr; simpl.
  - assert (Hl : filter (λ t', t' ≠ t) (live w) = []).
    { rewrite H. simpl. by rewrite filter_cons_False by (by intros Hne). }
    destruct (_client w); simpl; by rewrite Hl.
  - destruct (_client w); simpl; by rewrite H, ?Hr.
Qed.

Ltac one_routine_prim :=
  idtac;
  lazymatch goal with
  | |- keeps _ (_onDisconnection _ _) => apply one_routine__onDisconnection
  | |- keeps _ _onConnected => apply one_routine__onConnected
  | |- keeps _ (update _) => apply keeps_update; intros ? ?; assumption
  | |- keeps _ (call_hook _ _ _) => apply keeps_call_hook; intros ? ? ?; assumption
  end.

Lemma one_routine_fire e : keeps one_routine (fire HOST_NAME emit throws e).
Proof. destruct e; keeps_with one_routine_prim. Qed.

Lemma monitorFreeSWITCH_started params s c st0 :
  monitorFreeSWITCH throws params s = (c, Some st0) →
  ∃ w, new_EslWrapper params = Normal w ∧ st0 = (start throws (w, s)).2.
Proof.
  unfold monitorFreeSWITCH. destruct (new_EslWrapper params) as [w|e]; [|done].
  destruct (start throws (w, s)) as [c' st] eqn:Hst. intros [= _ <-].
  exists w. by rewrite Hst.
Qed.

Lemma one_routine_start : keeps one_routine (start throws).
Proof. keeps_with one_routine_prim. Qed.

(** At any time the live reconnection intervals are the one the wrapper
    holds, so there is at most one; and while it is live a disconnection
    changes nothing. *)
Theorem one_reconnection_routine (params : jsval) (s : monitor)
    (c : completion unit) (st0 : wrapper * monitor) (es : list event) :
  monitorFreeSWITCH throws params s = (c, Some st0) →
  let st := run HOST_NAME emit throws es st0 in
  live st.1 = option_list (_reconnectionRoutine st.1)
  ∧ (∀ t, _reconnectionRoutine st.1 = Some t →
          _onDisconnection HOST_NAME emit st = (Normal tt, st)).
Proof.
  intros (w & Hw & ->)%monitorFreeSWITCH_started st. split.
  - apply keeps_run; [apply one_routine_fire|]. apply one_routine_start.
    unfold new_EslWrapper in Hw. destruct (build_clientOptions params); [|done].
    by injection Hw as <-.
  - intros t Ht. unfold _onDisconnection, mbind, E_bind, this. simpl. by rewrite Ht.
Qed.

(** *** The alerts take turns *)

Lemma calls_snoc ev l x :
  calls ev (l ++ [x]) = calls ev l + (if bool_decide (x.1.1 = ev) then 1 else 0).
Proof.
  unfold calls. rewrite List.filter_app, length_app. simpl.
  by destruct (bool_decide (x.1.1 = ev)).
Qed.

Lemma sent_snoc ev l x :
  sent ev (l ++ [x]) = sent ev l + (if bool_decide (x.1.1 = ev) && x.2 then 1 else 0).
Proof.
  unfold sent. rewrite List.filter_app, length_app. simpl.
  by destruct (bool_decide (x.1.1 = ev) && x.2).
Qed.

Lemma take_turns_snoc a b l x :
  take_turns a b l →
  (b (l ++ [x]) ≤ a (l ++ [x]))%nat → (a (l ++ [x]) ≤ S (b (l ++ [x])))%nat →
  take_turns a b (l ++ [x]).
Proof.
  intros Hl Hb Ha m. destruct (Nat.le_gt_cases m (length l)) as [Hle|Hgt].
  - rewrite take_app_le by done. apply Hl.
  - rewrite take_ge by (rewrite length_app; simpl; lia). done.
Qed.

Lemma alternating_same w w' :
  hook_log w' = hook_log w → failureNotified w' = failureNotified w →
  healthcheckFailureNotified w' = healthcheckFailureNotified w →
  alternating w → alternating w'.
Proof. unfold alternating, in_step. by intros -> -> ->. Qed.

Lemma alternating_next w w' x :
  hook_log w' = hook_log w ++ [x] → in_step w' → alternating w → alternating w'.
Proof.
  intros Hlog Hin (_ & H1 & H2). split; [done|].
  destruct Hin as [Hc Hh]. rewrite Hlog in *.
  split; apply take_turns_snoc; try done.
  all: destruct (failureNotified w'), (healthcheckFailureNotified w'); lia.
Qed.

Ltac in_step_now H Hf :=
  let Hc := fresh in let Hh := fresh in
  destruct H as ((Hc & Hh) & _);
  unfold in_step; simpl in *;
  rewrite ?Hf in Hc; rewrite ?Hf in Hh;
  rewrite ?calls_snoc, ?sent_snoc; simpl;
  repeat match goal with
         | H : context [if ?b then _ else _] |- _ => destruct b
         | |- context [if ?b then _ else _] => destruct b
         end;
  lia.

Lemma alternating__onDisconnection :
  keeps alternating (_onDisconnection HOST_NAME emit).
Proof.
  intros [w s] H. simpl in H. unfold _onDisconnection.
  unfold mbind, E_bind, this, update, try_catch, call_hook, done, mret, E_ret. simpl.
  destruct (_reconnectionRoutine w) as [t|] eqn:Hr; simpl; [done|].
  destruct (failureNotified w) eqn:Hf; simpl.
  - by apply (alternating_same w).
  - destruct (emit _ _ s) as [[[]|e] s']; simpl.
    all: eapply (alternating_next w); [reflexivity| |done]; in_step_now H Hf.
Qed.

Lemma alternating__onSubscribed :
  keeps alternating (_onSubscribed HOST_NAME emit).
Proof.
  intros [w s] H. simpl in H. unfold _onSubscribed, on_client.
  unfold mbind, E_bind, this, update, throw, call_hook, done, mret, E_ret. simpl.
  destruct (_client w) as [c|] eqn:Hc; simpl; [|done].
  destruct (failureNotified w) eqn:Hf; simpl.
  all: repeat (progress (rewrite ?Hc, ?Hf; simpl)).
  - destruct (emit _ _ s) as [[[]|e] s']; simpl.
    all: eapply (alternating_next w); [reflexivity| |done]; in_step_now H Hf.
  - by apply (alternating_same w).
Qed.

Lemma alternating_probe_catch : keeps alternating (probe_catch HOST_NAME emit).
Proof.
  intros [w s] H. simpl in H. unfold probe_catch.
  unfold mbind, E_bind, this, update, call_hook, done, mret, E_ret. simpl.
  destruct (healthcheckFailureNotified w) eqn:Hf; simpl; [done|].
  destruct (emit _ _ s) as [[[]|e] s']; simpl.
  all: eapply (alternating_next w); [reflexivity| |done]; in_step_now H Hf.
Qed.

Lemma alternating_probe_settled ok : keeps alternating (probe_settled HOST_NAME emit ok).
Proof.
  unfold probe_settled. destruct ok; [|apply alternating_probe_catch].
  apply keeps_try_catch; [|intros _; apply alternating_probe_catch].
  intros [w s] H. simpl in H.
  unfold mbind, E_bind, this, update, call_hook, done, mret, E_ret. simpl.
  destruct (healthcheckFailureNotified w) eqn:Hf; simpl; [|done].
  destruct (emit _ _ s) as [[[]|e] s']; simpl.
  all: eapply (alternating_next w); [reflexivity| |done]; in_step_now H Hf.
Qed.

Ltac alternating_prim :=
  idtac;
  lazymatch goal with
  | |- keeps _ (_onDisconnection _ _) => apply alternating__onDisconnection
  | |- keeps _ (_onSubscribed _ _) => apply alternating__onSubscribed
  | |- keeps _ (probe_settled _ _ _) => apply alternating_probe_settled
  | |- keeps _ (update _) =>
      let w := fresh in let H := fresh in
      apply keeps_update; intros w H;
      apply (alternating_same w); [reflexivity | reflexivity | reflexivity | exact H]
  end.

Lemma alternating_fire e : keeps alternating (fire HOST_NAME emit throws e).
Proof. destruct e; keeps_with alternating_prim. Qed.

Lemma alternating_start : keeps alternating (start throws).
Proof. keeps_with alternating_prim. Qed.

Lemma alternating_new params w : new_EslWrapper params = Normal w → alternating w.
Proof.
  unfold new_EslWrapper. destruct (build_clientOptions params); [|done].
  intros [= <-]. split; [done|].
  split; intros m; simpl; rewrite take_nil; unfold calls, sent; simpl; lia.
Qed.

(** The wrapper calls the hook with MEDIA_SERVER_OFFLINE and gets
    MEDIA_SERVER_ONLINE out in turns, OFFLINE first: in every prefix of its
    calls there are as many OFFLINE calls as ONLINE alerts that went out, or
    one more, and one more exactly while [failureNotified] is set. *)
Theorem offline_and_online_take_turns (params : jsval) (s : monitor)
    (c : completion unit) (st0 : wrapper * monitor) (es : list event) :
  monitorFreeSWITCH throws params s = (c, Some st0) →
  let w' := (run HOST_NAME emit throws es st0).1 in
  take_turns (calls MEDIA_SERVER_OFFLINE) (sent MEDIA_SERVER_ONLINE) (hook_log w')
  ∧ calls MEDIA_SERVER_OFFLINE (hook_log w')
    = sent MEDIA_SERVER_ONLINE (hook_log w') + (if failureNotified w' then 1 else 0).
Proof.
  intros (w & Hw & ->)%monitorFreeSWITCH_started w'.
  assert (H : alternating w').
  { apply keeps_run; [apply alternating_fire|].
    apply alternating_start. by apply (alternating_new params). }
  destruct H as ((Hc & _) & Ht & _). done.
Qed.

(** The same for the health check of the wrapper: the WS_CONN_UNHEALTHY
    alerts that went out and the WS_CONN_HEALTHY calls take turns, UNHEALTHY
    first. *)
Theorem unhealthy_and_healthy_take_turns (params : jsval) (s : monitor)
    (c : completion unit) (st0 : wrapper * monitor) (es : list event) :
  monitorFreeSWITCH throws params s = (c, Some st0) →
  let w' := (run HOST_NAME emit throws es st0).1 in
  take_turns (sent WS_CONN_UNHEALTHY) (calls WS_CONN_HEALTHY) (hook_log w')
  ∧ sent WS_CONN_UNHEALTHY (hook_log w')
    = calls WS_CONN_HEALTHY (hook_log w')
      + (if healthcheckFailureNotified w' then 1 else 0).
Proof.
  intros (w & Hw & ->)%monitorFreeSWITCH_started w'.
  assert (H : alternating w').
  { apply keeps_run; [apply alternating_fire|].
    apply alternating_start. by apply (alternating_new params). }
  destruct H as ((_ & Hh) & _ & Ht). done.
Qed.

(** *** A tick of the reconnection routine *)

Lemma alter_snoc {A} (f : A → A) (l : list A) (x : A) :
  alter f (length l) (l ++ [x]) = l ++ [f x].
Proof. rewrite <- (Nat.add_0_r (length l)) at 1. by rewrite alter_app_r. Qed.

Lemma lookup_snoc {A} (l : list A) (x : A) : (l ++ [x]) !! length l = Some x.
Proof. by rewrite lookup_app_r, Nat.sub_diag. Qed.

(** A tick never throws.  It ends the connection in use and, unless the
    constructor throws, puts a fresh one in its place, with the ready
    callback, one [auth] callback and one ['error'] listener; when the
    constructor throws, the wrapper is left without a connection. *)
Theorem reconnection_tick_outcome (st : wrapper * monitor) :
  let st' := (reconnect throws st).2 in
  let n := length (connections st.1) in
  (reconnect throws st).1 = Normal tt
  ∧ (∀ c k, _client st.1 = Some c → connections st.1 !! c = Some k →
            connections st'.1 !! c = Some (end_connection k))
  ∧ (if throws (constructions st.1)
     then _client st'.1 = None ∧ length (connections st'.1) = n
     else _client st'.1 = Some n
          ∧ connections st'.1 !! n = Some (Connection false true 1 0 1 0 0))
  ∧ st'.2 = st.2 ∧ hook_log st'.1 = hook_log st.1.
Proof.
  destruct st as [w s]. unfold reconnect, stop, _connect, _monitorESLClientConnectionErrors,
    on_client.
  unfold try_catch, mbind, E_bind, this, update, throw, done, mret, E_ret. simpl.
  destruct (_client w) as [c|] eqn:Hc; simpl.
  all: destruct (throws (constructions w)) eqn:Ht; simpl.
  all: repeat (progress (rewrite ?Hc; simpl)).
  all: rewrite ?alter_snoc, ?length_alter; simpl.
  all: repeat split; try done.
  all: try (by rewrite <- (length_alter end_connection (connections w) c), lookup_snoc).
  all: try (by rewrite lookup_snoc).
  all: intros c' k [= <-] Hk.
  all: rewrite ?lookup_app_l by (rewrite ?length_alter; by eapply lookup_lt_Some).
  all: by rewrite list_lookup_alter_eq, Hk.
Qed.

(** *** No health check without [sipWssUrl] *)

Lemma keeps_call_hook_ev I ev text :
  (∀ w b, I w → I (with_hook_log (λ l, l ++ [(ev, text, b)]) w)) →
  keeps I (call_hook emit ev text).
Proof.
  intros Hf [w s] H. unfold call_hook. simpl.
  destruct (emit ev text s) as [[[]|e] s']; simpl; by apply Hf.
Qed.

Lemma wrapper_no_healthcheck_start :
  keeps (λ w, no_healthcheck w ∧ truthy (sipWssUrl (_clientOptions w)) = false) healthcheck.
Proof.
  intros [w s] [(Hi & H) Hu]. simpl in *. unfold healthcheck.
  unfold mbind, E_bind, this, update, done, mret, E_ret. simpl.
  rewrite Hi, Hu. simpl. done.
Qed.

Ltac no_healthcheck_prim :=
  idtac;
  lazymatch goal with
  | |- keeps _ healthcheck => apply wrapper_no_healthcheck_start
  | |- keeps _ (update _) =>
      apply keeps_update; intros ? [(? & ? & ? & ?) ?]; by repeat split
  | |- keeps _ (call_hook _ _ _) =>
      apply keeps_call_hook_ev; intros ? ? [(? & ? & ? & ?) ?];
      repeat split; simpl; rewrite ?calls_snoc; simpl; try done; lia
  end.

Lemma wrapper_no_healthcheck_step e st :
  (no_healthcheck st.1 ∧ truthy (sipWssUrl (_clientOptions st.1)) = false) →
  let w' := (step HOST_NAME emit throws e st).1 in
  no_healthcheck w' ∧ truthy (sipWssUrl (_clientOptions w')) = false.
Proof.
  intros H. unfold step. destruct (enabled e st.1) eqn:He; [|done].
  destruct e as [c|c b|c|c|c|c|t|ok].
  8: { destruct H as [(Hi & _) _]. simpl in He. rewrite Hi in He.
       apply bool_decide_eq_true in He. by destruct He. }
  all: match goal with
       | |- context [fire _ _ _ ?e _] =>
           let Hk := fresh in
           assert (Hk : keeps (λ w, no_healthcheck w
                                    ∧ truthy (sipWssUrl (_clientOptions w)) = false)
                          (fire HOST_NAME emit throws e))
             by (simpl; keeps_with no_healthcheck_prim);
           exact (Hk st H)
       end.
Qed.

(** Without a truthy [sipWssUrl] the health check never starts: the wrapper
    has no health interval and never calls the hook with a WS_CONN alert. *)
Theorem no_sipWssUrl_no_healthcheck (params : jsval) (s : monitor)
    (c : completion unit) (st0 : wrapper * monitor) (es : list event) :
  monitorFreeSWITCH throws params s = (c, Some st0) →
  given params "sipWssUrl" = false →
  let w' := (run HOST_NAME emit throws es st0).1 in
  healthcheckerInterval w' = None
  ∧ calls WS_CONN_UNHEALTHY (hook_log w') = 0
  ∧ calls WS_CONN_HEALTHY (hook_log w') = 0
  ∧ ∀ ok, enabled (HealthSettled ok) w' = false.
Proof.
  intros (w & Hw & ->)%monitorFreeSWITCH_started Hu w'.
  assert (H0 : no_healthcheck w ∧ truthy (sipWssUrl (_clientOptions w)) = false).
  { unfold new_EslWrapper, build_clientOptions in Hw. rewrite !option_or_given, Hu in Hw.
    repeat match goal with
           | H : context [if ?b then _ else _] |- _ => destruct b; simpl in H
           | H : context [match member ?p ?k with _ => _ end] |- _ =>
               destruct (member p k); simpl in H
           end; try done.
    all: by injection Hw as <-. }
  assert (H1 : no_healthcheck (start throws (w, s)).2.1
               ∧ truthy (sipWssUrl (_clientOptions (start throws (w, s)).2.1)) = false).
  { assert (Hk : keeps (λ w, no_healthcheck w
                             ∧ truthy (sipWssUrl (_clientOptions w)) = false)
                   (start throws)) by keeps_with no_healthcheck_prim.
    exact (Hk (w, s) H0). }
  assert (H : no_healthcheck w' ∧ truthy (sipWssUrl (_clientOptions w')) = false).
  { subst w'. revert H1. generalize (start throws (w, s)).2.
    induction es as [|e es IH]; intros st Hst; [done|].
    apply IH. by apply wrapper_no_healthcheck_step. }
  destruct H as [(Hi & _ & Hc1 & Hc2) _]. repeat split; try done.
  intros ok. simpl. rewrite Hi. by apply bool_decide_eq_false; intros [? ?].
Qed.

(** *** The [connected] field *)

Ltac connected_prim :=
  idtac;
  lazymatch goal with
  | |- keeps _ (update _) =>
      apply keeps_update; intros ? H; first [exact H | reflexivity]
  | |- keeps _ (call_hook _ _ _) => apply keeps_call_hook; intros ? ? H; exact H
  end.

Lemma connected_fire e : keeps (λ w, connected w = true) (fire HOST_NAME emit throws e).
Proof. destruct e; keeps_with connected_prim. Qed.

(** Nothing resets [connected]: once a subscription has been answered it
    stays [true], whatever happens next, also while the connection is lost
    and the reconnection routine is running. *)
Theorem connected_never_reset (es : list event) (st : wrapper * monitor) :
  connected st.1 = true → connected (run HOST_NAME emit throws es st).1 = true.
Proof. intros H. apply (keeps_run (λ w, connected w = true)); [apply connected_fire | exact H]. Qed.

End Facts.

End EslFacts.

(** ** Concrete runs *)

Module Runs.

Import Scenario.

Lemma connected_host :
  feasible sample connected (startHosts sample) = true
  ∧ heap (run sample connected (startHosts sample)) = [the_host 7 false None]
  ∧ hosts (run sample connected (startHosts sample)) = [0].
Proof. by vm_compute. Qed.

Lemma disconnected_host :
  feasible sample disconnected (startHosts sample) = true
  ∧ heap (run sample disconnected (startHosts sample)) = [the_host 7 true (Some 0)]
  ∧ hosts (run sample disconnected (startHosts sample)) = []
  ∧ outbox (run sample disconnected (startHosts sample))
    = [(MEDIA_SERVER_OFFLINE,
        "monitor-1 triggered MEDIA_SERVER_OFFLINE for Kurento ws://kms-1:8888/kurento 10.0.0.5")].
Proof. by vm_compute. Qed.

(** C3: after a disconnect, ['reconnected'] with the same session.  The flag
    is set, so the handler evaluates its literal, and [ip] is not bound:
    it throws a [ReferenceError] before [emitHookWarning] is called and
    before the flag is cleared.  No ONLINE alert is issued and the flag
    stays set. *)
Theorem same_session_reconnection_throws :
  enabled (Reconnected 7 0 true) (run sample disconnected (startHosts sample)) = true
  ∧ flag (run sample disconnected (startHosts sample)) 0 = true
  ∧ (_onReconnection sample true 0 (run sample disconnected (startHosts sample))).1
    = Throw (ReferenceError "ip")
  ∧ emitted (run sample disconnected (startHosts sample))
            (run sample (disconnected ++ [Reconnected 7 0 true]) (startHosts sample)) = []
  ∧ flag (run sample (disconnected ++ [Reconnected 7 0 true]) (startHosts sample)) 0 = true.
Proof. by vm_compute. Qed.

(** C5: the same descriptor configured twice.  [startHosts] calls
    [tryToConnect] for both entries before either connect has settled, so
    both pass the [_hostStarted] guard; when both connects succeed both new
    hosts are added, under their two ids, and the registry holds the pair
    twice. *)
Theorem duplicate_descriptor_registered_twice :
  feasible sample_twice both_connect (startHosts sample_twice) = true
  ∧ (λ h, (url h, ip h)) <$> registry (run sample_twice both_connect (startHosts sample_twice))
    = [ ("ws://kms-1:8888/kurento", "10.0.0.5"); ("ws://kms-1:8888/kurento", "10.0.0.5") ]
  ∧ id <$> registry (run sample_twice both_connect (startHosts sample_twice))
    = [ "0a1b2c3d4e5f"; "v9u8t7s6r5q4" ].
Proof. by vm_compute. Qed.

(** C8: an endpoint whose request throws.  [emitHookWarning] throws in
    turn, and at startup the exception leaves the [catch] block of
    [tryToConnect]: [startupFailureNotified] is not set and no retry is
    scheduled, where with an endpoint that accepts the request the flag is
    set and the retry is pending. *)
Theorem hook_failure_reaches_the_caller :
  (emitHookWarning sample_no_endpoint STARTUP_CONNECT_FAILURE "text"
     (startHosts sample_no_endpoint)).1 = Throw (RequestError 0)
  ∧ enabled (ConnectCallback 0 ConnErr) (startHosts sample_no_endpoint) = true
  ∧ (fire sample_no_endpoint (ConnectCallback 0 ConnErr) (startHosts sample_no_endpoint)).1
    = Throw (RequestError 0)
  ∧ tentativeHosts (step sample_no_endpoint (ConnectCallback 0 ConnErr) (startHosts sample_no_endpoint))
    = [ Tentative "ws://kms-1:8888/kurento" "10.0.0.5" 1 false ]
  ∧ timeouts (step sample_no_endpoint (ConnectCallback 0 ConnErr) (startHosts sample_no_endpoint)) = []
  ∧ tentativeHosts (step sample (ConnectCallback 0 ConnErr) (startHosts sample))
    = [ Tentative "ws://kms-1:8888/kurento" "10.0.0.5" 1 true ]
  ∧ timeouts (step sample (ConnectCallback 0 ConnErr) (startHosts sample)) = [0].
Proof. by vm_compute. Qed.

(** C9: the host is disconnected, a tick of its reconnection interval
    starts a race, the failover timeout wins it.  The connect of that race
    then succeeds after all: its callback assigns [host.client] although the
    race is over. *)
Theorem late_connect_overwrites_client :
  feasible sample timed_out (startHosts sample) = true
  ∧ race_settled <$> attempts (run sample timed_out (startHosts sample)) !! 1 = Some true
  ∧ client <$> heap (run sample timed_out (startHosts sample)) !! 0 = Some 7
  ∧ enabled (ConnectCallback 1 (ConnOk 9 "")) (run sample timed_out (startHosts sample)) = true
  ∧ client <$> heap (step sample (ConnectCallback 1 (ConnOk 9 ""))
                       (run sample timed_out (startHosts sample))) !! 0 = Some 9.
Proof. by vm_compute. Qed.

(** C4: one host, [kurentoStartupRetries] 2, connects that never succeed,
    and an endpoint whose request throws.  The first connect fails, by its
    error callback or by the failover timeout.  The hook is called once and
    throws: no alert goes out and no retry is scheduled, and once the other
    half of the race has fired no event can occur any more, so the second
    connect is never started.  With an endpoint that accepts the request
    the retry timer is pending after the same failure and the alert is
    out. *)
Theorem startup_stops_after_hook_failure :
  feasible sample_no_endpoint [ConnectCallback 0 ConnErr; FailOver 0]
    (startHosts sample_no_endpoint) = true
  ∧ feasible sample_no_endpoint [FailOver 0; ConnectCallback 0 ConnErr]
      (startHosts sample_no_endpoint) = true
  ∧ run sample_no_endpoint [ConnectCallback 0 ConnErr; FailOver 0]
      (startHosts sample_no_endpoint) = startup_stopped
  ∧ run sample_no_endpoint [FailOver 0; ConnectCallback 0 ConnErr]
      (startHosts sample_no_endpoint) = startup_stopped
  ∧ outbox startup_stopped = []
  ∧ hook_calls startup_stopped = 1
  ∧ length (attempts startup_stopped) = 1
  ∧ (∀ e, enabled e startup_stopped = false)
  ∧ enabled (RetryTimeout 0)
      (run sample [ConnectCallback 0 ConnErr; FailOver 0] (startHosts sample)) = true
  ∧ fst <$> outbox (run sample [ConnectCallback 0 ConnErr; FailOver 0] (startHosts sample))
    = [ STARTUP_CONNECT_FAILURE ].
Proof.
  repeat split; try by vm_compute.
  intros e. unfold startup_stopped.
  destruct e as [[|a] res|[|a]|i|c r|c r b|t|r ok]; by simpl.
Qed.

(** C6: an endpoint whose request throws, and a connected host whose probe
    fails three times in a row.  Each failure calls the hook, which throws
    before [healthcheckFailureNotified] is set: three calls, no alert, the
    flag still clear, and the probe that succeeds next issues nothing.  With
    an endpoint that accepts the request the same three failures call the
    hook once and the one WS_CONN_UNHEALTHY is out. *)
Theorem probe_failures_call_hook_again :
  feasible sample_no_endpoint (failing_probes ++ [ProbeSettled 0 true])
    (startHosts sample_no_endpoint) = true
  ∧ hook_calls (run sample_no_endpoint failing_probes (startHosts sample_no_endpoint)) = 3
  ∧ outbox (run sample_no_endpoint failing_probes (startHosts sample_no_endpoint)) = []
  ∧ healthcheckFailureNotified
      <$> heap (run sample_no_endpoint failing_probes (startHosts sample_no_endpoint)) !! 0
    = Some false
  ∧ outbox (run sample_no_endpoint (failing_probes ++ [ProbeSettled 0 true])
              (startHosts sample_no_endpoint)) = []
  ∧ hook_calls (run sample failing_probes (startHosts sample)) = 1
  ∧ fst <$> outbox (run sample failing_probes (startHosts sample)) = [ WS_CONN_UNHEALTHY ].
Proof. by vm_compute. Qed.

(** C7: the socket of a probe opens and the peer never sends the pong.  The
    failover timeout passes, a message that is not the pong arrives, an
    hour passes, and however much more time passes after that the probe is
    still pending, with its socket never closed.  The probe of [esl.js],
    built on the same lines, is settled on the same events, with its socket
    closed. *)
Theorem silent_peer_leaves_probe_pending :
  (Probe.KMS_FAILOVER_TIMEOUT_MS ≤ Probe.elapsed Probe.silent_peer)%N
  ∧ Probe.promise (Probe.probeConnectionHealth Probe.silent_peer) = Probe.Pending
  ∧ Probe.ws_null (Probe.probeConnectionHealth Probe.silent_peer) = false
  ∧ Probe.close_calls (Probe.probeConnectionHealth Probe.silent_peer) = 0
  ∧ (∀ ms, Probe.promise (Probe.probeConnectionHealth (Probe.silent_peer ++ [Probe.Elapse ms]))
           = Probe.Pending
           ∧ Probe.close_calls
               (Probe.probeConnectionHealth (Probe.silent_peer ++ [Probe.Elapse ms])) = 0)
  ∧ Probe.promise (Esl.probeConnectionHealth Probe.silent_peer) = Probe.Resolved
  ∧ Probe.close_calls (Esl.probeConnectionHealth Probe.silent_peer) = 1.
Proof.
  repeat split; try by vm_compute.
  all: rewrite ProbeFacts.probe_snoc.
  all: let p := eval vm_compute in (Probe.probeConnectionHealth Probe.silent_peer) in
       replace (Probe.probeConnectionHealth Probe.silent_peer) with p by (by vm_compute).
  all: done.
Qed.

(** *** Instances of the general theorems *)

Lemma startup_failure_alert_once_witness :
  (length (attempts (run sample [ConnectCallback 0 ConnErr; FailOver 0] (startHosts sample))) ≤ 2)%nat
  ∧ (outbox (run sample [ConnectCallback 0 ConnErr; FailOver 0] (startHosts sample)) = []
     ∨ outbox (run sample [ConnectCallback 0 ConnErr; FailOver 0] (startHosts sample))
       = [the_alert sample "ws://kms-1:8888/kurento" "10.0.0.5"]).
Proof.
  pose proof (startup_failure_alert_once sample "ws://kms-1:8888/kurento" "10.0.0.5"
                eq_refl eq_refl (λ _, eq_refl)
                [ConnectCallback 0 ConnErr; FailOver 0] [RetryTimeout 0] eq_refl) as H.
  exact (conj (proj1 H) (proj1 (proj2 H))).
Defined.

Lemma probe_alerts_once_per_run_witness :
  emitted (run sample connected (startHosts sample))
          (run sample (repeat (ProbeSettled 0 false) 3)
             (run sample connected (startHosts sample)))
  = [(WS_CONN_UNHEALTHY, alert_text sample WS_CONN_UNHEALTHY "ws://kms-1:8888/kurento" "10.0.0.5")].
Proof.
  exact (proj1 (proj2
    (probe_alerts_once_per_run sample 0 (the_host 7 false None)
       (run sample connected (startHosts sample)) 2
       (λ _, eq_refl) eq_refl (ex_intro _ 0 eq_refl) eq_refl))).
Defined.

(** *** Scenarios of the whole machine *)

Lemma offline_then_online :
  feasible sample lost_and_found (startHosts sample) = true
  ∧ fst <$> outbox (run sample lost_and_found (startHosts sample))
    = [ MEDIA_SERVER_OFFLINE; MEDIA_SERVER_ONLINE ]
  ∧ registry (run sample lost_and_found (startHosts sample)) = [ the_host 9 false (Some 0) ]
  ∧ map_to_list (intervals (run sample lost_and_found (startHosts sample))) = [].
Proof. by vm_compute. Qed.

(** The host connects and its client reports a reconnection of the same
    session while [failureNotified] was never set: no alert. *)
Lemma same_session_without_offline :
  feasible sample (connected ++ [Reconnected 7 0 true]) (startHosts sample) = true
  ∧ outbox (run sample (connected ++ [Reconnected 7 0 true]) (startHosts sample)) = []
  ∧ registry (run sample (connected ++ [Reconnected 7 0 true]) (startHosts sample))
    = [ the_host 7 false None ].
Proof. by vm_compute. Qed.

Lemma first_success_is_silent_witness :
  emitted (startHosts sample) (run sample connected (startHosts sample)) = [].
Proof.
  exact (first_success_is_silent sample 0 0 "ws://kms-1:8888/kurento" "10.0.0.5" 7
           "0a1b2c3d4e5f" (Tentative "ws://kms-1:8888/kurento" "10.0.0.5" 0 false)
           (startHosts sample) eq_refl eq_refl eq_refl).
Defined.

Lemma late_failOver_inert_witness :
  (fire sample (FailOver 0) (run sample connected (startHosts sample))).2
  = with_attempts (alter failOver_done 0) (run sample connected (startHosts sample)).
Proof.
  exact (f_equal snd
           (late_failOver_inert sample 0 (Attempt (Startup 0 "ws://kms-1:8888/kurento" "10.0.0.5") true false)
              (run sample connected (startHosts sample)) eq_refl eq_refl)).
Defined.

Lemma late_startup_connect_inert_witness :
  (fire sample (ConnectCallback 0 (ConnOk 7 "0a1b2c3d4e5f"))
     (run sample [FailOver 0] (startHosts sample))).2
  = with_attempts (alter connect_done 0) (run sample [FailOver 0] (startHosts sample)).
Proof.
  exact (f_equal snd
           (late_startup_connect_inert sample 0 0 "ws://kms-1:8888/kurento" "10.0.0.5"
              false true (ConnOk 7 "0a1b2c3d4e5f")
              (run sample [FailOver 0] (startHosts sample)) eq_refl eq_refl)).
Defined.

Lemma _onReconnection_same_session_witness :
  _onReconnection sample true 0 (run sample disconnected (startHosts sample))
  = (Throw (ReferenceError "ip"), run sample disconnected (startHosts sample)).
Proof.
  exact (_onReconnection_same_session sample 0 (the_host 7 true (Some 0))
           (run sample disconnected (startHosts sample)) eq_refl eq_refl).
Defined.

Lemma registry_pairs_unique_witness :
  NoDup (pair_of <$> registry (run sample_pair both_connect (startHosts sample_pair))).
Proof.
  apply registry_pairs_unique; [|done].
  apply NoDup_cons. split; [|apply NoDup_singleton].
  rewrite list_elem_of_singleton. discriminate.
Defined.

(** Both hosts of [sample_pair] are in the registry after [both_connect]. *)
Lemma two_hosts_registered :
  pair_of <$> registry (run sample_pair both_connect (startHosts sample_pair))
  = [("ws://kms-1:8888/kurento", "10.0.0.5"); ("ws://kms-2:8888/kurento", "10.0.0.6")].
Proof. by vm_compute. Qed.

(** *** Instances of the theorems about the health interval, the races and the alerts *)

Lemma health_interval_never_cleared_witness :
  enabled (ProbeSettled 0 true)
    (run sample [Disconnect 7 0] (run sample connected (startHosts sample))) = true.
Proof.
  exact (proj2 (health_interval_never_cleared sample 0 0
                  (run sample connected (startHosts sample)) [Disconnect 7 0]
                  (ex_intro _ (the_host 7 false None) (conj eq_refl eq_refl))) true).
Defined.

Lemma healthcheck_disabled_no_probe_witness :
  enabled (ProbeSettled 0 true)
    (run sample_no_healthcheck connected (startHosts sample_no_healthcheck)) = false.
Proof.
  exact (proj1 (healthcheck_disabled_no_probe sample_no_healthcheck eq_refl connected) 0 true).
Defined.

Lemma disconnection_outcome_witness :
  heap (_onDisconnection sample 0 (run sample connected (startHosts sample))).2 !! 0
  = Some (the_host 7 true (Some 0))
  ∧ hosts (_onDisconnection sample 0 (run sample connected (startHosts sample))).2 = [].
Proof.
  pose proof (disconnection_outcome sample 0 (the_host 7 false None)
                (run sample connected (startHosts sample)) eq_refl eq_refl) as H.
  exact (conj (proj1 H) (proj1 (proj2 H))).
Defined.

Lemma reconnection_outcome_witness :
  hosts (step sample (ConnectCallback 1 (ConnOk 9 "")) (run sample reconnecting (startHosts sample)))
  = filter (λ r', id_at (run sample reconnecting (startHosts sample)) r' ≠ Some "0a1b2c3d4e5f")
      (hosts (run sample reconnecting (startHosts sample))) ++ [0]
  ∧ _reconnectionRoutine
      (step sample (ConnectCallback 1 (ConnOk 9 "")) (run sample reconnecting (startHosts sample)))
    !! "0a1b2c3d4e5f" = None.
Proof.
  pose proof (reconnection_outcome sample 1 0 "0a1b2c3d4e5f" 9 "" (the_host 7 true (Some 0))
                (run sample reconnecting (startHosts sample))
                eq_refl eq_refl eq_refl (timers_ok_reachable sample reconnecting)) as H.
  exact (conj (proj1 (proj2 H)) (proj1 (proj2 (proj2 (proj2 H))))).
Defined.

Lemma startup_connects_bounded_witness :
  (connects 0 (run sample failing_run (startHosts sample)) ≤ 2)%nat
  ∧ (retries_at 0 (run sample failing_run (startHosts sample)) ≤ 2)%nat.
Proof.
  pose proof (startup_connects_bounded sample 2 eq_refl failing_run 0) as H.
  exact (conj (proj1 H) (proj1 (proj2 H))).
Defined.

Lemma online_only_after_offline_witness :
  (occurrences
     (MEDIA_SERVER_ONLINE,
      alert_text sample MEDIA_SERVER_ONLINE "ws://kms-1:8888/kurento" "10.0.0.5")
     (take 1 (outbox (run sample lost_and_found (startHosts sample))))
   ≤ occurrences
       (MEDIA_SERVER_OFFLINE,
        alert_text sample MEDIA_SERVER_OFFLINE "ws://kms-1:8888/kurento" "10.0.0.5")
       (take 1 (outbox (run sample lost_and_found (startHosts sample)))))%nat.
Proof.
  exact (online_only_after_offline sample "ws://kms-1:8888/kurento" "10.0.0.5"
           (λ _, eq_refl) lost_and_found 1).
Defined.

(** *** Instances of the theorems about the token and the probe *)

Lemma greatRandomToken_base32_witness :
  ∃ t, Token.greatRandomToken one_half 12 32 = Some t
       ∧ String.length t = 12
       ∧ all_chars base32_digit t = true
       ∧ (12 = 12 → is_token t = true).
Proof. exact (TokenFacts.greatRandomToken_base32 one_half 12 (λ _, eq_refl)). Defined.

Lemma message_listener_throws_witness :
  Probe.step (Probe.WsMessage None) (Probe.probeConnectionHealth [Probe.WsOpen])
  = Probe.throws (Probe.probeConnectionHealth [Probe.WsOpen]).
Proof.
  exact (proj1 (proj2 (ProbeEdges.message_listener_throws [Probe.WsOpen] eq_refl))).
Defined.

(** *** Instances of the theorems about the wrapper *)

Lemma one_reconnection_routine_witness :
  Esl.live (wrapper_run sample never_throws wrapper_plain dropped).1
  = option_list
      (Esl._reconnectionRoutine (wrapper_run sample never_throws wrapper_plain dropped).1).
Proof.
  refine (proj1 (EslFacts.one_reconnection_routine "monitor-1" (emitHookWarning sample)
                   never_throws esl_params (startHosts sample) (Normal tt)
                   (Esl.start never_throws (wrapper_plain, startHosts sample)).2
                   dropped _)).
  by vm_compute.
Defined.

Lemma offline_and_online_take_turns_witness :
  Esl.calls MEDIA_SERVER_OFFLINE
    (Esl.hook_log (wrapper_run sample never_throws wrapper_plain outage).1)
  = Esl.sent MEDIA_SERVER_ONLINE
      (Esl.hook_log (wrapper_run sample never_throws wrapper_plain outage).1)
    + (if Esl.failureNotified (wrapper_run sample never_throws wrapper_plain outage).1
       then 1 else 0).
Proof.
  refine (proj2 (EslFacts.offline_and_online_take_turns "monitor-1" (emitHookWarning sample)
                   never_throws esl_params (startHosts sample) (Normal tt)
                   (Esl.start never_throws (wrapper_plain, startHosts sample)).2
                   outage _)).
  by vm_compute.
Defined.

Lemma unhealthy_and_healthy_take_turns_witness :
  Esl.sent WS_CONN_UNHEALTHY
    (Esl.hook_log (wrapper_run sample never_throws wrapper_wss unhealthy_then_healthy).1)
  = Esl.calls WS_CONN_HEALTHY
      (Esl.hook_log (wrapper_run sample never_throws wrapper_wss unhealthy_then_healthy).1)
    + (if Esl.healthcheckFailureNotified
            (wrapper_run sample never_throws wrapper_wss unhealthy_then_healthy).1
       then 1 else 0).
Proof.
  refine (proj2 (EslFacts.unhealthy_and_healthy_take_turns "monitor-1" (emitHookWarning sample)
                   never_throws esl_params_wss (startHosts sample) (Normal tt)
                   (Esl.start never_throws (wrapper_wss, startHosts sample)).2
                   unhealthy_then_healthy _)).
  by vm_compute.
Defined.

Lemma no_sipWssUrl_no_healthcheck_witness :
  Esl.healthcheckerInterval (wrapper_run sample never_throws wrapper_plain outage).1 = None
  ∧ Esl.enabled (Esl.HealthSettled true)
      (wrapper_run sample never_throws wrapper_plain outage).1 = false.
Proof.
  assert (H := EslFacts.no_sipWssUrl_no_healthcheck "monitor-1" (emitHookWarning sample)
                 never_throws esl_params (startHosts sample) (Normal tt)
                 (Esl.start never_throws (wrapper_plain, startHosts sample)).2 outage).
  specialize (H ltac:(by vm_compute) ltac:(by vm_compute)).
  exact (conj (proj1 H) (proj2 (proj2 (proj2 H)) true)).
Defined.

Lemma connected_never_reset_witness :
  Esl.connected
    (Esl.run "monitor-1" (emitHookWarning sample) never_throws [Esl.End 0]
       (wrapper_run sample never_throws wrapper_plain [Esl.Ready 0; Esl.Subscribed 0])).1
  = true.
Proof.
  refine (EslFacts.connected_never_reset "monitor-1" (emitHookWarning sample) never_throws
            [Esl.End 0]
            (wrapper_run sample never_throws wrapper_plain [Esl.Ready 0; Esl.Subscribed 0]) _).
  by vm_compute.
Defined.

(** The outage as the endpoint sees it: one OFFLINE, one ONLINE, and the
    reconnection interval is gone. *)
Lemma wrapper_outage :
  Esl.hook_log (wrapper_run sample never_throws wrapper_plain outage).1
  = [ (MEDIA_SERVER_OFFLINE,
       "monitor-1 triggered MEDIA_SERVER_OFFLINE for FreeSWITCH at 127.0.0.1:8021", true);
      (MEDIA_SERVER_ONLINE,
       "monitor-1 triggered MEDIA_SERVER_ONLINE for FreeSWITCH at 127.0.0.1:8021", true) ]
  ∧ Esl.live (wrapper_run sample never_throws wrapper_plain outage).1 = [].
Proof. by vm_compute. Qed.

(** While the connection is lost the wrapper still says [connected]. *)
Lemma wrapper_dropped :
  Esl.connected (wrapper_run sample never_throws wrapper_plain dropped).1 = true
  ∧ Esl.live (wrapper_run sample never_throws wrapper_plain dropped).1 = [0]
  ∧ Esl.failureNotified (wrapper_run sample never_throws wrapper_plain dropped).1 = true.
Proof. by vm_compute. Qed.

End Runs.
